(** * Common-issues subsystem of the Bridget moderation bot

    A shallow embedding of [bridget/cogs/issues.py] (presenter, index
    rebuild, reindex and import batches, the [add], [edit] and [delete]
    commands), of the error handler of [bridget/__main__.py] and of the
    pure helpers of [bridget/utils/utils.py], followed by the properties
    of the specification that were checked against it and by further
    properties of the code.

    Python values are modelled as follows.
    - [str] is a list of Unicode code points ([pystr]); [len] is [length].
    - [int] is [N] for identifiers and counters, [Z] for colours and sizes.
    - an exception is a value of [exn]; a coroutine is a function of the
      world it runs in, returning its result (or the exception it raised)
      together with the world it leaves behind: effects performed before a
      [raise] persist.
    - the document database holds the guild document (the ordered issue
      list and the list of index page ids) and the GridFS bucket of image
      blobs; the common-issues channel is the list of its messages, oldest
      first. *)

From Stdlib Require Import ZArith NArith List String Ascii Lia Decimal DecimalPos
  Sorted.
From stdpp Require Import base option list gmap.

Local Open Scope Z_scope.

(** ** Strings *)

Definition pystr := list N.

(** A literal of the source, as code points. *)
Definition u (s : string) : pystr := map N_of_ascii (list_ascii_of_string s).

Fixpoint uint_codes (d : Decimal.uint) : pystr :=
  match d with
  | Nil => []
  | D0 d => 48%N :: uint_codes d
  | D1 d => 49%N :: uint_codes d
  | D2 d => 50%N :: uint_codes d
  | D3 d => 51%N :: uint_codes d
  | D4 d => 52%N :: uint_codes d
  | D5 d => 53%N :: uint_codes d
  | D6 d => 54%N :: uint_codes d
  | D7 d => 55%N :: uint_codes d
  | D8 d => 56%N :: uint_codes d
  | D9 d => 57%N :: uint_codes d
  end.

(** [str(n)] / [f"{n}"] for a non-negative [int]. *)
Definition dec (n : N) : pystr := uint_codes (N.to_uint n).

Definition len (s : pystr) : Z := Z.of_nat (length s).

Fixpoint str_eqb (a b : pystr) : bool :=
  match a, b with
  | [], [] => true
  | x :: a', y :: b' => N.eqb x y && str_eqb a' b'
  | _, _ => false
  end.

(** [s.startswith(p)] *)
Fixpoint startswith (s p : pystr) : bool :=
  match p, s with
  | [], _ => true
  | y :: p', x :: s' => N.eqb x y && startswith s' p'
  | _ :: _, [] => false
  end.

(** Whitespace in the sense of [str.strip()] and [str.isspace()]. *)
Definition py_isspace (c : N) : bool :=
  ((9 <=? c) && (c <=? 13) || (28 <=? c) && (c <=? 32)
   || (c =? 0x85) || (c =? 0xA0) || (c =? 0x1680)
   || (0x2000 <=? c) && (c <=? 0x200A)
   || (c =? 0x2028) || (c =? 0x2029) || (c =? 0x202F)
   || (c =? 0x205F) || (c =? 0x3000))%N.

Fixpoint lstrip (s : pystr) : pystr :=
  match s with
  | c :: s' => if py_isspace c then lstrip s' else s
  | [] => []
  end.

(** [s.strip()] *)
Definition strip (s : pystr) : pystr := rev (lstrip (rev (lstrip s))).

(** [s.replace(old, new)] for a non-empty [old]: occurrences are replaced
    from the left and do not overlap; [skip] counts the characters of the
    occurrence just replaced that are still to be passed over. *)
Fixpoint replace_from (old new : pystr) (skip : nat) (s : pystr) : pystr :=
  match s with
  | [] => []
  | c :: s' =>
    match skip with
    | S k => replace_from old new k s'
    | O => if startswith s old
           then new ++ replace_from old new (length old - 1) s'
           else c :: replace_from old new 0 s'
    end
  end.

(** [s.replace(old, new)]; an empty [old] matches before every character
    and at the end. *)
Definition replace (s old new : pystr) : pystr :=
  match old with
  | [] => flat_map (fun c => new ++ [c]) s ++ new
  | _ :: _ => replace_from old new 0 s
  end.

(** [s.split(sep)] for a one-character separator. *)
Fixpoint split_on (sep : N) (cur : pystr) (s : pystr) : list pystr :=
  match s with
  | [] => [cur]
  | c :: s' => if N.eqb c sep then cur :: split_on sep [] s'
               else split_on sep (cur ++ [c]) s'
  end.

(** [sep.join(parts)] *)
Fixpoint join (sep : pystr) (parts : list pystr) : pystr :=
  match parts with
  | [] => []
  | [p] => p
  | p :: ps => p ++ sep ++ join sep ps
  end.

(** ** The regular expression of [prepare_issue_view]

    [re.search] is a backtracking matcher: alternatives are tried in
    order, a greedy [+] tries the longest repetition first and a lazy [+?]
    the shortest, and the search returns the match that starts leftmost.
    The pattern only repeats single-character classes, so the abstract
    syntax does the same. *)

Inductive cclass :=
| CChar (c : N)            (* a literal character *)
| CDigit                   (* \d *)
| CDot                     (* .  *)
| CRange (lo hi : N).      (* [lo-hi] *)

Inductive regex :=
| RCls (c : cclass)
| RSeq (r1 r2 : regex)
| RAlt (r1 r2 : regex)
| RPlus (c : cclass) (greedy : bool).

Fixpoint lit (s : pystr) (r : regex) : regex :=
  match s with
  | [] => r
  | c :: s' => RSeq (RCls (CChar c)) (lit s' r)
  end.

Section Platform.

(** The tables and helpers that live outside the sources at hand:
    - [hash_color]: [utils.utils.hash_color], the colour value derived
      from a name;
    - [unicode_decimal]: the Unicode category Nd, which [\d] matches in a
      [str] pattern;
    - [Color_from_str]: [discord.Color.from_str], [None] standing for the
      [ValueError] it raises on a malformed colour. *)
Variable hash_color : pystr -> Z.
Variable unicode_decimal : N -> bool.
Variable Color_from_str : pystr -> option Z.

Definition cls_match (c : cclass) (x : N) : bool :=
  match c with
  | CChar y => N.eqb x y
  | CDigit => unicode_decimal x
  | CDot => negb (N.eqb x 10)
  | CRange lo hi => (lo <=? x)%N && (x <=? hi)%N
  end.

(** One or more characters of class [c], longest first; [k] matches the
    rest of the pattern and returns the text left after the whole match. *)
Fixpoint plus_greedy (c : cclass) (s : pystr) (k : pystr -> option pystr)
  : option pystr :=
  match s with
  | x :: s' =>
    if cls_match c x then
      match plus_greedy c s' k with
      | Some r => Some r
      | None => k s'
      end
    else None
  | [] => None
  end.

(** One or more characters of class [c], shortest first. *)
Fixpoint plus_lazy (c : cclass) (s : pystr) (k : pystr -> option pystr)
  : option pystr :=
  match s with
  | x :: s' =>
    if cls_match c x then
      match k s' with
      | Some r => Some r
      | None => plus_lazy c s' k
      end
    else None
  | [] => None
  end.

Fixpoint rmatch (r : regex) (s : pystr) (k : pystr -> option pystr)
  : option pystr :=
  match r with
  | RCls c =>
    match s with
    | x :: s' => if cls_match c x then k s' else None
    | [] => None
    end
  | RSeq r1 r2 => rmatch r1 s (fun s1 => rmatch r2 s1 k)
  | RAlt r1 r2 =>
    match rmatch r1 s k with
    | Some x => Some x
    | None => rmatch r2 s k
    end
  | RPlus c true => plus_greedy c s k
  | RPlus c false => plus_lazy c s k
  end.

(** [re.search(r, s).group(0)], or [None]. *)
Fixpoint re_search (r : regex) (s : pystr) : option pystr :=
  match rmatch r s Some with
  | Some rest => Some (take (length s - length rest) s)
  | None =>
    match s with
    | [] => None
    | _ :: s' => re_search r s'
    end
  end.

(** [<:\d+>|<:.+?:\d+>|<a:.+:\d+>|[\U00010000-\U0010ffff]] *)
Definition emoji_re : regex :=
  RAlt (lit (u "<:") (RSeq (RPlus CDigit true) (RCls (CChar 62))))
 (RAlt (lit (u "<:") (RSeq (RPlus CDot false)
         (lit (u ":") (RSeq (RPlus CDigit true) (RCls (CChar 62))))))
 (RAlt (lit (u "<a:") (RSeq (RPlus CDot true)
         (lit (u ":") (RSeq (RPlus CDigit true) (RCls (CChar 62))))))
       (RCls (CRange 0x10000 0x10ffff)))).


(** The texts a pattern matches. *)
Inductive lang : regex -> pystr -> Prop :=
| lang_cls c x : cls_match c x = true -> lang (RCls c) [x]
| lang_seq r1 r2 a b : lang r1 a -> lang r2 b -> lang (RSeq r1 r2) (a ++ b)
| lang_alt_l r1 r2 a : lang r1 a -> lang (RAlt r1 r2) a
| lang_alt_r r1 r2 a : lang r2 a -> lang (RAlt r1 r2) a
| lang_plus c g x a :
    cls_match c x = true -> Forall (fun y => cls_match c y = true) a ->
    lang (RPlus c g) (x :: a).

Definition ends_with (z : N) (t : pystr) : Prop := exists mid, t = mid ++ [z].

(** ** Data model *)

(** A GridFS file: the bytes and the content type given at [put]. *)
Record Blob := { blob_data : list N; blob_content_type : option pystr }.

(** [model.issues.Issue].  [image] is the GridFS reference held by the
    file field ([None]: no file); [color] is [None] while the field has not
    been assigned; [message_id] is assigned before an issue is stored. *)
Record Issue := {
  name : pystr;
  content : pystr;
  added_date : option Z;
  added_by_id : N;
  added_by_tag : pystr;
  image : option N;
  button_links : list (pystr * pystr);
  color : option Z;
  panic_string : pystr;
  message_id : N
}.

Definition set_message_id (i : Issue) (m : N) : Issue :=
  {| name := name i; content := content i; added_date := added_date i;
     added_by_id := added_by_id i; added_by_tag := added_by_tag i;
     image := image i; button_links := button_links i; color := color i;
     panic_string := panic_string i; message_id := m |}.

Definition set_image (i : Issue) (g : option N) : Issue :=
  {| name := name i; content := content i; added_date := added_date i;
     added_by_id := added_by_id i; added_by_tag := added_by_tag i;
     image := g; button_links := button_links i; color := color i;
     panic_string := panic_string i; message_id := message_id i |}.

Definition set_panic_color (i : Issue) (p : pystr) (c : option Z) : Issue :=
  {| name := name i; content := content i; added_date := added_date i;
     added_by_id := added_by_id i; added_by_tag := added_by_tag i;
     image := image i; button_links := button_links i; color := c;
     panic_string := p; message_id := message_id i |}.

(** [discord.Embed], restricted to the fields the cog reads or writes.  An
    embed without title or description is modelled with the empty string. *)
Record Embed := {
  title : pystr;
  description : pystr;
  timestamp : option Z;
  embed_color : option Z;
  footer_text : option pystr;
  image_url : option pystr
}.

(** [discord.ui.Button] of style [link]. *)
Record LinkButton := {
  label : pystr;
  url : pystr;
  emoji : option pystr
}.

(** A child of an action row of a received message. *)
Inductive Component :=
| CButton (b : LinkButton)
| COther.

Record File := { filename : pystr; file_data : list N }.

Record Message := {
  msg_id : N;
  author_bot : bool;
  embeds : list Embed;
  components : list (list Component);
  attachments : list File
}.

(** [discord.Attachment] of a command invocation. *)
Record Attachment := {
  att_content_type : option pystr;
  att_size : Z;
  att_data : list N
}.

(** Outcome of an HTTP GET. *)
Inductive HttpResp :=
| HttpBody (status : Z) (body : list N)
| HttpFailure.

(** The world a coroutine runs in.  [send_faults] scripts the platform:
    its head tells whether the next [channel.send] fails ([true]) or goes
    through; once exhausted every send goes through.  [next_msg] and
    [next_grid] are the sources of fresh message and GridFS ids. *)
Record World := {
  guild_id : N;
  channel_common_issues : N;
  issues : list Issue;
  issues_list_msg : option (list N);
  gridfs : gmap N Blob;
  next_grid : N;
  channel : list Message;
  next_msg : N;
  send_faults : list bool;
  http : pystr -> HttpResp
}.

Definition with_issues (w : World) (l : list Issue) : World :=
  {| guild_id := guild_id w; channel_common_issues := channel_common_issues w;
     issues := l; issues_list_msg := issues_list_msg w;
     gridfs := gridfs w; next_grid := next_grid w;
     channel := channel w; next_msg := next_msg w;
     send_faults := send_faults w; http := http w |}.

Definition with_issues_list_msg (w : World) (l : option (list N)) : World :=
  {| guild_id := guild_id w; channel_common_issues := channel_common_issues w;
     issues := issues w; issues_list_msg := l;
     gridfs := gridfs w; next_grid := next_grid w;
     channel := channel w; next_msg := next_msg w;
     send_faults := send_faults w; http := http w |}.

Definition with_gridfs (w : World) (g : gmap N Blob) (n : N) : World :=
  {| guild_id := guild_id w; channel_common_issues := channel_common_issues w;
     issues := issues w; issues_list_msg := issues_list_msg w;
     gridfs := g; next_grid := n;
     channel := channel w; next_msg := next_msg w;
     send_faults := send_faults w; http := http w |}.

Definition with_channel (w : World) (c : list Message) : World :=
  {| guild_id := guild_id w; channel_common_issues := channel_common_issues w;
     issues := issues w; issues_list_msg := issues_list_msg w;
     gridfs := gridfs w; next_grid := next_grid w;
     channel := c; next_msg := next_msg w;
     send_faults := send_faults w; http := http w |}.

Definition with_sent (w : World) (c : list Message) (n : N) (f : list bool)
  : World :=
  {| guild_id := guild_id w; channel_common_issues := channel_common_issues w;
     issues := issues w; issues_list_msg := issues_list_msg w;
     gridfs := gridfs w; next_grid := next_grid w;
     channel := c; next_msg := n;
     send_faults := f; http := http w |}.

(** ** Exceptions and coroutines *)

Inductive exn :=
| BadArgument (msg : pystr)      (* discord.ext.commands.BadArgument *)
| NotFound                       (* discord.errors.NotFound *)
| HTTPException                  (* discord.errors.HTTPException *)
| ClientError                    (* aiohttp.ClientError *)
| GridFSError                    (* mongoengine.fields.GridFSError *)
| TypeError
| AttributeError
| ValueError.

Inductive Res (A : Type) :=
| Ok (a : A)
| Raise (e : exn).
#[global] Arguments Ok {A} a.
#[global] Arguments Raise {A} e.

Definition M (A : Type) : Type := World -> Res A * World.

Definition ret {A} (a : A) : M A := fun w => (Ok a, w).

Definition raise {A} (e : exn) : M A := fun w => (Raise e, w).

Definition bind {A B} (c : M A) (k : A -> M B) : M B :=
  fun w =>
    match c w with
    | (Ok a, w') => k a w'
    | (Raise e, w') => (Raise e, w')
    end.

(** [try: c  except: pass] *)
Definition try_pass (c : M unit) : M unit :=
  fun w =>
    match c w with
    | (Ok a, w') => (Ok a, w')
    | (Raise _, w') => (Ok tt, w')
    end.

Definition lift {A} (r : Res A) : M A := fun w => (r, w).

Definition get_world : M World := fun w => (Ok w, w).

Notation "'let*' x ':=' c 'in' k" := (bind c (fun x => k))
  (at level 10, x name, c at level 100, k at level 200).
Notation "c ';;' k" := (bind c (fun _ => k))
  (at level 100, k at level 200, right associativity).

(** [for x in l: body x] *)
Fixpoint for_each {A} (l : list A) (body : A -> M unit) : M unit :=
  match l with
  | [] => ret tt
  | x :: l' => body x ;; for_each l' body
  end.

(** A computation keeps [f] when it never changes that observation of the
    world, whether it returns or raises. *)
Definition keeps {A B} (f : World -> B) (c : M A) : Prop :=
  forall w, f (snd (c w)) = f w.

(** A computation grows the channel when all it does to it is append,
    whether it returns or raises. *)
Definition grows {A} (c : M A) : Prop :=
  forall w, exists extra, channel (snd (c w)) = channel w ++ extra.

(** ** The guild document *)

(** Modelled from the spec: [utils.services.guild_service] is not among the
    sources.  Section 4.1 gives its contract: [get(name)] returns the issue
    of that name or nothing, [add] appends a record to the persisted order,
    [edit] replaces the record of the same name, [list] is the sequence in
    persisted order.  The duplicate check of the contract is the one the
    [add] command makes before calling [add_issue]. *)
Definition get_issue (n : pystr) : M (option Issue) :=
  fun w => (Ok (List.find (fun i => str_eqb (name i) n) (issues w)), w).

Definition add_issue (i : Issue) : M unit :=
  fun w => (Ok tt, with_issues w (issues w ++ [i])).

Fixpoint replace_by_name (i : Issue) (l : list Issue) : list Issue :=
  match l with
  | [] => []
  | x :: l' => if str_eqb (name x) (name i) then i :: l'
               else x :: replace_by_name i l'
  end.

Definition edit_issue (i : Issue) : M unit :=
  fun w => (Ok tt, with_issues w (replace_by_name i (issues w))).

Definition edit_issues_list (l : list N) : M unit :=
  fun w => (Ok tt, with_issues_list_msg w (Some l)).

(** ** The GridFS proxy of [Issue.image]

    The file field always yields a proxy object, so [issue.image is not
    None] holds of every issue; the proxy reads [None] when it refers to no
    file or to a file that is gone.  [delete] and [put] act on the bucket
    at once, whether or not the issue document is saved afterwards. *)

Definition image_read (w : World) (i : Issue) : option (list N) :=
  match image i with
  | Some g => match gridfs w !! g with
              | Some b => Some (blob_data b)
              | None => None
              end
  | None => None
  end.

Definition image_content_type (w : World) (i : Issue) : option pystr :=
  match image i with
  | Some g => match gridfs w !! g with
              | Some b => blob_content_type b
              | None => None
              end
  | None => None
  end.

(** [issue.image.delete()] *)
Definition image_delete (i : Issue) : M Issue :=
  fun w =>
    match image i with
    | Some g => (Ok (set_image i None),
                 with_gridfs w (delete g (gridfs w)) (next_grid w))
    | None => (Ok i, w)
    end.

(** [issue.image.put(data, content_type=ct)] *)
Definition image_put (i : Issue) (data : list N) (ct : option pystr)
  : M Issue :=
  fun w =>
    match image i with
    | Some _ => (Raise GridFSError, w)
    | None =>
      let g := next_grid w in
      (Ok (set_image i (Some g)),
       with_gridfs w
         (<[g := {| blob_data := data; blob_content_type := ct |}]> (gridfs w))
         (N.succ g))
    end.

(** [issue.image.replace(data, content_type=ct)] *)
Definition image_replace (i : Issue) (data : list N) (ct : option pystr)
  : M Issue :=
  let* i1 := image_delete i in image_put i1 data ct.

(** ** The common-issues channel *)

(** Rows of a sent view: at most five buttons each. *)
Fixpoint view_rows (row : list Component) (l : list LinkButton)
  : list (list Component) :=
  match l with
  | [] => match row with [] => [] | _ :: _ => [row] end
  | b :: l' => if (length row <? 5)%nat then view_rows (row ++ [CButton b]) l'
               else row :: view_rows [CButton b] l'
  end.

Definition rows_of_view (v : option (list LinkButton))
  : list (list Component) :=
  match v with
  | Some l => view_rows [] l
  | None => []
  end.

(** [await channel.send(file=file, embed=e, view=v)] *)
Definition channel_send (file : option File) (e : Embed)
    (v : option (list LinkButton)) : M Message :=
  fun w =>
    match send_faults w with
    | true :: f =>
      (Raise HTTPException, with_sent w (channel w) (next_msg w) f)
    | _ =>
      let m := {| msg_id := next_msg w; author_bot := true; embeds := [e];
                  components := rows_of_view v;
                  attachments := match file with Some f => [f] | None => [] end |} in
      (Ok m, with_sent w (channel w ++ [m]) (N.succ (next_msg w))
                      (tail (send_faults w)))
    end.

(** The message [channel.send(embed=e)] leaves in the channel. *)
Definition bot_message (id : N) (e : Embed) : Message :=
  {| msg_id := id; author_bot := true; embeds := [e]; components := [];
     attachments := [] |}.

(** [await channel.fetch_message(id)] *)
Definition fetch_message (id : N) : M Message :=
  fun w =>
    match List.find (fun m => N.eqb (msg_id m) id) (channel w) with
    | Some m => (Ok m, w)
    | None => (Raise NotFound, w)
    end.

Definition without (id : N) (c : list Message) : list Message :=
  List.filter (fun x => negb (N.eqb (msg_id x) id)) c.

(** [await msg.delete()] *)
Definition delete_message (m : Message) : M unit :=
  fun w =>
    if existsb (fun x => N.eqb (msg_id x) (msg_id m)) (channel w)
    then (Ok tt, with_channel w (without (msg_id m) (channel w)))
    else (Raise NotFound, w).

(** [await msg.edit(attachments=a, embed=e, view=v)]; a missing view
    leaves the components as they are. *)
Definition edit_message (m : Message) (a : list File) (e : Embed)
    (v : option (list LinkButton)) : M unit :=
  fun w =>
    if existsb (fun x => N.eqb (msg_id x) (msg_id m)) (channel w)
    then (Ok tt, with_channel w
            (map (fun x => if N.eqb (msg_id x) (msg_id m)
                           then {| msg_id := msg_id x; author_bot := author_bot x;
                                   embeds := [e];
                                   components := match v with
                                                 | Some _ => rows_of_view v
                                                 | None => components x
                                                 end;
                                   attachments := a |}
                           else x) (channel w)))
    else (Raise NotFound, w).

(** [get_discord_file_from_url].  On status 200 the body is written to a
    [NamedTemporaryFile], which [discord.File] takes for a path to open
    and rejects with [TypeError]; on any other status the function returns
    [None]; a failing request raises. *)
Definition get_discord_file_from_url (link : pystr) : M (option File) :=
  fun w =>
    match http w link with
    | HttpBody status body =>
      if status =? 200
      then (Raise TypeError, w)
      else (Ok None, w)
    | HttpFailure => (Raise ClientError, w)
    end.

(** ** Presenter *)

(** [discord.Color(v).value]: the constructor rejects a value that is not
    an [int]. *)
Definition Color_value (c : option Z) : Res Z :=
  match c with
  | Some v => Ok v
  | None => Raise TypeError
  end.

Definition is_gif (ct : option pystr) : bool :=
  match ct with
  | Some s => str_eqb s (u "image/gif")
  | None => false
  end.

Definition prepare_issue_embed (w : World) (issue : Issue) : Res Embed :=
  match Color_value (color issue) with
  | Raise e => Raise e
  | Ok v =>
    Ok {| title := name issue;
          description := content issue;
          timestamp := added_date issue;
          embed_color := Some (if v =? 0 then hash_color (name issue) else v);
          footer_text := Some (u "Submitted by " ++ added_by_tag issue);
          image_url :=
            match image_read w issue with
            | Some _ =>
              Some (if is_gif (image_content_type w issue)
                    then u "attachment://image.gif"
                    else u "attachment://image.png")
            | None => None
            end |}
  end.

(** The body of the loop of [prepare_issue_view]: one button per
    [(label, link)] pair. *)
Definition render_button (p : pystr * pystr) : LinkButton :=
  match re_search emoji_re (fst p) with
  | Some m =>
    let e := strip m in
    {| label := strip (replace (fst p) e []); url := snd p; emoji := Some e |}
  | None => {| label := fst p; url := snd p; emoji := None |}
  end.

(** [View.add_item]: a view takes 25 items and rejects the next. *)
Definition add_item (view : list LinkButton) (b : LinkButton)
  : Res (list LinkButton) :=
  if (25 <=? length view)%nat then Raise ValueError else Ok (view ++ [b]).

(** The loop of [prepare_issue_view], from the view built so far. *)
Fixpoint view_loop (view : list LinkButton) (links : list (pystr * pystr))
  : Res (list LinkButton) :=
  match links with
  | [] => Ok view
  | p :: links' =>
    match add_item view (render_button p) with
    | Ok view' => view_loop view' links'
    | Raise e => Raise e
    end
  end.

(** [None] is [discord.utils.MISSING]. *)
Definition prepare_issue_view (issue : Issue)
  : Res (option (list LinkButton)) :=
  match button_links issue with
  | [] => Ok None
  | _ :: _ =>
    match view_loop [] (button_links issue) with
    | Ok view => Ok (Some view)
    | Raise e => Raise e
    end
  end.

(** The attachment built from the stored image, if any. *)
Definition discord_file (w : World) (issue : Issue) : option File :=
  match image_read w issue with
  | Some data =>
    Some {| filename := if is_gif (image_content_type w issue)
                        then u "image.gif" else u "image.png";
            file_data := data |}
  | None => None
  end.

(** [await channel.send(file=_file or MISSING,
      embed=prepare_issue_embed(issue) or MISSING,
      view=prepare_issue_view(issue) or MISSING)] *)
Definition post_issue (issue : Issue) : M Message :=
  let* w := get_world in
  let* e := lift (prepare_issue_embed w issue) in
  let* v := lift (prepare_issue_view issue) in
  channel_send (discord_file w issue) e v.

(** ** Index rebuild *)

(** One line of the table of contents, for the issue at position [i]. *)
Definition index_line (w : World) (i : nat) (issue : Issue) : pystr :=
  dec (N.of_nat (i + 1)) ++ u ". [" ++ name issue
    ++ u "](https://discord.com/channels/" ++ dec (guild_id w)
    ++ u "/" ++ dec (channel_common_issues w)
    ++ u "/" ++ dec (message_id issue) ++ u ")" ++ [10%N].

(** The variables of the loop of [refresh_common_issues]. *)
Record Toc := {
  toc_title : pystr;
  desc : pystr;
  page : N;
  ids : list N
}.

Definition toc_embed (t d : pystr) (p : N) : Embed :=
  {| title := t; description := d; timestamp := None; embed_color := None;
     footer_text := Some (u "Page " ++ dec p); image_url := None |}.

Fixpoint toc_loop (line : nat -> Issue -> pystr) (i : nat) (l : list Issue)
    (st : Toc) : M Toc :=
  match l with
  | [] => ret st
  | issue :: l' =>
    let d := desc st ++ line i issue in
    if 3072 <? len d then
      let* msg := channel_send None
                    (toc_embed (toc_title st) d (N.succ (page st))) None in
      toc_loop line (S i) l'
        {| toc_title := []; desc := []; page := N.succ (page st);
           ids := ids st ++ [msg_id msg] |}
    else
      toc_loop line (S i) l'
        {| toc_title := toc_title st; desc := d; page := page st;
           ids := ids st |}
  end.

Definition delete_old_list : M unit :=
  let* w := get_world in
  match issues_list_msg w with
  | Some l =>
    for_each l (fun id =>
      try_pass (let* msg := fetch_message id in delete_message msg))
  | None => ret tt
  end.

Definition refresh_common_issues : M unit :=
  delete_old_list ;;
  let* w := get_world in
  let* st := toc_loop (index_line w) 0 (issues w)
               {| toc_title := u "Table of Contents"; desc := [];
                  page := 0; ids := [] |} in
  if 0 <? len (desc st) then
    let* msg := channel_send None
                  (toc_embed (toc_title st) (desc st) (N.succ (page st)))
                  None in
    edit_issues_list (ids st ++ [msg_id msg])
  else edit_issues_list (ids st).

(** *** What a rebuild posts when every send goes through

    The functions below describe the outcome of [refresh_common_issues]
    without the effects; the lemmas [toc_loop_ok] and [refresh_ok] relate
    them to the code. *)

(** The lines of the table, for the issues at positions [i], [i+1], ... *)
Fixpoint index_lines (line : nat -> Issue -> pystr) (i : nat) (l : list Issue)
  : list pystr :=
  match l with
  | [] => []
  | x :: l' => line i x :: index_lines line (S i) l'
  end.

(** The pages flushed in the loop, and the buffer left at its end, from a
    buffer holding [d]. *)
Fixpoint flushed (lines : list pystr) (d : pystr) : list pystr * pystr :=
  match lines with
  | [] => ([], d)
  | l :: ls =>
    if 3072 <? len (d ++ l)
    then ((d ++ l) :: fst (flushed ls []), snd (flushed ls []))
    else flushed ls (d ++ l)
  end.

(** All the pages: the flushed ones, then the last buffer unless empty. *)
Definition pages_of (lines : list pystr) : list pystr :=
  fst (flushed lines []) ++
  (if 0 <? len (snd (flushed lines [])) then [snd (flushed lines [])] else []).

(** The messages of the pages [ps], the first with title [t], page number
    [p + 1] and id [n]. *)
Fixpoint page_messages (t : pystr) (p n : N) (ps : list pystr)
  : list Message :=
  match ps with
  | [] => []
  | d :: ps' =>
    bot_message n (toc_embed t d (N.succ p))
      :: page_messages [] (N.succ p) (N.succ n) ps'
  end.

(** The channel once the messages with the given ids are gone. *)
Definition purge (l : list N) (c : list Message) : list Message :=
  fold_left (fun c id => without id c) l c.

Definition old_list (w : World) : list N :=
  match issues_list_msg w with
  | Some l => l
  | None => []
  end.

(** The footer of a message's first embed. *)
Definition page_footer (m : Message) : option pystr :=
  match embeds m with
  | e :: _ => footer_text e
  | [] => None
  end.

(** The description of a message's first embed. *)
Definition page_text (m : Message) : pystr :=
  match embeds m with
  | e :: _ => description e
  | [] => []
  end.

(** The length of the longest line. *)
Definition longest (lines : list pystr) : Z :=
  fold_right Z.max 0 (map len lines).

(** The number of pages posted from the lines [lines] and a buffer
    holding [d]. *)
Definition page_count (lines : list pystr) (d : pystr) : Z :=
  Z.of_nat (length (fst (flushed lines d)))
  + (if 0 <? len (snd (flushed lines d)) then 1 else 0).

(** The world a rebuild leaves behind. *)
Definition refreshed (w : World) : World :=
  let msgs := page_messages (u "Table of Contents") 0 (next_msg w)
                (pages_of (index_lines (index_line w) 0 (issues w))) in
  with_issues_list_msg
    (with_sent w (purge (old_list w) (channel w) ++ msgs)
       (next_msg w + N.of_nat (length msgs)) [])
    (Some (map msg_id msgs)).

(** ** Reindex *)

Definition reindex_one (issue : Issue) : M unit :=
  try_pass (let* msg := fetch_message (message_id issue) in
            delete_message msg) ;;
  let* msg := post_issue issue in
  edit_issue (set_message_id issue (msg_id msg)).

(** The value returned is the text of the closing follow-up. *)
Definition do_reindex : M pystr :=
  let* w := get_world in
  for_each (issues w) reindex_one ;;
  refresh_common_issues ;;
  ret (u "Reindexed!").

(** *** What a reindex does when every send goes through *)

(** The message [reindex_one] posts for [issue], with id [n]. *)
Definition repost (w : World) (n : N) (issue : Issue) : Message :=
  {| msg_id := n; author_bot := true;
     embeds := match prepare_issue_embed w issue with
               | Ok e => [e]
               | Raise _ => []
               end;
     components := match prepare_issue_view issue with
                   | Ok v => rows_of_view v
                   | Raise _ => []
                   end;
     attachments := match discord_file w issue with
                    | Some f => [f]
                    | None => []
                    end |}.

Fixpoint reposts (w : World) (n : N) (l : list Issue) : list Message :=
  match l with
  | [] => []
  | x :: l' => repost w n x :: reposts w (N.succ n) l'
  end.

(** The world [reindex_one issue] leaves behind when it returns. *)
Definition reindex_step (w : World) (issue : Issue) : World :=
  with_issues
    (with_sent w
       (without (message_id issue) (channel w)
          ++ [repost w (next_msg w) issue])
       (N.succ (next_msg w)) (tail (send_faults w)))
    (replace_by_name (set_message_id issue (next_msg w)) (issues w)).

(** The world the whole loop of [do_reindex] leaves behind. *)
Definition reindexed (w : World) : World :=
  fold_left reindex_step (issues w) w.

(** The ids on record are older than the ids still to be given out. *)
Definition ids_in_the_past (w : World) : Prop :=
  Forall (fun i => (message_id i < next_msg w)%N) (issues w)
  /\ Forall (fun id => (id < next_msg w)%N) (old_list w)
  /\ Forall (fun m => (msg_id m < next_msg w)%N) (channel w).

(** ** Import *)

Definition buttons_of (rows : list (list Component)) : list (pystr * pystr) :=
  flat_map (fun ar =>
    flat_map (fun btn =>
      match btn with
      | CButton b => [(label b, url b)]
      | COther => []
      end) ar) rows.

(** The body of the scan.  [get_discord_file_from_url] returns [None]
    whenever it returns, so the image field of the new issue stays empty:
    [iss.image or MISSING] is [MISSING] and the issue is posted and stored
    without image. *)
Definition import_one (message : Message) : M unit :=
  if negb (author_bot message) then ret tt else
  match embeds message with
  | [] => ret tt
  | embed :: _ =>
    match footer_text embed with
    | None => ret tt
    | Some [] => ret tt
    | Some ft =>
      if negb (startswith ft (u "Submitted by")) then ret tt
      else if startswith ft (u "Submitted by") then
        (match image_url embed with
         | Some (c :: link) => get_discord_file_from_url (c :: link) ;; ret tt
         | _ => ret tt
         end) ;;
        let* riss := get_issue (title embed) in
        let* c := lift (match embed_color embed with
                        | Some v => Ok v
                        | None => Raise AttributeError
                        end) in
        let iss := {| name := title embed;
                      content := description embed;
                      added_date := timestamp embed;
                      added_by_id := 0;
                      added_by_tag :=
                        join (u " ") (drop 2 (split_on 32 [] ft));
                      image := None;
                      button_links := buttons_of (components message);
                      color := Some c;
                      panic_string := [];
                      message_id := 0 |} in
        let* w := get_world in
        let* e := lift (prepare_issue_embed w iss) in
        let* v := lift (prepare_issue_view iss) in
        let* msg := channel_send None e v in
        let iss := set_message_id iss (msg_id msg) in
        (match riss with
         | Some _ => edit_issue iss
         | None => add_issue iss
         end) ;;
        delete_message message
      else if startswith (title embed) (u "Table of") then
        delete_message message
      else ret tt
    end
  end.

(** [channel.history(limit=None, oldest_first=True)] is the sequence of
    the messages in the channel when the scan starts. *)
Definition do_import : M pystr :=
  let* w := get_world in
  for_each (channel w) import_one ;;
  refresh_common_issues ;;
  ret (u "Imported all embeds as common issues!").

(** ** The [add] and [edit] commands *)

Definition image_types : list pystr :=
  [u "image/png"; u "image/jpeg"; u "image/gif"; u "image/webp"].

(** [content_type in image_types] *)
Definition is_image_type (ct : option pystr) : bool :=
  match ct with
  | Some s => existsb (str_eqb s) image_types
  | None => false
  end.

(** [s or ''] *)
Definition or_empty (s : option pystr) : pystr :=
  match s with
  | Some x => x
  | None => []
  end.

(** What [add] and [edit] assign to [issue.color]: an [int], or the
    [Colour] object of that value. *)
Inductive Assigned :=
| IntValue (v : Z)
| ColourObject (v : Z).

Definition assigned_value (c : Assigned) : Z :=
  match c with
  | IntValue v => v
  | ColourObject v => v
  end.

(** [Color.from_str(color) if color else hash_color(name).value]:
    [Color.from_str] returns a [Colour], [.value] an [int]. *)
Definition pick_color (n : pystr) (c : option pystr) : Res Assigned :=
  match c with
  | Some (x :: s) =>
    match Color_from_str (x :: s) with
    | Some v => Ok (ColourObject v)
    | None => Raise ValueError
    end
  | _ => Ok (IntValue (hash_color n))
  end.

(** [prepare_issue_embed(issue)] on the issue object whose [color] has
    just been assigned [c]: [Color(issue.color)] rejects what is not an
    [int], a [Colour] object included. *)
Definition prepare_assigned_embed (c : Assigned) (w : World) (issue : Issue)
  : Res Embed :=
  match c with
  | IntValue _ => prepare_issue_embed w issue
  | ColourObject _ => Raise TypeError
  end.

(** What the invoker is shown when a command returns. *)
Inductive Reply :=
| Followup (text : pystr)
| Silent.

(** [IssuesGroup.add].  [modal] is [modal.issue] once the modal has been
    waited for: the issue the invoker submitted, or [None].  The record
    that goes to the store holds the colour as its integer (section 4.1
    of the spec); the issue object at hand holds what was assigned, and
    is rendered once more for the follow-up. *)
Definition add (n : pystr) (img : option Attachment)
    (panic_keyword color_arg : option pystr) (modal : option Issue)
  : M Reply :=
  let* riss := get_issue n in
  match riss with
  | Some _ => raise (BadArgument (u "Issue with that name already exists."))
  | None =>
    (match img with
     | Some a =>
       if negb (is_image_type (att_content_type a))
       then raise (BadArgument (u "Attached file was not an image!"))
       else if 8000000 <? att_size a
       then raise (BadArgument (u "That image is too big!"))
       else ret tt
     | None => ret tt
     end) ;;
    match modal with
    | None => ret Silent
    | Some issue =>
      let* issue := match img with
                    | Some a => image_put issue (att_data a) (att_content_type a)
                    | None => ret issue
                    end in
      let* ci_msg := post_issue issue in
      let issue := set_message_id issue (msg_id ci_msg) in
      let* c := lift (pick_color n color_arg) in
      let issue := set_panic_color issue (or_empty panic_keyword)
                     (Some (assigned_value c)) in
      add_issue issue ;;
      refresh_common_issues ;;
      let* w := get_world in
      lift (prepare_assigned_embed c w issue) ;;
      lift (prepare_issue_view issue) ;;
      ret (Followup (u "Added new issue!"))
    end
  end.

(** [IssuesGroup.edit].  [modal issue] is [modal.issue] when the modal
    reports [edited], and [None] otherwise; [send_error] has no parameter
    [ephemeral], so the call made for a cancelled modal raises
    [TypeError].  The follow-up renders the embed and the view of the
    message once more. *)
Definition edit (n : pystr) (img : option Attachment)
    (panic_keyword color_arg : option pystr) (modal : Issue -> option Issue)
  : M Reply :=
  let* riss := get_issue n in
  match riss with
  | None => raise (BadArgument (u "That issue does not exist."))
  | Some issue =>
    let* issue := match img with
                  | Some a =>
                    if 8000000 <? att_size a
                    then raise (BadArgument (u "That image is too big!"))
                    else image_replace issue (att_data a) (att_content_type a)
                  | None => image_delete issue
                  end in
    match modal issue with
    | None => raise TypeError
    | Some issue =>
      let* w := get_world in
      let file := discord_file w issue in
      let* c := lift (pick_color n color_arg) in
      let issue := set_panic_color issue (or_empty panic_keyword)
                     (Some (assigned_value c)) in
      edit_issue issue ;;
      let* ci_msg := fetch_message (message_id issue) in
      let* w := get_world in
      let* e := lift (prepare_assigned_embed c w issue) in
      let* v := lift (prepare_issue_view issue) in
      edit_message ci_msg (match file with Some f => [f] | None => [] end)
                   e v ;;
      ret (Followup (u "Edited issue!"))
    end
  end.

(** ** The [delete] command *)

(** Modelled from the spec: [guild_service.remove_issue] is not among the
    sources.  Section 4.1 gives [remove(name)]: the records of that name
    leave the store. *)
Definition remove_issue (n : pystr) : M unit :=
  fun w =>
    (Ok tt,
     with_issues w (List.filter (fun i => negb (str_eqb (name i) n)) (issues w))).

(** [IssuesGroup.delete]; the value returned is the text of the success
    embed.  [issue.image is not None] holds of every issue. *)
Definition issues_delete (n : pystr) : M pystr :=
  let* riss := get_issue n in
  match riss with
  | None => raise (BadArgument (u "That issue does not exist."))
  | Some issue =>
    let* issue := image_delete issue in
    let* ci_msg := fetch_message (message_id issue) in
    delete_message ci_msg ;;
    remove_issue n ;;
    refresh_common_issues ;;
    ret (u "Deleted issue `" ++ name issue ++ u "`.")
  end.

(** ** The command error handler of [__main__] *)

Inductive Shown :=
| TookTooLong                  (* the apology sent to the channel *)
| UserError (e : exn)          (* [send_error(interaction, error)] *)
| Traceback (e : exn).         (* the truncated traceback *)

Definition app_command_error (e : exn) : Shown :=
  match e with
  | NotFound => TookTooLong
  | BadArgument _ => UserError e
  | _ => Traceback e
  end.

(** [l[-k:]] for a positive [k]. *)
Definition lastn {A} (k : nat) (l : list A) : list A :=
  drop (length l - k) l.

(** The traceback as [app_command_error] shows it: the last 8 lines when
    there are more, then the last 1000 characters behind an ellipsis when
    that is still longer. *)
Definition format_traceback (tb : pystr) : pystr :=
  let tb := if (8 <? length (split_on 10 [] tb))%nat
            then join [10%N] (lastn 8 (split_on 10 [] tb))
            else tb in
  if 1000 <? len tb then u "..." ++ [10%N] ++ lastn 1000 tb else tb.

(** The description of the error embed, [error] being [str(error)]. *)
Definition error_report (error tb : pystr) : pystr :=
  u "`" ++ error ++ u "`" ++ [10%N] ++ u "```" ++ format_traceback tb
    ++ u "```".

(** ** [utils.utils] *)

(** The digits [s], least significant first, with a comma after every
    third of them that has a successor; [k] digits of the current group are
    out already. *)
Fixpoint sep3 (k : nat) (s : pystr) : pystr :=
  match s with
  | [] => []
  | c :: s' =>
    match k with
    | 3%nat => 44%N :: c :: sep3 1 s'
    | _ => c :: sep3 (S k) s'
    end
  end.

(** [format_number]: [f"{number:,}"]. *)
Definition format_number (number : Z) : pystr :=
  (if number <? 0 then [45%N] else [])
    ++ rev (sep3 0 (rev (dec (Z.abs_N number)))).

(** [discord.AuditLogEntry], restricted to what is read. *)
Record AuditLogEntry := {
  entry_id : N;
  entry_action : N;
  created_at : Z
}.

(** [list.sort(key=lambda x: x.created_at, reverse=True)]: newest first,
    entries of the same date in their former order. *)
Fixpoint insert_newest (x : AuditLogEntry) (l : list AuditLogEntry)
  : list AuditLogEntry :=
  match l with
  | [] => [x]
  | y :: l' => if created_at x <? created_at y then y :: insert_newest x l'
               else x :: y :: l'
  end.

Definition sort_newest (l : list AuditLogEntry) : list AuditLogEntry :=
  fold_right insert_newest [] l.

(** [audit_logs_multi]; [audit_logs limit action after] is what the audit
    log of the guild yields for one action. *)
Definition audit_logs_multi
    (audit_logs : Z -> N -> Z -> list AuditLogEntry)
    (actions : list N) (limit after : Z) : list AuditLogEntry :=
  sort_newest (flat_map (fun action => audit_logs limit action after) actions).

(** ** Observations used in the statements below *)

(** An issue renders when it has a colour and at most 25 button links:
    [prepare_issue_embed] and [prepare_issue_view] then return for it. *)
Definition renders (i : Issue) : Prop :=
  color i <> None /\ (length (button_links i) <= 25)%nat.

(** The image of the embed [e], if it has one, is requested and the
    request is answered with a status other than 200. *)
Definition image_not_served (w : World) (e : Embed) : Prop :=
  forall l, image_url e = Some l -> l <> [] ->
    exists status body, http w l = HttpBody status body /\ status <> 200.

(** Every link button of the message has a label.  A button sent without
    one reads back with the label [None], which the pattern search of
    [prepare_issue_view] rejects; the messages of the model have no such
    value, an empty label standing for it. *)
Definition labelled (m : Message) : Prop :=
  Forall (fun p => fst p <> []) (buttons_of (components m)).

(** The text made of the given pieces, one after the other. *)
Definition joined (g : list pystr) : pystr := List.concat g.

(** The title of a message's first embed. *)
Definition page_title (m : Message) : pystr :=
  match embeds m with
  | e :: _ => title e
  | [] => []
  end.

(** A computation posts fresh messages when all it does to the channel
    is append messages whose ids were still to be given out, whether it
    returns or raises. *)
Definition posts_fresh {A} (c : M A) : Prop :=
  forall w, exists extra,
    channel (snd (c w)) = channel w ++ extra
    /\ Forall (fun m => (next_msg w <= msg_id m)%N) extra
    /\ (next_msg w <= next_msg (snd (c w)))%N.

(** A label without "<" and without supplementary character. *)
Definition plain (lbl : pystr) : Prop :=
  Forall (fun c => c <> 60%N /\ (c < 0x10000)%N) lbl.

(** The messages the import converts: sent by a bot, with a first embed
    whose footer starts with "Submitted by". *)
Definition qualifies (m : Message) : bool :=
  author_bot m &&
  match embeds m with
  | e :: _ => match footer_text e with
              | Some ft => startswith ft (u "Submitted by")
              | None => false
              end
  | [] => false
  end.

(** The issue [import_one] makes of a message whose first embed is [e],
    of colour [c], once it is posted under the id [n]. *)
Definition imported (message : Message) (e : Embed) (c : Z) (n : N) : Issue :=
  {| name := title e;
     content := description e;
     added_date := timestamp e;
     added_by_id := 0;
     added_by_tag :=
       match footer_text e with
       | Some ft => join (u " ") (drop 2 (split_on 32 [] ft))
       | None => []
       end;
     image := None;
     button_links := buttons_of (components message);
     color := Some c;
     panic_string := [];
     message_id := n |}.

(** The result is not a [BadArgument]. *)
Definition not_bad {A} (r : Res A) : Prop :=
  forall msg, r <> Raise (BadArgument msg).

(** A computation that never raises [BadArgument]. *)
Definition never_bad {A} (c : M A) : Prop :=
  forall w, not_bad (fst (c w)).

(** The world in which [add] posts the issue: the attachment, if any, is
    in the bucket. *)
Definition add_put_world (img : option Attachment) (w : World) : World :=
  match img with
  | Some a =>
    with_gridfs w
      (<[next_grid w := {| blob_data := att_data a;
                           blob_content_type := att_content_type a |}]>
         (gridfs w))
      (N.succ (next_grid w))
  | None => w
  end.

Definition add_put_issue (img : option Attachment) (w : World) (sub : Issue)
  : Issue :=
  match img with
  | Some _ => set_image sub (Some (next_grid w))
  | None => sub
  end.

(** What [edit] does to the image before the modal is shown, the size
    check apart. *)
Definition edit_image (img : option Attachment) (issue : Issue) : M Issue :=
  match img with
  | Some a => image_replace issue (att_data a) (att_content_type a)
  | None => image_delete issue
  end.

(** The world [issue.image.delete()] leaves. *)
Definition image_deleted (w : World) (issue : Issue) : World :=
  match image issue with
  | Some g => with_gridfs w (delete g (gridfs w)) (next_grid w)
  | None => w
  end.

(** The number of occurrences of [c] in [s]. *)
Definition occurrences (c : N) (s : pystr) : nat :=
  length (List.filter (N.eqb c) s).

(** ** Sample data

    Instances of the platform tables and small worlds, used to run the
    definitions above on concrete inputs. *)

Definition ascii_digit (c : N) : bool := ((48 <=? c) && (c <=? 57))%N.

Definition name_length_hash (s : pystr) : Z := 1 + len s.

Definition no_color (s : pystr) : option Z := None.

Definition no_http (link : pystr) : HttpResp := HttpFailure.

Definition sample_issue (n : pystr) (c : option Z) (g : option N) (m : N)
  : Issue :=
  {| name := n; content := u "Restart the device."; added_date := Some 0;
     added_by_id := 7; added_by_tag := u "helper#0001"; image := g;
     button_links := []; color := c; panic_string := []; message_id := m |}.

Definition sample_world (l : list Issue) (bucket : gmap N Blob)
    (c : list Message) (n : N) (faults : list bool) : World :=
  {| guild_id := 1; channel_common_issues := 2; issues := l;
     issues_list_msg := None; gridfs := bucket; next_grid := 10;
     channel := c; next_msg := n; send_faults := faults; http := no_http |}.

(** The embed of an issue post, as the presenter makes it. *)
Definition posted_embed (n : pystr) : Embed :=
  {| title := n; description := u "Restart the device.";
     timestamp := Some 0; embed_color := Some 5;
     footer_text := Some (u "Submitted by helper#0001");
     image_url := None |}.

(** A page of a table of contents posted earlier. *)
Definition toc_page : Message :=
  bot_message 100
    (toc_embed (u "Table of Contents")
       (u "1. [wifi](https://discord.com/channels/1/2/99)" ++ [10%N]) 1).

Definition text_attachment : Attachment :=
  {| att_content_type := Some (u "text/plain"); att_size := 2;
     att_data := [104%N; 105%N] |}.

Definition empty_world : World := sample_world [] ∅ [] 100 [].

(** One issue named "wifi", shown by message 100, no image. *)
Definition wifi_world : World :=
  sample_world [sample_issue (u "wifi") (Some 5) None 100] ∅
    [bot_message 100 (posted_embed (u "wifi"))]
    101 [].

(** A channel that holds one page of an earlier table of contents. *)
Definition toc_world : World := sample_world [] ∅ [toc_page] 101 [].

(** 500 issues whose names have 10 characters, "issue10000" to
    "issue10499", in a channel that holds none of their messages. *)
Definition numbered_issue (k : nat) : Issue :=
  sample_issue (u "issue" ++ dec (10000 + N.of_nat k)) (Some 5) None
    (1000 + N.of_nat k).

Definition big_world : World :=
  sample_world (map numbered_issue (seq 0 500)) ∅ [] 5000 [].

(** Two issues; the message of the first is in the channel, the message
    of the second is gone. *)
Definition two_issues : list Issue :=
  [sample_issue (u "wifi") (Some 5) None 100;
   sample_issue (u "vpn") (Some 7) None 101].

Definition reindex_world : World :=
  sample_world two_issues ∅
    [bot_message 100 (posted_embed (u "wifi"))]
    200 [].


(** One issue with a stored image. *)
Definition image_world : World :=
  sample_world [sample_issue (u "wifi") (Some 5) (Some 3%N) 100]
    (<[3%N := {| blob_data := [137%N; 80%N; 78%N; 71%N];
                 blob_content_type := Some (u "image/png") |}]> ∅)
    [bot_message 100 (posted_embed (u "wifi"))]
    101 [].

(** A channel with a message of the old bot whose send will fail. *)
Definition legacy_message : Message :=
  bot_message 99 (posted_embed (u "wifi")).



(** A platform that answers every request with status 404. *)
Definition http_404 (link : pystr) : HttpResp := HttpBody 404 [].

(** The embed of the post of an issue with an image. *)
Definition posted_image_embed (n : pystr) : Embed :=
  {| title := n; description := u "Restart the device.";
     timestamp := Some 0; embed_color := Some 5;
     footer_text := Some (u "Submitted by helper#0001");
     image_url := Some (u "attachment://image.png") |}.

Definition image_post : Message :=
  bot_message 100 (posted_image_embed (u "wifi")).

Definition png_attachment : Attachment :=
  {| att_content_type := Some (u "image/png"); att_size := 4;
     att_data := [137%N; 80%N; 78%N; 71%N] |}.

(** One issue shown by message 99, and one page of the table of contents,
    message 100, on record in the guild document. *)
Definition listed_world : World :=
  with_issues_list_msg
    (sample_world [sample_issue (u "wifi") (Some 5) None 99] ∅
       [legacy_message; toc_page] 101 [])
    (Some [100%N]).

(** The same, on a platform that fails the first send. *)
Definition faulty_listed_world : World :=
  with_sent listed_world (channel listed_world) (next_msg listed_world) [true].

(** A channel with the post of an issue with an image, on a platform
    that does not serve the image. *)
Definition import_world : World :=
  {| guild_id := 1; channel_common_issues := 2; issues := [];
     issues_list_msg := None; gridfs := ∅; next_grid := 10;
     channel := [image_post]; next_msg := 101; send_faults := [];
     http := http_404 |}.

(** A message of the old bot with an image, between a page of a table of
    contents and another message of the old bot. *)
Definition legacy_image_message : Message :=
  bot_message 101
    {| title := u "vpn"; description := u "Restart the device.";
       timestamp := Some 0; embed_color := Some 5;
       footer_text := Some (u "Submitted by helper#0001");
       image_url := Some (u "https://cdn.example.org/vpn.png") |}.

Definition legacy_image_world : World :=
  sample_world [] ∅
    [toc_page; legacy_image_message; bot_message 102 (posted_embed (u "wifi"))]
    103 [].

(** A platform that serves every request with status 200. *)
Definition http_png (link : pystr) : HttpResp :=
  HttpBody 200 [137%N; 80%N; 78%N; 71%N].

(** The same channel, on a platform that serves the image. *)
Definition served_image_world : World :=
  {| guild_id := 1; channel_common_issues := 2; issues := [];
     issues_list_msg := None; gridfs := ∅; next_grid := 10;
     channel := channel legacy_image_world; next_msg := 103;
     send_faults := []; http := http_png |}.

(** ** Basic facts *)

Lemma str_eqb_eq (a b : pystr) : str_eqb a b = true <-> a = b.
Proof.
  revert b. induction a as [|x a IH]; intros [|y b]; simpl; split;
    try congruence; try discriminate.
  - intros H. apply andb_true_iff in H as [H1 H2].
    apply N.eqb_eq in H1. apply IH in H2. congruence.
  - intros H. injection H as -> ->.
    rewrite N.eqb_refl. simpl. now apply IH.
Qed.

Lemma str_eqb_refl (a : pystr) : str_eqb a a = true.
Proof. now apply str_eqb_eq. Qed.

Lemma str_eqb_neq (a b : pystr) : a <> b -> str_eqb a b = false.
Proof.
  intros H. destruct (str_eqb a b) eqn:E; [|reflexivity].
  apply str_eqb_eq in E. contradiction.
Qed.

Lemma keeps_ret {A B} (f : World -> B) (a : A) : keeps f (ret a).
Proof. intros w. reflexivity. Qed.

Lemma keeps_raise {A B} (f : World -> B) (e : exn) : keeps f (@raise A e).
Proof. intros w. reflexivity. Qed.

Lemma keeps_lift {A B} (f : World -> B) (r : Res A) : keeps f (lift r).
Proof. intros w. reflexivity. Qed.

Lemma keeps_get_world {B} (f : World -> B) : keeps f get_world.
Proof. intros w. reflexivity. Qed.

Lemma keeps_bind {A B C} (f : World -> C) (c : M A) (k : A -> M B) :
  keeps f c -> (forall a, keeps f (k a)) -> keeps f (bind c k).
Proof.
  intros Hc Hk w. unfold bind. specialize (Hc w).
  destruct (c w) as [[a|e] w']; simpl in *.
  - rewrite Hk. exact Hc.
  - exact Hc.
Qed.

Lemma keeps_try_pass {B} (f : World -> B) (c : M unit) :
  keeps f c -> keeps f (try_pass c).
Proof.
  intros Hc w. unfold try_pass. specialize (Hc w).
  destruct (c w) as [[a|e] w']; exact Hc.
Qed.

Lemma keeps_for_each {A B} (f : World -> B) (l : list A) (body : A -> M unit) :
  (forall x, keeps f (body x)) -> keeps f (for_each l body).
Proof.
  intros Hb. induction l as [|x l IH]; simpl.
  - apply keeps_ret.
  - apply keeps_bind; [apply Hb | intros _; exact IH].
Qed.

Lemma keeps_channel_send {B} (f : World -> B) file e v :
  (forall w c n fl, f (with_sent w c n fl) = f w) ->
  keeps f (channel_send file e v).
Proof.
  intros Hf w. unfold channel_send.
  destruct (send_faults w) as [|[] fl]; simpl; apply Hf.
Qed.

Lemma keeps_fetch_message {B} (f : World -> B) id : keeps f (fetch_message id).
Proof.
  intros w. unfold fetch_message.
  destruct (List.find _ _); reflexivity.
Qed.

Lemma keeps_delete_message {B} (f : World -> B) m :
  (forall w c, f (with_channel w c) = f w) -> keeps f (delete_message m).
Proof.
  intros Hf w. unfold delete_message.
  destruct (existsb _ _); simpl; [apply Hf | reflexivity].
Qed.

Lemma keeps_edit_message {B} (f : World -> B) m a e v :
  (forall w c, f (with_channel w c) = f w) -> keeps f (edit_message m a e v).
Proof.
  intros Hf w. unfold edit_message.
  destruct (existsb _ _); simpl; [apply Hf | reflexivity].
Qed.

Lemma keeps_toc_loop {B} (f : World -> B) line i l st :
  (forall w c n fl, f (with_sent w c n fl) = f w) ->
  keeps f (toc_loop line i l st).
Proof.
  intros Hf. revert i st. induction l as [|x l IH]; intros i st; simpl.
  - apply keeps_ret.
  - destruct (3072 <? _).
    + apply keeps_bind; [now apply keeps_channel_send | intros m; apply IH].
    + apply IH.
Qed.

Lemma keeps_delete_old_list {B} (f : World -> B) :
  (forall w c, f (with_channel w c) = f w) -> keeps f delete_old_list.
Proof.
  intros Hf. unfold delete_old_list.
  apply keeps_bind; [apply keeps_get_world|]. intros w0.
  destruct (issues_list_msg w0); [|apply keeps_ret].
  apply keeps_for_each. intros id. apply keeps_try_pass.
  apply keeps_bind; [apply keeps_fetch_message|].
  intros m. now apply keeps_delete_message.
Qed.

(** The index rebuild touches the channel and the list of page ids, and
    nothing else: in particular neither the issues nor the image bucket. *)
Lemma keeps_refresh {B} (f : World -> B) :
  (forall w c, f (with_channel w c) = f w) ->
  (forall w c n fl, f (with_sent w c n fl) = f w) ->
  (forall w l, f (with_issues_list_msg w l) = f w) ->
  keeps f refresh_common_issues.
Proof.
  intros H1 H2 H3. unfold refresh_common_issues.
  apply keeps_bind; [now apply keeps_delete_old_list|]. intros _.
  apply keeps_bind; [apply keeps_get_world|]. intros w0.
  apply keeps_bind; [now apply keeps_toc_loop|]. intros st.
  destruct (0 <? _).
  - apply keeps_bind; [now apply keeps_channel_send|].
    intros m w. apply H3.
  - intros w. apply H3.
Qed.

Lemma refresh_issues (w : World) :
  issues (snd (refresh_common_issues w)) = issues w.
Proof. apply (keeps_refresh issues); reflexivity. Qed.

Lemma refresh_gridfs (w : World) :
  gridfs (snd (refresh_common_issues w)) = gridfs w.
Proof. apply (keeps_refresh gridfs); reflexivity. Qed.

Lemma post_issue_issues (i : Issue) (w : World) :
  issues (snd (post_issue i w)) = issues w.
Proof.
  revert w. change (keeps issues (post_issue i)). unfold post_issue.
  apply keeps_bind; [apply keeps_get_world|]. intros w0.
  apply keeps_bind; [apply keeps_lift|]. intros e.
  apply keeps_bind; [apply keeps_lift|]. intros v.
  now apply keeps_channel_send.
Qed.

Lemma find_none_filter (n : pystr) (l : list Issue) :
  List.find (fun i => str_eqb (name i) n) l = None ->
  List.filter (fun i => str_eqb (name i) n) l = [].
Proof.
  induction l as [|x l IH]; simpl; [reflexivity|].
  destruct (str_eqb (name x) n); [discriminate | exact IH].
Qed.

(** Runs the first computation of a sequence that is known to return. *)
Tactic Notation "bind_step" hyp(H) "as" ident(x) ident(w') ident(E) :=
  unfold bind at 1 in H;
  match type of H with
  | (match ?c with _ => _ end) = _ =>
    destruct c as [[x|?] w'] eqn:E; [|discriminate H]
  end.

(** ** The presenter's colour *)

(** C6 (amended).  For every issue whose colour field holds an integer
    [c], the rendered embed's colour is [c] when [c] is not zero, and the
    colour derived from hashing the issue's name when [c] is zero: a zero
    colour counts as absent. *)
Theorem prepare_issue_embed_color (w : World) (issue : Issue) (c : Z) :
  color issue = Some c ->
  exists e, prepare_issue_embed w issue = Ok e /\
    (c <> 0 -> embed_color e = Some c) /\
    (c = 0 -> embed_color e = Some (hash_color (name issue))).
Proof.
  intros Hc. unfold prepare_issue_embed. rewrite Hc. simpl.
  eexists. split; [reflexivity|]. simpl. split; intros H.
  - apply Z.eqb_neq in H. now rewrite H.
  - now subst c.
Qed.

(** An issue whose colour was never assigned does not render:
    [discord.Color] refuses [None]. *)
Lemma prepare_issue_embed_unset_color (w : World) (issue : Issue) :
  color issue = None -> prepare_issue_embed w issue = Raise TypeError.
Proof. intros Hc. unfold prepare_issue_embed. now rewrite Hc. Qed.

(** ** The [add] command *)

(** A call of [add] that goes through with a submitted modal appends one
    record to a store that had none of that name. *)
Lemma add_stores (n : pystr) img pk col (submitted : Issue) (w w1 : World)
    (r : Reply) :
  add n img pk col (Some submitted) w = (Ok r, w1) ->
  List.find (fun i => str_eqb (name i) n) (issues w) = None /\
  exists g m p c,
    issues w1 = issues w ++
      [set_panic_color (set_message_id (set_image submitted g) m) p c].
Proof.
  unfold add, bind at 1, get_issue.
  destruct (List.find _ (issues w)) eqn:Hfind; [discriminate|].
  intros H. split; [reflexivity|].
  bind_step H as t0 w0 Hchk.
  assert (Hw0 : issues w0 = issues w).
  { destruct img as [a|]; [|unfold ret in Hchk; congruence].
    destruct (negb _); [discriminate|].
    destruct (8000000 <? _); [discriminate|].
    unfold ret in Hchk; congruence. }
  clear Hchk. bind_step H as i w2 Hput.
  assert (Hi1 : issues w2 = issues w0 /\ exists g, i = set_image submitted g).
  { destruct img as [a0|].
    - unfold image_put in Hput. destruct (image submitted); [discriminate|].
      injection Hput as <- <-. split; [reflexivity|]. now eexists.
    - unfold ret in Hput. injection Hput as <- <-. split; [reflexivity|].
      exists (image submitted). now destruct submitted. }
  destruct Hi1 as [Hiss [g ->]]. clear Hput.
  bind_step H as m w3 Hpost.
  pose proof (post_issue_issues (set_image submitted g) w2) as Hw3.
  rewrite Hpost in Hw3. simpl in Hw3.
  bind_step H as z w3' Hcol. unfold lift in Hcol. injection Hcol as Hcol <-.
  bind_step H as t1 w3'' Hadd. unfold add_issue in Hadd.
  injection Hadd as _ <-.
  bind_step H as t2 w4 Href.
  match type of Href with refresh_common_issues ?x = _ =>
    pose proof (refresh_issues x) as R end.
  rewrite Href in R. simpl in R.
  exists g, (msg_id m), (or_empty pk), (Some (assigned_value z)).
  assert (w1 = w4) as ->.
  { unfold bind, get_world, lift, ret in H.
    destruct (prepare_assigned_embed z w4 _); [|discriminate].
    destruct (prepare_issue_view _); [|discriminate].
    now injection H. }
  rewrite R, Hw3, Hiss, Hw0. reflexivity.
Qed.

(** C7.  When a call of [add] has gone through for a name, the modal
    having been submitted with an issue of that name, a second call of
    [add] with that name, whatever its other arguments, raises
    [BadArgument] (which the error handler shows to the invoker as such,
    without traceback) and changes nothing; the store holds exactly one
    record of that name, the one of the first call. *)
Theorem add_twice_rejects_second (n : pystr) img1 pk1 col1 (submitted : Issue)
    img2 pk2 col2 modal2 (w w1 : World) (r : Reply) :
  name submitted = n ->
  add n img1 pk1 col1 (Some submitted) w = (Ok r, w1) ->
  add n img2 pk2 col2 modal2 w1
    = (Raise (BadArgument (u "Issue with that name already exists.")), w1)
  /\ app_command_error (BadArgument (u "Issue with that name already exists."))
     = UserError (BadArgument (u "Issue with that name already exists."))
  /\ exists record,
       List.filter (fun i => str_eqb (name i) n) (issues w1) = [record]
       /\ name record = n
       /\ content record = content submitted
       /\ added_by_tag record = added_by_tag submitted
       /\ button_links record = button_links submitted.
Proof.
  intros Hn Hadd. apply add_stores in Hadd as [Hnone (g & m & p & c & Hiss)].
  assert (Hfilter : List.filter (fun i => str_eqb (name i) n) (issues w1)
                    = [set_panic_color
                         (set_message_id (set_image submitted g) m) p c]).
  { rewrite Hiss, List.filter_app, (find_none_filter _ _ Hnone). simpl.
    rewrite Hn, str_eqb_refl. reflexivity. }
  split; [|split; [reflexivity|]].
  - unfold add, bind, get_issue.
    destruct (List.find _ (issues w1)) eqn:Hfind; [reflexivity|].
    apply find_none_filter in Hfind. rewrite Hfind in Hfilter. discriminate.
  - eexists. split; [exact Hfilter|]. simpl. auto.
Qed.

(** C9.  [add] turns down an attachment of content type text/plain and
    leaves the world as it was; [edit], given the same attachment for an
    existing issue, goes through and stores it as the issue's image with
    that content type. *)
Theorem edit_accepts_any_content_type :
  add (u "vpn") (Some text_attachment) None None
      (Some (sample_issue (u "vpn") (Some 5) None 0)) wifi_world
    = (Raise (BadArgument (u "Attached file was not an image!")), wifi_world)
  /\ fst (edit (u "wifi") (Some text_attachment) None None Some wifi_world)
     = Ok (Followup (u "Edited issue!"))
  /\ gridfs (snd (edit (u "wifi") (Some text_attachment) None None Some
                       wifi_world)) !! 10%N
     = Some {| blob_data := [104%N; 105%N];
               blob_content_type := Some (u "text/plain") |}
  /\ List.find (fun i => str_eqb (name i) (u "wifi"))
       (issues (snd (edit (u "wifi") (Some text_attachment) None None Some
                          wifi_world)))
     = Some (set_panic_color
               (sample_issue (u "wifi") (Some 5) (Some 10%N) 100) []
               (Some (hash_color (u "wifi")))).
Proof. vm_compute. auto. Qed.

(** ** The [edit] command *)

(** What [edit] does once the image has been dealt with leaves the bucket
    alone. *)
Lemma edit_rest_keeps_gridfs (n : pystr) (pk col : option pystr)
    (after_modal : option Issue) :
  keeps gridfs
    (match after_modal with
     | None => raise TypeError
     | Some issue =>
       let* w := get_world in
       let file := discord_file w issue in
       let* c := lift (pick_color n col) in
       let issue := set_panic_color issue (or_empty pk)
                      (Some (assigned_value c)) in
       edit_issue issue ;;
       let* ci_msg := fetch_message (message_id issue) in
       let* w := get_world in
       let* e := lift (prepare_assigned_embed c w issue) in
       let* v := lift (prepare_issue_view issue) in
       edit_message ci_msg (match file with Some f => [f] | None => [] end)
                    e v ;;
       ret (Followup (u "Edited issue!"))
     end).
Proof.
  destruct after_modal as [issue|]; [|apply keeps_raise].
  apply keeps_bind; [apply keeps_get_world|]. intros w0. simpl.
  apply keeps_bind; [apply keeps_lift|]. intros c.
  apply keeps_bind; [intros w; reflexivity|]. intros _.
  apply keeps_bind; [apply keeps_fetch_message|]. intros m.
  apply keeps_bind; [apply keeps_get_world|]. intros w1.
  apply keeps_bind; [apply keeps_lift|]. intros e.
  apply keeps_bind; [apply keeps_lift|]. intros v.
  apply keeps_bind; [now apply keeps_edit_message|]. intros _.
  apply keeps_ret.
Qed.

(** [edit] stores an attachment of any content type, provided it is not
    over the size limit. *)
Lemma edit_stores_attachment (n : pystr) (a : Attachment) pk col modal
    (w : World) (issue : Issue) :
  List.find (fun i => str_eqb (name i) n) (issues w) = Some issue ->
  att_size a <= 8000000 ->
  gridfs (snd (edit n (Some a) pk col modal w)) !! next_grid w
  = Some {| blob_data := att_data a; blob_content_type := att_content_type a |}.
Proof.
  intros Hfind Hsize. unfold edit, bind at 1, get_issue. rewrite Hfind.
  apply Z.ltb_ge in Hsize. rewrite Hsize.
  unfold bind at 1, image_replace, bind at 1, image_delete.
  destruct (image issue) as [g|] eqn:Hg; unfold image_put; simpl.
  - rewrite edit_rest_keeps_gridfs. simpl. apply lookup_insert_eq.
  - rewrite Hg. rewrite edit_rest_keeps_gridfs. simpl. apply lookup_insert_eq.
Qed.

(** C10.  For every existing issue with a stored image, [edit] called
    without an attachment removes the image blob from the bucket, whatever
    the other arguments and whether or not the modal is submitted: the
    issue's image then reads as absent. *)
Theorem edit_without_image_deletes_blob (n : pystr) (pk col : option pystr)
    (modal : Issue -> option Issue) (w : World) (issue : Issue) (g : N)
    (b : Blob) :
  List.find (fun i => str_eqb (name i) n) (issues w) = Some issue ->
  image issue = Some g ->
  gridfs w !! g = Some b ->
  image_read w issue = Some (blob_data b)
  /\ gridfs (snd (edit n None pk col modal w)) !! g = None
  /\ image_read (snd (edit n None pk col modal w)) issue = None.
Proof.
  intros Hfind Hg Hb.
  assert (Hdel : gridfs (snd (edit n None pk col modal w)) !! g = None).
  { unfold edit, bind at 1, get_issue. rewrite Hfind.
    unfold bind at 1, image_delete. rewrite Hg.
    rewrite edit_rest_keeps_gridfs. simpl. apply lookup_delete_eq. }
  unfold image_read. rewrite Hg, Hb, Hdel. auto.
Qed.

(** ** Import *)

(** A message whose footer does not start with "Submitted by" is passed
    over, whatever its title: the branch of [import_one] that deletes the
    pages of an old table of contents is never reached. *)
Lemma import_one_skips (m : Message) (e : Embed) (rest : list Embed)
    (ft : pystr) (w : World) :
  embeds m = e :: rest ->
  footer_text e = Some ft ->
  startswith ft (u "Submitted by") = false ->
  import_one m w = (Ok tt, w).
Proof.
  intros He Hf Hs. unfold import_one. rewrite He, Hf, Hs.
  destruct (author_bot m); simpl; [|reflexivity].
  destruct ft; reflexivity.
Qed.

(** C3.  Import run on a channel that holds one page of an old table of
    contents (title "Table of Contents", footer "Page 1"): the batch
    completes, the page is still in the channel and no issue was made. *)
Theorem do_import_keeps_toc_page :
  fst (do_import toc_world) = Ok (u "Imported all embeds as common issues!")
  /\ map title (embeds toc_page) = [u "Table of Contents"]
  /\ page_footer toc_page = Some (u "Page 1")
  /\ channel (snd (do_import toc_world)) = [toc_page]
  /\ issues (snd (do_import toc_world)) = [].
Proof. vm_compute. auto. Qed.

(** ** The matcher against the language of the pattern *)

Lemma plus_greedy_sound c s k res :
  plus_greedy c s k = Some res ->
  exists x a rest, s = (x :: a) ++ rest /\ cls_match c x = true /\
    Forall (fun y => cls_match c y = true) a /\ k rest = Some res.
Proof.
  revert res. induction s as [|x s IH]; intros res; simpl; [discriminate|].
  destruct (cls_match c x) eqn:Hx; [|discriminate].
  destruct (plus_greedy c s k) as [r|] eqn:Hg.
  - intros [= <-]. destruct (IH r eq_refl) as (y & a & rest & -> & Hy & Ha & Hk).
    exists x, (y :: a), rest. repeat split; auto.
  - intros Hk. exists x, [], s. repeat split; auto.
Qed.

Lemma plus_lazy_sound c s k res :
  plus_lazy c s k = Some res ->
  exists x a rest, s = (x :: a) ++ rest /\ cls_match c x = true /\
    Forall (fun y => cls_match c y = true) a /\ k rest = Some res.
Proof.
  revert res. induction s as [|x s IH]; intros res; simpl; [discriminate|].
  destruct (cls_match c x) eqn:Hx; [|discriminate].
  destruct (k s) as [r|] eqn:Hk.
  - intros [= <-]. exists x, [], s. repeat split; auto.
  - intros Hl. destruct (IH res Hl) as (y & a & rest & -> & Hy & Ha & Hk').
    exists x, (y :: a), rest. repeat split; auto.
Qed.

Lemma plus_greedy_complete c s k :
  plus_greedy c s k = None ->
  forall x a rest, s = (x :: a) ++ rest -> cls_match c x = true ->
    Forall (fun y => cls_match c y = true) a -> k rest = None.
Proof.
  induction s as [|y s IH]; simpl; intros H x a rest Hs Hx Ha; [discriminate|].
  injection Hs as -> ->. rewrite Hx in H.
  destruct (plus_greedy c (a ++ rest) k) eqn:Hg; [discriminate|].
  destruct a as [|z a]; [exact H|].
  inversion Ha; subst. eapply IH; eauto.
Qed.

Lemma plus_lazy_complete c s k :
  plus_lazy c s k = None ->
  forall x a rest, s = (x :: a) ++ rest -> cls_match c x = true ->
    Forall (fun y => cls_match c y = true) a -> k rest = None.
Proof.
  induction s as [|y s IH]; simpl; intros H x a rest Hs Hx Ha; [discriminate|].
  injection Hs as -> ->. rewrite Hx in H.
  destruct (k (a ++ rest)) eqn:Hk; [discriminate|].
  destruct a as [|z a]; [exact Hk|].
  inversion Ha; subst. eapply IH; eauto.
Qed.

(** Whatever [rmatch] finds is a text of the pattern followed by a text
    the continuation accepts. *)
Lemma rmatch_sound r : forall s k res,
  rmatch r s k = Some res ->
  exists m rest, s = m ++ rest /\ lang r m /\ k rest = Some res.
Proof.
  induction r as [c|r1 IH1 r2 IH2|r1 IH1 r2 IH2|c g]; intros s k res; simpl.
  - destruct s as [|x s]; [discriminate|].
    destruct (cls_match c x) eqn:Hx; [|discriminate].
    intros Hk. exists [x], s. repeat split; auto. now constructor.
  - intros H. apply IH1 in H as (a & s1 & -> & Ha & H).
    apply IH2 in H as (b & rest & -> & Hb & Hk).
    exists (a ++ b), rest. rewrite <- app_assoc. repeat split; auto.
    now constructor.
  - destruct (rmatch r1 s k) as [x|] eqn:H1.
    + intros [= <-]. apply IH1 in H1 as (m & rest & -> & Hm & Hk).
      exists m, rest. repeat split; auto. now apply lang_alt_l.
    + intros H. apply IH2 in H as (m & rest & -> & Hm & Hk).
      exists m, rest. repeat split; auto. now apply lang_alt_r.
  - intros H.
    assert (exists x a rest, s = (x :: a) ++ rest /\ cls_match c x = true /\
              Forall (fun y => cls_match c y = true) a /\ k rest = Some res)
      as (x & a & rest & -> & Hx & Ha & Hk).
    { destruct g; [now apply plus_greedy_sound | now apply plus_lazy_sound]. }
    exists (x :: a), rest. repeat split; auto. now constructor.
Qed.

(** When [rmatch] fails, the continuation refuses what follows every text
    of the pattern at the start of the input. *)
Lemma rmatch_complete r : forall s k,
  rmatch r s k = None ->
  forall m rest, s = m ++ rest -> lang r m -> k rest = None.
Proof.
  induction r as [c|r1 IH1 r2 IH2|r1 IH1 r2 IH2|c g]; intros s k H m rest Hs Hm;
    simpl in H; inversion Hm; subst.
  - simpl in H. match goal with Hc : cls_match _ _ = true |- _ => rewrite Hc in H end.
    exact H.
  - rewrite <- app_assoc in H.
    eapply IH2; [|reflexivity|eassumption].
    exact (IH1 _ _ H a (b ++ rest) eq_refl ltac:(assumption)).
  - destruct (rmatch r1 (m ++ rest) k) eqn:H1; [discriminate|].
    eapply IH1; eauto.
  - destruct (rmatch r1 (m ++ rest) k) eqn:H1; [discriminate|].
    eapply IH2; eauto.
  - destruct g.
    + eapply plus_greedy_complete; eauto.
    + eapply plus_lazy_complete; eauto.
Qed.

Lemma re_search_unfold r s :
  re_search r s =
  match rmatch r s Some with
  | Some rest => Some (take (length s - length rest) s)
  | None => match s with [] => None | _ :: s' => re_search r s' end
  end.
Proof. destruct s; reflexivity. Qed.

(** [re_search] returns the leftmost text of the pattern: it occurs in the
    input and no text of the pattern starts before it. *)
Lemma re_search_some r s tok :
  re_search r s = Some tok ->
  exists pre post, s = pre ++ tok ++ post /\ lang r tok /\
    forall p1 p2 m rest, pre = p1 ++ p2 -> p2 <> [] ->
      p2 ++ tok ++ post = m ++ rest -> ~ lang r m.
Proof.
  revert tok. induction s as [|x s IH]; intros tok; rewrite re_search_unfold.
  - destruct (rmatch r [] Some) as [rest|] eqn:H; [|discriminate].
    intros [= <-]. apply rmatch_sound in H as (m & rest' & Hs & Hm & [= ->]).
    symmetry in Hs. apply app_eq_nil in Hs as [-> ->]. simpl.
    exists [], []. repeat split; auto.
    intros p1 p2 m rest Hp. symmetry in Hp. apply app_eq_nil in Hp as [_ ->].
    congruence.
  - destruct (rmatch r (x :: s) Some) as [rest|] eqn:H.
    + intros [= <-]. apply rmatch_sound in H as (m & rest' & Hs & Hm & [= ->]).
      assert (Hlen : (S (length s) - length rest = length m)%nat).
      { pose proof (f_equal length Hs) as E. rewrite length_app in E.
        simpl in E. lia. }
      rewrite Hlen, Hs, take_app_length.
      exists [], rest. repeat split; auto.
      intros p1 p2 m' rest' Hp. symmetry in Hp. apply app_eq_nil in Hp as [_ ->].
      congruence.
    + intros Hs. apply IH in Hs as (pre & post & -> & Htok & Hleft).
      exists (x :: pre), post. repeat split; auto.
      intros p1 p2 m rest Hp Hp2 Heq Hm.
      destruct p1 as [|y p1]; simpl in Hp.
      * subst p2. simpl in Heq.
        pose proof (rmatch_complete r _ _ H m rest Heq Hm). discriminate.
      * injection Hp as -> ->. eapply Hleft; eauto.
Qed.

Lemma re_search_none r s :
  re_search r s = None ->
  forall pre m post, s = pre ++ m ++ post -> ~ lang r m.
Proof.
  induction s as [|x s IH]; rewrite re_search_unfold.
  - destruct (rmatch r [] Some) eqn:H; [discriminate|]. intros _ pre m post Hs Hm.
    symmetry in Hs. apply app_eq_nil in Hs as [-> Hs]. apply app_eq_nil in Hs as [-> ->].
    pose proof (rmatch_complete r _ _ H [] [] eq_refl Hm). discriminate.
  - destruct (rmatch r (x :: s) Some) eqn:H; [discriminate|].
    intros Hs pre m post Heq Hm. destruct pre as [|y pre]; simpl in Heq.
    + pose proof (rmatch_complete r _ _ H m post Heq Hm). discriminate.
    + injection Heq as -> ->. eapply IH; eauto.
Qed.

(** ** Button labels *)

Lemma supplementary_not_space (c : N) :
  (0x10000 <= c)%N -> py_isspace c = false.
Proof.
  intros H. unfold py_isspace.
  repeat match goal with
  | |- context [N.leb ?a ?b] => destruct (N.leb_spec a b); try lia
  | |- context [N.eqb ?a ?b] => destruct (N.eqb_spec a b); try lia
  end; reflexivity.
Qed.

Lemma lstrip_head (x : N) (s : pystr) :
  py_isspace x = false -> lstrip (x :: s) = x :: s.
Proof. intros H. simpl. now rewrite H. Qed.

Lemma strip_ends (x z : N) (mid : pystr) :
  py_isspace x = false -> py_isspace z = false ->
  strip (x :: mid ++ [z]) = x :: mid ++ [z].
Proof.
  intros Hx Hz. unfold strip. rewrite (lstrip_head x _ Hx).
  rewrite app_comm_cons, rev_unit, (lstrip_head z _ Hz).
  change (rev (z :: rev (x :: mid))) with (rev (rev (x :: mid)) ++ [z]).
  now rewrite rev_involutive.
Qed.

Lemma strip_single (c : N) : py_isspace c = false -> strip [c] = [c].
Proof. intros H. unfold strip. simpl. rewrite H. simpl. now rewrite H. Qed.

Lemma emoji_re_eq :
  emoji_re =
  RAlt (RSeq (RCls (CChar 60)) (RSeq (RCls (CChar 58))
         (RSeq (RPlus CDigit true) (RCls (CChar 62)))))
 (RAlt (RSeq (RCls (CChar 60)) (RSeq (RCls (CChar 58))
         (RSeq (RPlus CDot false) (RSeq (RCls (CChar 58))
           (RSeq (RPlus CDigit true) (RCls (CChar 62)))))))
 (RAlt (RSeq (RCls (CChar 60)) (RSeq (RCls (CChar 97)) (RSeq (RCls (CChar 58))
         (RSeq (RPlus CDot true) (RSeq (RCls (CChar 58))
           (RSeq (RPlus CDigit true) (RCls (CChar 62))))))))
       (RCls (CRange 0x10000 0x10ffff)))).
Proof. reflexivity. Qed.

Ltac lang_inv :=
  repeat match goal with
  | H : lang (RSeq _ _) _ |- _ => inversion H; subst; clear H
  | H : lang (RAlt _ _) _ |- _ => inversion H; subst; clear H
  | H : lang (RCls _) _ |- _ => inversion H; subst; clear H
  | H : cls_match (CChar _) _ = true |- _ => apply N.eqb_eq in H; subst
  end.

Lemma ends_single z : ends_with z [z].
Proof. now exists []. Qed.

Lemma ends_cons z x t : ends_with z t -> ends_with z (x :: t).
Proof. intros [mid ->]. now exists (x :: mid). Qed.

Lemma ends_app z a t : ends_with z t -> ends_with z (a ++ t).
Proof. intros [mid ->]. exists (a ++ mid). now rewrite app_assoc. Qed.

(** A token of the pattern is one supplementary character, or runs from
    a "<" to a ">". *)
Lemma emoji_token_shape (tok : pystr) :
  lang emoji_re tok ->
  (exists c, tok = [c] /\ (0x10000 <= c <= 0x10ffff)%N)
  \/ (exists mid, tok = 60%N :: mid ++ [62%N]).
Proof.
  rewrite emoji_re_eq. intros H. lang_inv.
  4: { left. eexists. split; [reflexivity|]. simpl in *.
       match goal with
       | Hc : _ && _ = true |- _ => apply andb_true_iff in Hc as [H1 H2]
       end.
       apply N.leb_le in H1, H2. lia. }
  all: right; simpl;
    match goal with
    | |- exists mid, 60%N :: ?t = _ =>
      assert (E : ends_with 62%N t)
        by (repeat first [apply ends_single | apply ends_cons | apply ends_app]);
      destruct E as [mid E]; exists mid; now rewrite E
    end.
Qed.

Lemma emoji_token_strip (tok : pystr) : lang emoji_re tok -> strip tok = tok.
Proof.
  intros H. apply emoji_token_shape in H as [(c & -> & Hc)|(mid & ->)].
  - apply strip_single, supplementary_not_space. lia.
  - now apply strip_ends.
Qed.

(** C4 (amended).  For every [(label, link)] pair, the button is made
    from the leftmost emoji-like token found anywhere in the label (a text
    of the pattern: [<:digits>], [<:name:id>], [<a:name:id>] or one
    supplementary character; no such text starts before it): the token is
    the icon, and the text is the label with every occurrence of the token
    removed and the result stripped.  When the label holds no such token
    the button has no icon and the label is its text, unchanged.  The
    label made of the fire emoji followed by " Click here" yields that
    emoji as icon and the text "Click here". *)
Theorem render_button_token (lbl link : pystr) :
  match re_search emoji_re lbl with
  | Some tok =>
    (exists pre post, lbl = pre ++ tok ++ post /\ lang emoji_re tok /\
       forall p1 p2 m rest, pre = p1 ++ p2 -> p2 <> [] ->
         p2 ++ tok ++ post = m ++ rest -> ~ lang emoji_re m)
    /\ render_button (lbl, link)
       = {| label := strip (replace lbl tok []); url := link;
            emoji := Some tok |}
  | None =>
    (forall pre m post, lbl = pre ++ m ++ post -> ~ lang emoji_re m)
    /\ render_button (lbl, link)
       = {| label := lbl; url := link; emoji := None |}
  end
  /\ render_button (0x1F525%N :: u " Click here", link)
     = {| label := u "Click here"; url := link; emoji := Some [0x1F525%N] |}.
Proof.
  split; [|reflexivity].
  unfold render_button. simpl fst. simpl snd.
  destruct (re_search emoji_re lbl) as [tok|] eqn:Hs.
  - pose proof (re_search_some _ _ _ Hs) as (pre & post & Hl & Htok & Hleft).
    split; [now exists pre, post|].
    now rewrite (emoji_token_strip _ Htok).
  - split; [|reflexivity]. now apply re_search_none.
Qed.

(** ** The index rebuild when every send goes through *)

Lemma with_sent_same (w : World) :
  send_faults w = [] ->
  with_sent w (channel w ++ []) (next_msg w + 0) [] = w.
Proof.
  destruct w; simpl; intros ->. now rewrite app_nil_r, N.add_0_r.
Qed.

Lemma channel_send_ok (e : Embed) (w : World) :
  send_faults w = [] ->
  channel_send None e None w
  = (Ok (bot_message (next_msg w) e),
     with_sent w (channel w ++ [bot_message (next_msg w) e])
       (N.succ (next_msg w)) []).
Proof. intros H. unfold channel_send. now rewrite H. Qed.

Lemma toc_loop_ok (line : nat -> Issue -> pystr) (l : list Issue) :
  forall (i : nat) (st : Toc) (w : World),
  send_faults w = [] ->
  let ps := fst (flushed (index_lines line i l) (desc st)) in
  let msgs := page_messages (toc_title st) (page st) (next_msg w) ps in
  toc_loop line i l st w
  = (Ok {| toc_title := match ps with [] => toc_title st | _ :: _ => [] end;
           desc := snd (flushed (index_lines line i l) (desc st));
           page := page st + N.of_nat (length ps);
           ids := ids st ++ map msg_id msgs |},
     with_sent w (channel w ++ msgs) (next_msg w + N.of_nat (length ps)) []).
Proof.
  induction l as [|x l IH]; intros i st w Hf; simpl.
  - change (N.of_nat 0) with 0%N. rewrite N.add_0_r, app_nil_r, (with_sent_same w Hf). unfold ret.
    now destruct st.
  - destruct (3072 <? len (desc st ++ line i x)) eqn:Hlen.
    + unfold bind. rewrite (channel_send_ok _ w Hf). simpl.
      rewrite IH by reflexivity. simpl.
      f_equal.
      * f_equal. f_equal.
        -- now destruct (fst _).
        -- rewrite Nat2N.inj_succ. lia.
        -- now rewrite <- app_assoc.
      * unfold with_sent; simpl. f_equal.
        -- now rewrite <- app_assoc.
        -- rewrite Nat2N.inj_succ. lia.
    + rewrite IH by exact Hf. simpl. reflexivity.
Qed.

Lemma with_channel_same (w : World) : with_channel w (channel w) = w.
Proof. now destruct w. Qed.

Lemma without_absent (id : N) (c : list Message) :
  List.find (fun m => N.eqb (msg_id m) id) c = None -> without id c = c.
Proof.
  induction c as [|m c IH]; simpl; [reflexivity|].
  destruct (N.eqb (msg_id m) id); [discriminate|].
  intros H. simpl. now rewrite IH.
Qed.

(** Deleting a message by id, not-found tolerated, always returns and
    leaves the channel without that id. *)
Lemma delete_one_ok (id : N) (w : World) :
  try_pass (let* msg := fetch_message id in delete_message msg) w
  = (Ok tt, with_channel w (without id (channel w))).
Proof.
  unfold try_pass, bind, fetch_message.
  destruct (List.find _ (channel w)) as [m|] eqn:Hfind.
  - apply List.find_some in Hfind as [Hin Hid]. apply N.eqb_eq in Hid.
    unfold delete_message.
    assert (existsb (fun x => N.eqb (msg_id x) (msg_id m)) (channel w) = true)
      as ->.
    { apply existsb_exists. exists m. split; [exact Hin | apply N.eqb_refl]. }
    now rewrite Hid.
  - now rewrite (without_absent _ _ Hfind), with_channel_same.
Qed.

Lemma delete_all_ok (l : list N) : forall w : World,
  for_each l (fun id =>
    try_pass (let* msg := fetch_message id in delete_message msg)) w
  = (Ok tt, with_channel w (purge l (channel w))).
Proof.
  induction l as [|id l IH]; intros w; simpl.
  - unfold ret. now rewrite with_channel_same.
  - unfold bind at 1. rewrite delete_one_ok, IH. reflexivity.
Qed.

Lemma delete_old_list_ok (w : World) :
  delete_old_list w
  = (Ok tt, with_channel w (purge (old_list w) (channel w))).
Proof.
  unfold delete_old_list, bind, get_world, old_list.
  destruct (issues_list_msg w) as [l|].
  - apply delete_all_ok.
  - unfold ret. simpl. now rewrite with_channel_same.
Qed.

Lemma page_messages_app (a b : list pystr) : forall (t : pystr) (p n : N),
  page_messages t p n (a ++ b)
  = page_messages t p n a ++
    page_messages (match a with [] => t | _ :: _ => [] end)
      (p + N.of_nat (length a)) (n + N.of_nat (length a)) b.
Proof.
  induction a as [|d a IH]; intros t p n.
  - simpl. change (N.of_nat 0) with 0%N. now rewrite !N.add_0_r.
  - simpl app. simpl page_messages. rewrite IH. f_equal.
    simpl length. rewrite Nat2N.inj_succ.
    replace (N.succ p + N.of_nat (length a))%N
      with (p + N.succ (N.of_nat (length a)))%N by lia.
    replace (N.succ n + N.of_nat (length a))%N
      with (n + N.succ (N.of_nat (length a)))%N by lia.
    now destruct a.
Qed.

Lemma page_messages_length (ps : list pystr) : forall (t : pystr) (p n : N),
  length (page_messages t p n ps) = length ps.
Proof. induction ps; intros; simpl; [reflexivity | now rewrite IHps]. Qed.

Lemma refresh_ok (w : World) :
  send_faults w = [] -> refresh_common_issues w = (Ok tt, refreshed w).
Proof.
  intros Hf. unfold refresh_common_issues.
  unfold bind at 1. rewrite delete_old_list_ok.
  unfold bind at 1, get_world. unfold bind at 1.
  rewrite toc_loop_ok by exact Hf. cbn [desc page ids toc_title].
  unfold refreshed, pages_of.
  change (index_line (with_channel w (purge (old_list w) (channel w))))
    with (index_line w).
  change (issues (with_channel w (purge (old_list w) (channel w))))
    with (issues w).
  set (fl := flushed (index_lines (index_line w) 0 (issues w)) []).
  destruct (0 <? len (snd fl)) eqn:Hlast.
  - unfold bind. rewrite channel_send_ok by reflexivity.
    unfold edit_issues_list. rewrite page_messages_app. simpl.
    rewrite !length_app, !page_messages_length, !map_app. simpl.
    f_equal. unfold with_issues_list_msg, with_sent; simpl. f_equal.
    + now rewrite <- app_assoc.
    + rewrite Nat2N.inj_add. simpl. lia.
  - unfold edit_issues_list. rewrite !app_nil_r, page_messages_length.
    reflexivity.
Qed.

(** *** Lengths *)

Lemma len_app (a b : pystr) : len (a ++ b) = len a + len b.
Proof. unfold len. rewrite length_app. lia. Qed.

Lemma len_nonneg (a : pystr) : 0 <= len a.
Proof. unfold len. lia. Qed.

Lemma dec_nonempty (n : N) : 1 <= len (dec n).
Proof.
  unfold dec. destruct n as [|p]; [reflexivity|]. simpl N.to_uint.
  pose proof (DecimalPos.Unsigned.to_uint_nonnil p) as H.
  destruct (Pos.to_uint p); try contradiction;
    unfold len; simpl length; lia.
Qed.

(** A line is the name and at least 42 more characters: the link syntax
    and the four numbers. *)
Lemma index_line_long (w : World) (i : nat) (issue : Issue) :
  42 + len (name issue) <= len (index_line w i issue).
Proof.
  unfold index_line. rewrite !len_app.
  change (len (u ". [")) with 3.
  change (len (u "](https://discord.com/channels/")) with 31.
  change (len (u "/")) with 1. change (len (u ")")) with 1.
  change (len [10%N]) with 1.
  pose proof (dec_nonempty (N.of_nat (i + 1))).
  pose proof (dec_nonempty (guild_id w)).
  pose proof (dec_nonempty (channel_common_issues w)).
  pose proof (dec_nonempty (message_id issue)).
  lia.
Qed.

Lemma index_lines_length line (l : list Issue) : forall i,
  length (index_lines line i l) = length l.
Proof. induction l; intros; simpl; [reflexivity | now rewrite IHl]. Qed.

Lemma index_lines_long (w : World) (l : list Issue) (k : Z) : forall i,
  Forall (fun x => len (name x) = k) l ->
  Forall (fun s => 42 + k <= len s) (index_lines (index_line w) i l).
Proof.
  induction l as [|x l IH]; intros i H; simpl; [constructor|].
  inversion H; subst. constructor; [|now apply IH].
  apply index_line_long.
Qed.

(** *** Counting pages *)

(** When every line has at least [m] characters, a page takes at most [q]
    lines, [q] being the least number of such lines that exceeds 3072
    characters; [c] counts the lines already in the buffer. *)
Lemma page_count_lower (m q : Z) (lines : list pystr) : forall (d : pystr) (c : Z),
  0 < m -> 3072 < q * m ->
  Forall (fun s => m <= len s) lines ->
  0 <= c -> c * m <= len d -> len d <= 3072 ->
  c + Z.of_nat (length lines) <= q * page_count lines d.
Proof.
  unfold page_count.
  induction lines as [|l ls IH]; intros d c Hm Hq Hl Hc Hd Hmax; simpl.
  - destruct (0 <? len d) eqn:E.
    + nia.
    + apply Z.ltb_ge in E. nia.
  - inversion Hl; subst.
    destruct (3072 <? len (d ++ l)) eqn:E; simpl.
    + specialize (IH [] 0 Hm Hq ltac:(assumption) ltac:(lia) ltac:(unfold len; simpl; lia) ltac:(unfold len; simpl; lia)).
      nia.
    + apply Z.ltb_ge in E.
      specialize (IH (d ++ l) (c + 1) Hm Hq ltac:(assumption) ltac:(lia)).
      rewrite len_app in IH, E.
      specialize (IH ltac:(nia) ltac:(lia)). lia.
Qed.

Lemma page_count_upper (lines : list pystr) : forall d : pystr,
  page_count lines d
  <= Z.of_nat (length lines) + (if 0 <? len d then 1 else 0).
Proof.
  unfold page_count.
  induction lines as [|l ls IH]; intros d; simpl; [lia|].
  destruct (3072 <? len (d ++ l)) eqn:E; simpl.
  - specialize (IH []). change (0 <? len []) with false in IH.
    destruct (0 <? len d); lia.
  - specialize (IH (d ++ l)).
    destruct (0 <? len (d ++ l)), (0 <? len d); lia.
Qed.

Lemma pages_of_length (lines : list pystr) :
  Z.of_nat (length (pages_of lines)) = page_count lines [].
Proof.
  unfold pages_of, page_count. rewrite length_app.
  destruct (0 <? len _); simpl; lia.
Qed.

(** *** Footers and texts of the pages *)

Lemma page_messages_footer (ps : list pystr) : forall (t : pystr) (p n : N),
  map page_footer (page_messages t p n ps)
  = map (fun j => Some (u "Page " ++ dec (p + N.of_nat j)))
        (seq 1 (length ps)).
Proof.
  induction ps as [|d ps IH]; intros t p n; [reflexivity|].
  simpl length. rewrite <- cons_seq. simpl map.
  rewrite IH. f_equal.
  - change (Some (u "Page " ++ dec (N.succ p))
            = Some (u "Page " ++ dec (p + 1))).
    now replace (p + 1)%N with (N.succ p) by lia.
  - rewrite <- (seq_shift (length ps) 1), map_map. apply map_ext. intros j.
    rewrite Nat2N.inj_succ.
    now replace (N.succ p + N.of_nat j)%N
      with (p + N.succ (N.of_nat j))%N by lia.
Qed.

Lemma page_messages_text (ps : list pystr) : forall (t : pystr) (p n : N),
  map page_text (page_messages t p n ps) = ps.
Proof. induction ps; intros; simpl; [reflexivity | now rewrite IHps]. Qed.

(** *** The size of the pages *)

Lemma longest_nonneg (lines : list pystr) : 0 <= longest lines.
Proof. induction lines; unfold longest in *; simpl; lia. Qed.

(** From a buffer within the threshold, every flushed page is over the
    threshold by less than one line, and the buffer left is within it. *)
Lemma flushed_bound (lines : list pystr) : forall d : pystr,
  len d <= 3072 ->
  Forall (fun p => 3072 < len p <= 3072 + longest lines)
         (fst (flushed lines d))
  /\ len (snd (flushed lines d)) <= 3072.
Proof.
  induction lines as [|l ls IH]; intros d Hd; simpl.
  - split; [constructor | exact Hd].
  - assert (Hmax : longest (l :: ls) = Z.max (len l) (longest ls))
      by reflexivity.
    destruct (3072 <? len (d ++ l)) eqn:E; simpl.
    + apply Z.ltb_lt in E. destruct (IH []) as [H1 H2]; [unfold len; simpl; lia|].
      split; [|exact H2]. constructor.
      * rewrite len_app in *. lia.
      * eapply Forall_impl; [exact H1|]. simpl. intros p Hp. lia.
    + apply Z.ltb_ge in E. destruct (IH (d ++ l) E) as [H1 H2].
      split; [|exact H2].
      eapply Forall_impl; [exact H1|]. simpl. intros p Hp. lia.
Qed.

Lemma pages_of_bound (lines : list pystr) :
  Forall (fun p => len p <= 3072 + longest lines) (pages_of lines).
Proof.
  unfold pages_of. destruct (flushed_bound lines []) as [H1 H2]; [unfold len; simpl; lia|].
  apply Forall_app. split.
  - eapply Forall_impl; [exact H1|]. simpl. intros p Hp. lia.
  - destruct (0 <? len _); constructor; [|constructor].
    pose proof (longest_nonneg lines). lia.
Qed.

Lemma pages_of_init (lines body : list pystr) (last : pystr) :
  pages_of lines = body ++ [last] -> Forall (fun p => 3072 < len p) body.
Proof.
  unfold pages_of. destruct (flushed_bound lines []) as [H1 _]; [unfold len; simpl; lia|].
  assert (H : Forall (fun p => 3072 < len p) (fst (flushed lines [])))
    by (eapply Forall_impl; [exact H1|]; simpl; intros p Hp; lia).
  destruct (0 <? len _).
  - intros E. apply app_inj_tail in E as [<- _]. exact H.
  - rewrite app_nil_r. intros E. rewrite E in H.
    now apply Forall_app in H as [H _].
Qed.

(** ** Index pagination *)

(** C1 (amended).  For an issue store holding exactly 500 issues whose
    names are 10 characters each, a rebuild in which every send goes
    through posts [k] pages with [9 <= k <= 500]: every line carries the
    link to the issue's message and is at least 52 characters long, so a
    page takes at most 60 lines.  The footers of the pages are "Page 1",
    ..., "Page k" in order, and the list of page ids stored is the list of
    the ids of these [k] pages. *)
Theorem refresh_500_issues (w : World) :
  send_faults w = [] ->
  length (issues w) = 500%nat ->
  Forall (fun i => len (name i) = 10) (issues w) ->
  exists pages : list Message,
    fst (refresh_common_issues w) = Ok tt
    /\ channel (snd (refresh_common_issues w))
       = purge (old_list w) (channel w) ++ pages
    /\ issues_list_msg (snd (refresh_common_issues w))
       = Some (map msg_id pages)
    /\ map page_footer pages
       = map (fun j => Some (u "Page " ++ dec (N.of_nat j)))
             (seq 1 (length pages))
    /\ (9 <= length pages <= 500)%nat.
Proof.
  intros Hf Hlen Hnames. rewrite (refresh_ok w Hf).
  set (lines := index_lines (index_line w) 0 (issues w)).
  exists (page_messages (u "Table of Contents") 0 (next_msg w) (pages_of lines)).
  split; [reflexivity|]. split; [reflexivity|]. split; [reflexivity|].
  rewrite page_messages_footer, page_messages_length. split.
  - apply map_ext. intros j. now rewrite N.add_0_l.
  - pose proof (pages_of_length lines) as Hk.
    pose proof (page_count_upper lines []) as Hup.
    pose proof (page_count_lower 52 60 lines [] 0 ltac:(lia) ltac:(lia)
                  (index_lines_long w (issues w) 10 0 Hnames)
                  ltac:(lia) ltac:(unfold len; simpl; lia)
                  ltac:(unfold len; simpl; lia)) as Hlow.
    unfold lines in Hup, Hlow. rewrite index_lines_length, Hlen in Hup, Hlow.
    change (0 <? len []) with false in Hup. fold lines in Hup, Hlow. lia.
Qed.

(** C2 (amended).  For every issue list, every page posted by a rebuild
    in which every send goes through holds at most 3072 characters plus
    the length of the longest line: the buffer is flushed right after the
    line that takes it over 3072 characters, so every page but the last
    is longer than 3072 characters. *)
Theorem refresh_page_bound (w : World) :
  send_faults w = [] ->
  exists pages : list Message,
    fst (refresh_common_issues w) = Ok tt
    /\ channel (snd (refresh_common_issues w))
       = purge (old_list w) (channel w) ++ pages
    /\ Forall (fun m => len (page_text m)
                        <= 3072 + longest (index_lines (index_line w) 0
                                             (issues w))) pages
    /\ forall body last, pages = body ++ [last] ->
         Forall (fun m => 3072 < len (page_text m)) body.
Proof.
  intros Hf. rewrite (refresh_ok w Hf).
  set (lines := index_lines (index_line w) 0 (issues w)).
  set (pages := page_messages (u "Table of Contents") 0 (next_msg w)
                  (pages_of lines)).
  assert (Htext : map page_text pages = pages_of lines)
    by apply page_messages_text.
  exists pages. split; [reflexivity|]. split; [reflexivity|]. split.
  - apply (proj1 (List.Forall_map page_text
                    (fun t => len t <= 3072 + longest lines) pages)).
    rewrite Htext. apply pages_of_bound.
  - intros body last E. rewrite E, map_app in Htext. simpl in Htext.
    symmetry in Htext. apply pages_of_init in Htext.
    exact (proj1 (List.Forall_map page_text (fun t => 3072 < len t) body)
                 Htext).
Qed.

(** ** The view of an issue *)

Lemma view_loop_spec (links : list (pystr * pystr)) :
  forall view : list LinkButton,
  (length view <= 25)%nat ->
  view_loop view links
  = match links with
    | [] => Ok view
    | _ :: _ =>
      if (length view + length links <=? 25)%nat
      then Ok (view ++ map render_button links)
      else Raise ValueError
    end.
Proof.
  induction links as [|p links IH]; intros view Hv; [reflexivity|].
  simpl view_loop. unfold add_item.
  destruct (25 <=? length view)%nat eqn:E.
  - apply Nat.leb_le in E.
    assert ((length view + length (p :: links) <=? 25)%nat = false) as ->
      by (apply Nat.leb_gt; simpl; lia).
    reflexivity.
  - apply Nat.leb_gt in E. rewrite IH by (rewrite length_app; simpl; lia).
    destruct links as [|q links].
    + assert ((length view + length [p] <=? 25)%nat = true) as ->
        by (apply Nat.leb_le; simpl; lia).
      reflexivity.
    + assert (length (view ++ [render_button p]) + length (q :: links)
              = length view + length (p :: q :: links))%nat as ->
        by (rewrite length_app; simpl; lia).
      destruct (length view + length (p :: q :: links) <=? 25)%nat;
        [|reflexivity].
      simpl. now rewrite <- app_assoc.
Qed.

(** [prepare_issue_view] raises [ValueError] for an issue with more than
    25 button links; otherwise it makes one button of every link. *)
Lemma prepare_issue_view_spec (issue : Issue) :
  prepare_issue_view issue
  = if (length (button_links issue) <=? 25)%nat
    then Ok (match button_links issue with
             | [] => None
             | _ :: _ => Some (map render_button (button_links issue))
             end)
    else Raise ValueError.
Proof.
  unfold prepare_issue_view.
  destruct (button_links issue) as [|p l] eqn:E; [reflexivity|].
  rewrite view_loop_spec by (simpl; lia). simpl length at 1.
  change (0 + length (p :: l))%nat with (length (p :: l)).
  now destruct (length (p :: l) <=? 25)%nat.
Qed.

Lemma renders_ok (w : World) (issue : Issue) :
  renders issue ->
  exists e v,
    prepare_issue_embed w issue = Ok e /\ prepare_issue_view issue = Ok v.
Proof.
  intros [Hc Hl]. unfold prepare_issue_embed.
  destruct (color issue) as [c|]; [|contradiction].
  rewrite prepare_issue_view_spec.
  apply Nat.leb_le in Hl. rewrite Hl. simpl. eauto.
Qed.

Lemma renders_inv (w : World) (issue : Issue) (e : Embed)
    (v : option (list LinkButton)) :
  prepare_issue_embed w issue = Ok e -> prepare_issue_view issue = Ok v ->
  renders issue.
Proof.
  unfold prepare_issue_embed. rewrite prepare_issue_view_spec.
  intros He Hv. split.
  - destruct (color issue); [discriminate | discriminate He].
  - destruct (length (button_links issue) <=? 25)%nat eqn:E;
      [now apply Nat.leb_le | discriminate].
Qed.

(** ** Reindex *)

(** A call of [reindex_one] that returns has rendered the issue and sent
    the message. *)
Lemma reindex_one_inv (w w1 : World) (issue : Issue) :
  reindex_one issue w = (Ok tt, w1) ->
  w1 = reindex_step w issue /\ renders issue.
Proof.
  unfold reindex_one. unfold bind at 1.
  rewrite delete_one_ok. unfold bind at 1, post_issue.
  unfold bind at 1, get_world. unfold bind at 1, lift.
  unfold reindex_step, repost.
  change (prepare_issue_embed
            (with_channel w (without (message_id issue) (channel w))) issue)
    with (prepare_issue_embed w issue).
  change (discord_file
            (with_channel w (without (message_id issue) (channel w))) issue)
    with (discord_file w issue).
  destruct (prepare_issue_embed w issue) as [e|x] eqn:He; [|discriminate].
  unfold bind at 1.
  destruct (prepare_issue_view issue) as [v|x] eqn:Hv; [|discriminate].
  pose proof (renders_inv _ _ _ _ He Hv) as Hr.
  unfold channel_send. simpl send_faults.
  destruct (send_faults w) as [|[] f]; simpl; intros H;
    inversion H; split; (reflexivity || assumption || discriminate).
Qed.

Lemma reindex_one_ok (w : World) (issue : Issue) :
  send_faults w = [] -> renders issue ->
  reindex_one issue w = (Ok tt, reindex_step w issue).
Proof.
  intros Hf Hr. unfold reindex_one. unfold bind at 1.
  rewrite delete_one_ok. unfold bind at 1, post_issue.
  unfold bind at 1, get_world. unfold bind at 1, lift.
  unfold reindex_step, repost.
  change (prepare_issue_embed
            (with_channel w (without (message_id issue) (channel w))) issue)
    with (prepare_issue_embed w issue).
  change (discord_file
            (with_channel w (without (message_id issue) (channel w))) issue)
    with (discord_file w issue).
  destruct (renders_ok w issue Hr) as (e & v & -> & ->).
  unfold bind at 1.
  unfold channel_send. simpl send_faults. rewrite Hf. reflexivity.
Qed.

Lemma reindex_loop_inv (l : list Issue) : forall w w1 : World,
  for_each l reindex_one w = (Ok tt, w1) ->
  w1 = fold_left reindex_step l w /\ Forall renders l.
Proof.
  induction l as [|x l IH]; intros w w1; simpl.
  - unfold ret. intros [= <-]. split; [reflexivity | constructor].
  - unfold bind. destruct (reindex_one x w) as [[[]|e] w0] eqn:Hx;
      [|discriminate].
    apply reindex_one_inv in Hx as [-> Hc].
    intros H. apply IH in H as [-> Hl]. split; [reflexivity|].
    now constructor.
Qed.

Lemma reindex_loop_ok (l : list Issue) : forall w : World,
  send_faults w = [] -> Forall renders l ->
  for_each l reindex_one w = (Ok tt, fold_left reindex_step l w).
Proof.
  induction l as [|x l IH]; intros w Hf Hc; simpl; [reflexivity|].
  inversion Hc; subst. unfold bind.
  rewrite reindex_one_ok by assumption. apply IH; [|assumption].
  simpl. now rewrite Hf.
Qed.

(** *** The world after the loop *)

Lemma fold_next_msg (l : list Issue) : forall w : World,
  next_msg (fold_left reindex_step l w)
  = (next_msg w + N.of_nat (length l))%N.
Proof.
  induction l as [|x l IH]; intros w.
  - simpl. lia.
  - simpl fold_left. rewrite IH. simpl length. rewrite Nat2N.inj_succ.
    simpl next_msg. lia.
Qed.

Lemma fold_gridfs (l : list Issue) : forall w : World,
  gridfs (fold_left reindex_step l w) = gridfs w.
Proof. induction l; intros w; simpl; [reflexivity | now rewrite IHl]. Qed.

Lemma fold_old_list (l : list Issue) : forall w : World,
  old_list (fold_left reindex_step l w) = old_list w.
Proof. induction l; intros w; simpl; [reflexivity | now rewrite IHl]. Qed.

Lemma fold_send_faults (l : list Issue) : forall w : World,
  send_faults w = [] -> send_faults (fold_left reindex_step l w) = [].
Proof.
  induction l; intros w H; simpl; [exact H|]. apply IHl. simpl. now rewrite H.
Qed.

Lemma replace_by_name_here (i x : Issue) (done l : list Issue) :
  name x = name i -> ~ In (name i) (map name done) ->
  replace_by_name i (done ++ x :: l) = done ++ i :: l.
Proof.
  clear hash_color unicode_decimal Color_from_str.
  intros Hx. induction done as [|y done IH]; simpl; intros Hn.
  - now rewrite Hx, str_eqb_refl.
  - rewrite str_eqb_neq by tauto. f_equal. apply IH. tauto.
Qed.

Lemma NoDup_app_cons_notin {A} (a : list A) (x : A) (b : list A) :
  List.NoDup (a ++ x :: b) -> ~ In x a.
Proof.
  intros H Hin. apply List.NoDup_remove_2 in H. apply H.
  apply in_or_app. now left.
Qed.

(** With unique names, the loop gives the issue at position [k] the
    [k]-th fresh id and changes nothing else in the list. *)
Lemma fold_issues (l : list Issue) : forall (done : list Issue) (w : World),
  issues w = done ++ l ->
  List.NoDup (map name (done ++ l)) ->
  issues (fold_left reindex_step l w)
  = done ++ imap (fun k i => set_message_id i (next_msg w + N.of_nat k)) l.
Proof.
  induction l as [|x l IH]; intros done w Hw Hnd; [exact Hw|].
  simpl fold_left. rewrite imap_cons.
  change (N.of_nat 0) with 0%N. rewrite N.add_0_r.
  rewrite (IH (done ++ [set_message_id x (next_msg w)])).
  - rewrite <- app_assoc. simpl. do 2 f_equal.
    apply imap_ext. intros k i _. simpl. rewrite Nat2N.inj_succ.
    f_equal. lia.
  - simpl. rewrite Hw, <- app_assoc. simpl.
    apply replace_by_name_here; [reflexivity|]. simpl.
    rewrite map_app in Hnd. simpl in Hnd.
    now apply NoDup_app_cons_notin in Hnd.
  - rewrite <- app_assoc. simpl.
    rewrite map_app in *. simpl in *. exact Hnd.
Qed.

(** *** The channel after the loop *)

Lemma without_app (id : N) (a b : list Message) :
  without id (a ++ b) = without id a ++ without id b.
Proof. apply List.filter_app. Qed.

Lemma purge_app (l : list N) : forall a b : list Message,
  purge l (a ++ b) = purge l a ++ purge l b.
Proof.
  induction l as [|id l IH]; intros a b; [reflexivity|].
  unfold purge in *. simpl. now rewrite without_app, IH.
Qed.

Lemma purge_keeps (l : list N) (m : Message) :
  ~ In (msg_id m) l -> purge l [m] = [m].
Proof.
  clear hash_color unicode_decimal Color_from_str.
  induction l as [|id l IH]; intros H; [reflexivity|].
  unfold purge in *. simpl in *.
  destruct (N.eqb_spec (msg_id m) id) as [E|E].
  - exfalso. apply H. left. now symmetry.
  - simpl. apply IH. tauto.
Qed.

Lemma purge_all_keeps (l : list N) (c : list Message) :
  Forall (fun m => ~ In (msg_id m) l) c -> purge l c = c.
Proof.
  induction c as [|m c IH]; intros H.
  - clear H. induction l; [reflexivity | exact IHl].
  - inversion H; subst. change (m :: c) with ([m] ++ c).
    now rewrite purge_app, purge_keeps, IH.
Qed.

Lemma prepare_issue_embed_gridfs (w1 w : World) (i : Issue) :
  gridfs w1 = gridfs w -> prepare_issue_embed w1 i = prepare_issue_embed w i.
Proof.
  intros H. unfold prepare_issue_embed, image_read, image_content_type.
  now rewrite H.
Qed.

Lemma repost_gridfs (w1 w : World) (n : N) (i : Issue) :
  gridfs w1 = gridfs w -> repost w1 n i = repost w n i.
Proof.
  intros H. unfold repost, discord_file, image_read, image_content_type.
  now rewrite (prepare_issue_embed_gridfs w1 w i H), H.
Qed.

Lemma reposts_gridfs (w1 w : World) (l : list Issue) : forall n : N,
  gridfs w1 = gridfs w -> reposts w1 n l = reposts w n l.
Proof.
  induction l as [|x l IH]; intros n H; simpl; [reflexivity|].
  now rewrite (repost_gridfs w1 w n x H), IH.
Qed.

Lemma reposts_ids (w : World) (l : list Issue) : forall n : N,
  Forall (fun m => (n <= msg_id m)%N) (reposts w n l).
Proof.
  induction l as [|x l IH]; intros n; simpl; constructor.
  - simpl. lia.
  - eapply Forall_impl; [apply IH|]. simpl. intros m. lia.
Qed.

(** With the stored ids in the past, the loop leaves the channel without
    the old messages of the issues, followed by their new messages. *)
Lemma fold_channel (l : list Issue) : forall w : World,
  Forall (fun i => (message_id i < next_msg w)%N) l ->
  channel (fold_left reindex_step l w)
  = purge (map message_id l) (channel w) ++ reposts w (next_msg w) l.
Proof.
  induction l as [|x l IH]; intros w H.
  - simpl. now rewrite app_nil_r.
  - inversion H as [|? ? Hx Hl]; subst. simpl fold_left. rewrite IH.
    + simpl channel. simpl next_msg. rewrite purge_app, purge_keeps.
      * rewrite (reposts_gridfs (reindex_step w x) w) by reflexivity.
        simpl. now rewrite <- app_assoc.
      * simpl. intros Hin. apply in_map_iff in Hin as (y & Hy & Hin).
        rewrite List.Forall_forall in Hl. apply Hl in Hin. lia.
    + simpl next_msg. eapply Forall_impl; [exact Hl|]. simpl. intros y. lia.
Qed.

(** *** The channel after a rebuild, whatever the sends do *)

Lemma grows_ret {A} (a : A) : grows (ret a).
Proof. intros w. exists []. simpl. now rewrite app_nil_r. Qed.

Lemma grows_get_world : grows get_world.
Proof. intros w. exists []. simpl. now rewrite app_nil_r. Qed.

Lemma grows_bind {A B} (c : M A) (k : A -> M B) :
  grows c -> (forall a, grows (k a)) -> grows (bind c k).
Proof.
  intros Hc Hk w. unfold bind. destruct (Hc w) as [e1 H1].
  destruct (c w) as [[a|e] w']; simpl in *.
  - destruct (Hk a w') as [e2 H2]. exists (e1 ++ e2).
    now rewrite H2, H1, app_assoc.
  - now exists e1.
Qed.

Lemma grows_channel_send file e v : grows (channel_send file e v).
Proof.
  intros w. unfold channel_send.
  destruct (send_faults w) as [|[] f]; simpl; eexists; try reflexivity.
  now rewrite app_nil_r.
Qed.

Lemma grows_toc_loop line l : forall i st, grows (toc_loop line i l st).
Proof.
  induction l as [|x l IH]; intros i st; simpl.
  - apply grows_ret.
  - destruct (3072 <? _).
    + apply grows_bind; [apply grows_channel_send | intros m; apply IH].
    + apply IH.
Qed.

Lemma refresh_channel (w : World) :
  exists extra,
    channel (snd (refresh_common_issues w))
    = purge (old_list w) (channel w) ++ extra.
Proof.
  unfold refresh_common_issues. unfold bind at 1.
  rewrite delete_old_list_ok.
  set (w1 := with_channel w (purge (old_list w) (channel w))).
  assert (G : grows (let* w := get_world in
     let* st := toc_loop (index_line w) 0 (issues w)
               {| toc_title := u "Table of Contents"; desc := [];
                  page := 0; ids := [] |} in
     if 0 <? len (desc st) then
       let* msg := channel_send None
                  (toc_embed (toc_title st) (desc st) (N.succ (page st)))
                  None in
       edit_issues_list (ids st ++ [msg_id msg])
     else edit_issues_list (ids st))).
  { apply grows_bind; [apply grows_get_world|]. intros w0.
    apply grows_bind; [apply grows_toc_loop|]. intros st.
    destruct (0 <? _).
    - apply grows_bind; [apply grows_channel_send|]. intros m w2.
      exists []. simpl. now rewrite app_nil_r.
    - intros w2. exists []. simpl. now rewrite app_nil_r. }
  destruct (G w1) as [extra H]. exists extra. exact H.
Qed.

Lemma reposts_lookup (w : World) (l : list Issue) : forall (n : N) (k : nat) (i : Issue),
  l !! k = Some i ->
  reposts w n l !! k = Some (repost w (n + N.of_nat k) i).
Proof.
  induction l as [|x l IH]; intros n k i H; [discriminate|].
  destruct k as [|k]; simpl in *.
  - injection H as ->. now rewrite N.add_0_r.
  - rewrite (IH _ _ _ H). do 2 f_equal. lia.
Qed.

(** The state a reindex batch that returned has left: the issues are
    those the loop stored, and the channel holds the new messages of the
    issues in order, followed by whatever the rebuild posted. *)
Lemma do_reindex_inv (w w' : World) (r : pystr) :
  do_reindex w = (Ok r, w') ->
  ids_in_the_past w ->
  Forall renders (issues w)
  /\ issues w' = issues (reindexed w)
  /\ exists before after,
       channel w' = before ++ reposts w (next_msg w) (issues w) ++ after.
Proof.
  intros H (Hmid & Hold & Hch). unfold do_reindex in H.
  unfold bind at 1, get_world in H. unfold bind at 1 in H.
  destruct (for_each (issues w) reindex_one w) as [[[]|e] w1] eqn:Hloop;
    [|discriminate].
  apply reindex_loop_inv in Hloop as [-> Hcol].
  unfold bind at 1 in H.
  pose proof (refresh_issues (fold_left reindex_step (issues w) w)) as Hiss.
  destruct (refresh_channel (fold_left reindex_step (issues w) w))
    as [extra Hext].
  destruct (refresh_common_issues _) as [[[]|e] w2]; [|discriminate].
  unfold ret in H. injection H as _ <-. simpl in Hiss, Hext.
  split; [exact Hcol|]. split.
  - exact Hiss.
  - rewrite Hext, fold_old_list, (fold_channel _ _ Hmid), purge_app.
    rewrite (purge_all_keeps _ (reposts _ _ _)).
    + eexists. eexists. rewrite <- app_assoc. reflexivity.
    + eapply Forall_impl; [apply reposts_ids|]. simpl. intros m Hm Hin.
      rewrite List.Forall_forall in Hold. apply Hold in Hin. lia.
Qed.

Lemma do_reindex_ok (w : World) :
  send_faults w = [] -> Forall renders (issues w) ->
  do_reindex w = (Ok (u "Reindexed!"), refreshed (reindexed w)).
Proof.
  intros Hf Hc. unfold do_reindex, bind, get_world.
  rewrite (reindex_loop_ok _ _ Hf Hc).
  rewrite refresh_ok by now apply fold_send_faults.
  reflexivity.
Qed.

Lemma repost_embed (w : World) (n : N) (i : Issue) :
  color i <> None ->
  exists e, prepare_issue_embed w i = Ok e /\ embeds (repost w n i) = [e].
Proof.
  intros Hc. unfold repost. simpl embeds. unfold prepare_issue_embed.
  destruct (color i); [|contradiction]. simpl. eexists. split; reflexivity.
Qed.

(** The new message of the issue at position [k] is in the channel a
    returned batch leaves, under the [k]-th fresh id. *)
Lemma do_reindex_posts (w w' : World) (r : pystr) (k : nat) (i : Issue) :
  do_reindex w = (Ok r, w') ->
  ids_in_the_past w ->
  issues w !! k = Some i ->
  exists m e,
    In m (channel w') /\ ~ In m (channel w)
    /\ msg_id m = (next_msg w + N.of_nat k)%N
    /\ prepare_issue_embed w i = Ok e /\ embeds m = [e].
Proof.
  intros H Hpast Hk.
  destruct (do_reindex_inv _ _ _ H Hpast) as (Hcol & _ & before & after & Hch).
  assert (Hci : color i <> None).
  { rewrite List.Forall_forall in Hcol. apply Hcol.
    apply list_elem_of_In. eapply list_elem_of_lookup_2. exact Hk. }
  clear Hcol.
  destruct (repost_embed w (next_msg w + N.of_nat k) i Hci) as (e & He1 & He2).
  exists (repost w (next_msg w + N.of_nat k) i), e.
  split; [|split; [|split; [reflexivity | split; assumption]]].
  - rewrite Hch. apply in_or_app. right. apply in_or_app. left.
    apply list_elem_of_In. eapply list_elem_of_lookup_2.
    apply reposts_lookup. exact Hk.
  - intros Hin. destruct Hpast as (_ & _ & Hpast).
    rewrite List.Forall_forall in Hpast. apply Hpast in Hin. simpl in Hin. lia.
Qed.

(** ** Reindex: what changes and what does not *)

(** C8.  After a reindex batch has returned, on a store with unique names
    whose recorded ids are in the past, every stored issue has a
    different [message_id], the id of the message freshly posted for it,
    and the same name, content, colour and button links. *)
Theorem do_reindex_changes_message_id_only (w w' : World) (r : pystr) :
  do_reindex w = (Ok r, w') ->
  List.NoDup (map name (issues w)) ->
  ids_in_the_past w ->
  length (issues w') = length (issues w)
  /\ forall (k : nat) (i : Issue), issues w !! k = Some i ->
       exists i', issues w' !! k = Some i'
         /\ name i' = name i /\ content i' = content i
         /\ color i' = color i /\ button_links i' = button_links i
         /\ message_id i' <> message_id i
         /\ exists m e,
              In m (channel w') /\ ~ In m (channel w)
              /\ msg_id m = message_id i'
              /\ prepare_issue_embed w i = Ok e /\ embeds m = [e].
Proof.
  intros H Hnd Hpast.
  destruct (do_reindex_inv _ _ _ H Hpast) as (_ & Hiss & _).
  unfold reindexed in Hiss.
  rewrite (fold_issues (issues w) [] w eq_refl Hnd) in Hiss. simpl in Hiss.
  split; [now rewrite Hiss, length_imap|].
  intros k i Hk.
  exists (set_message_id i (next_msg w + N.of_nat k)).
  split; [now rewrite Hiss, list_lookup_imap, Hk|].
  repeat (split; [reflexivity|]). split.
  - simpl. destruct Hpast as (Hmid & _ & _).
    rewrite List.Forall_forall in Hmid.
    assert (Hin : In i (issues w))
      by (apply list_elem_of_In; eapply list_elem_of_lookup_2; exact Hk).
    apply Hmid in Hin. lia.
  - exact (do_reindex_posts _ _ _ _ _ H Hpast Hk).
Qed.

(** ** Failures during a batch *)

Lemma for_each_aborts {A} (done rest : list A) (x : A) (body : A -> M unit)
    (e : exn) : forall w wk w' : World,
  for_each done body w = (Ok tt, wk) ->
  body x wk = (Raise e, w') ->
  for_each (done ++ x :: rest) body w = (Raise e, w').
Proof.
  induction done as [|y done IH]; intros w wk w' Hdone Hx; simpl in *.
  - unfold ret in Hdone. injection Hdone as <-. unfold bind. now rewrite Hx.
  - unfold bind in *. destruct (body y w) as [[[]|e0] w0]; [|discriminate].
    now apply (IH w0 wk w').
Qed.





(** ** More on the index rebuild *)

Lemma in_without (id : N) (m : Message) (c : list Message) :
  In m (without id c) <-> In m c /\ msg_id m <> id.
Proof.
  unfold without. rewrite List.filter_In. split; intros [H1 H2]; split; auto.
  - intros E. rewrite E, N.eqb_refl in H2. discriminate.
  - apply negb_true_iff. now apply N.eqb_neq.
Qed.

Lemma in_purge (l : list N) : forall (m : Message) (c : list Message),
  In m (purge l c) <-> In m c /\ ~ In (msg_id m) l.
Proof.
  induction l as [|id l IH]; intros m c.
  - simpl. tauto.
  - change (purge (id :: l) c) with (purge l (without id c)).
    rewrite IH, in_without. simpl. split.
    + intros [[H1 H2] H3]. split; [exact H1|]. intros [E|E]; auto.
    + intros [H1 H2]. repeat split; auto.
Qed.

Lemma posts_fresh_ret {A} (a : A) : posts_fresh (ret a).
Proof.
  intros w. exists []. simpl. rewrite app_nil_r.
  repeat split; [constructor | lia].
Qed.

Lemma posts_fresh_get_world : posts_fresh get_world.
Proof.
  intros w. exists []. simpl. rewrite app_nil_r.
  repeat split; [constructor | lia].
Qed.

Lemma posts_fresh_bind {A B} (c : M A) (k : A -> M B) :
  posts_fresh c -> (forall a, posts_fresh (k a)) -> posts_fresh (bind c k).
Proof.
  intros Hc Hk w. unfold bind. destruct (Hc w) as (e1 & H1 & F1 & N1).
  destruct (c w) as [[a|e] w']; simpl in *.
  - destruct (Hk a w') as (e2 & H2 & F2 & N2). exists (e1 ++ e2).
    rewrite H2, H1, app_assoc. repeat split; [|lia].
    apply Forall_app. split; [exact F1|].
    eapply Forall_impl; [exact F2|]. simpl. intros m. lia.
  - now exists e1.
Qed.

Lemma posts_fresh_channel_send file e v : posts_fresh (channel_send file e v).
Proof.
  intros w. unfold channel_send.
  destruct (send_faults w) as [|[] f]; simpl.
  - eexists. repeat split; [repeat constructor; simpl; lia | lia].
  - exists []. rewrite app_nil_r. repeat split; [constructor | lia].
  - eexists. repeat split; [repeat constructor; simpl; lia | lia].
Qed.

Lemma posts_fresh_toc_loop line l : forall i st,
  posts_fresh (toc_loop line i l st).
Proof.
  induction l as [|x l IH]; intros i st; simpl.
  - apply posts_fresh_ret.
  - destruct (3072 <? _).
    + apply posts_fresh_bind; [apply posts_fresh_channel_send|].
      intros m. apply IH.
    + apply IH.
Qed.

(** Whatever the sends do, a rebuild leaves the channel without the old
    pages, followed by fresh messages. *)
Lemma refresh_after_delete (k : unit -> M unit) (w : World) :
  bind delete_old_list k w
  = k tt (with_channel w (purge (old_list w) (channel w))).
Proof. unfold bind. now rewrite delete_old_list_ok. Qed.

(** Whatever the sends do, a rebuild leaves the channel without the old
    pages, followed by fresh messages. *)
Lemma refresh_channel_fresh (w : World) :
  exists extra,
    channel (snd (refresh_common_issues w))
    = purge (old_list w) (channel w) ++ extra
    /\ Forall (fun m => (next_msg w <= msg_id m)%N) extra
    /\ (next_msg w <= next_msg (snd (refresh_common_issues w)))%N.
Proof.
  unfold refresh_common_issues. rewrite !refresh_after_delete.
  set (w1 := with_channel w (purge (old_list w) (channel w))).
  assert (G : posts_fresh (let* w := get_world in
     let* st := toc_loop (index_line w) 0 (issues w)
               {| toc_title := u "Table of Contents"; desc := [];
                  page := 0; ids := [] |} in
     if 0 <? len (desc st) then
       let* msg := channel_send None
                  (toc_embed (toc_title st) (desc st) (N.succ (page st)))
                  None in
       edit_issues_list (ids st ++ [msg_id msg])
     else edit_issues_list (ids st))).
  { apply posts_fresh_bind; [apply posts_fresh_get_world|]. intros w0.
    apply posts_fresh_bind; [apply posts_fresh_toc_loop|]. intros st.
    destruct (0 <? _).
    - apply posts_fresh_bind; [apply posts_fresh_channel_send|]. intros m w2.
      exists []. simpl. rewrite app_nil_r. repeat split; [constructor | lia].
    - intros w2. exists []. simpl. rewrite app_nil_r.
      repeat split; [constructor | lia]. }
  destruct (G w1) as (extra & H & F & Hn). exists extra.
  split; [exact H | split; [exact F | exact Hn]].
Qed.

(** X1.  With no issue in the store, a rebuild returns whatever the
    platform does to sends: it posts nothing, gives out no id, leaves the
    channel without the old pages and stores the empty list of page ids. *)
Theorem refresh_no_issues (w : World) :
  issues w = [] ->
  fst (refresh_common_issues w) = Ok tt
  /\ channel (snd (refresh_common_issues w))
     = purge (old_list w) (channel w)
  /\ issues_list_msg (snd (refresh_common_issues w)) = Some []
  /\ next_msg (snd (refresh_common_issues w)) = next_msg w
  /\ send_faults (snd (refresh_common_issues w)) = send_faults w.
Proof.
  intros Hi. unfold refresh_common_issues. rewrite !refresh_after_delete.
  unfold bind, get_world. simpl issues. rewrite Hi. simpl.
  repeat split; reflexivity.
Qed.

(** X2.  Whatever the sends do, after a rebuild no message of the
    channel carries the id of an old page, and every message that was in
    the channel and is not an old page is still there; the ids of the old
    pages being in the past. *)
Theorem refresh_removes_old_pages (w : World) :
  Forall (fun id => (id < next_msg w)%N) (old_list w) ->
  (forall m, In m (channel (snd (refresh_common_issues w))) ->
             ~ In (msg_id m) (old_list w))
  /\ (forall m, In m (channel w) -> ~ In (msg_id m) (old_list w) ->
                In m (channel (snd (refresh_common_issues w)))).
Proof.
  intros Hold. destruct (refresh_channel_fresh w) as (extra & H & F & _).
  rewrite H. split.
  - intros m Hin. apply in_app_or in Hin as [Hin|Hin].
    + now apply in_purge in Hin.
    + rewrite List.Forall_forall in F, Hold. intros Hid.
      apply F in Hin. apply Hold in Hid. lia.
  - intros m Hin Hid. apply in_or_app. left. now apply in_purge.
Qed.

Lemma concat_nonempty (g : list pystr) :
  g <> [] -> Forall (fun s => s <> []) g -> 0 < len (joined g).
Proof.
  unfold joined.
  destruct g as [|s g]; [congruence|]. intros _ H. inversion H; subst.
  simpl. rewrite len_app. pose proof (len_nonneg (List.concat g)).
  destruct s; [congruence|]. unfold len in *. simpl length. lia.
Qed.

(** The pages the loop flushes are groups of consecutive whole lines. *)
Lemma flushed_groups (lines : list pystr) : forall g : list pystr,
  exists gs glast,
    fst (flushed lines (joined g)) = map joined gs
    /\ snd (flushed lines (joined g)) = joined glast
    /\ List.concat gs ++ glast = g ++ lines
    /\ Forall (fun x => x <> []) gs
    /\ (Forall (fun s => s <> []) g -> Forall (fun s => s <> []) lines ->
        Forall (fun s => s <> []) glast).
Proof.
  induction lines as [|l ls IH]; intros g.
  - exists [], g. simpl. rewrite app_nil_r. repeat split; auto.
  - simpl flushed.
    assert (E : joined g ++ l = joined (g ++ [l])).
    { unfold joined. rewrite concat_app. simpl. now rewrite app_nil_r. }
    destruct (3072 <? len (joined g ++ l)).
    + destruct (IH []) as (gs & glast & H1 & H2 & H3 & H4 & H5).
      exists ((g ++ [l]) :: gs), glast. simpl in H1, H2, H3.
      split; [simpl; now rewrite H1, E|]. split; [exact H2|].
      split; [simpl; rewrite <- !app_assoc; simpl; now rewrite H3|].
      split.
      * constructor; [|exact H4]. destruct g; discriminate.
      * intros _ Hl. inversion Hl; subst. apply H5; [constructor | assumption].
    + rewrite E.
      destruct (IH (g ++ [l])) as (gs & glast & H1 & H2 & H3 & H4 & H5).
      exists gs, glast. split; [exact H1|]. split; [exact H2|].
      split; [rewrite H3, <- app_assoc; reflexivity|]. split; [exact H4|].
      intros Hg Hl. inversion Hl; subst. apply H5; [|assumption].
      apply Forall_app. split; [exact Hg | now repeat constructor].
Qed.

Lemma pages_of_groups (lines : list pystr) :
  Forall (fun s => s <> []) lines ->
  exists groups,
    pages_of lines = map joined groups
    /\ List.concat groups = lines
    /\ Forall (fun x => x <> []) groups.
Proof.
  intros Hl. unfold pages_of.
  destruct (flushed_groups lines []) as (gs & glast & H1 & H2 & H3 & H4 & H5).
  simpl in H1, H2, H3. rewrite H1, H2.
  specialize (H5 ltac:(constructor) Hl).
  destruct glast as [|s glast].
  - exists gs. simpl. rewrite !app_nil_r in *. auto.
  - assert ((0 <? len (joined (s :: glast))) = true) as ->.
    { apply Z.ltb_lt. apply concat_nonempty; [discriminate | exact H5]. }
    exists (gs ++ [s :: glast]).
    rewrite map_app, concat_app. simpl. rewrite app_nil_r.
    repeat split; auto.
    apply Forall_app. split; [exact H4 | repeat constructor; discriminate].
Qed.

Lemma index_lines_nonempty (w : World) (l : list Issue) : forall i,
  Forall (fun s => s <> []) (index_lines (index_line w) i l).
Proof.
  induction l as [|x l IH]; intros i; simpl; constructor; [|apply IH].
  pose proof (index_line_long w i x) as H. pose proof (len_nonneg (name x)).
  intros E. rewrite E in H. unfold len in H at 2. simpl in H. lia.
Qed.

(** X3.  In a rebuild in which every send goes through, every page is a
    run of consecutive whole lines: the lines of the issues, in store
    order, cut into non-empty groups, one page per group.  No line is
    split, dropped or repeated. *)
Theorem refresh_pages_are_whole_lines (w : World) :
  send_faults w = [] ->
  exists (pages : list Message) (groups : list (list pystr)),
    channel (snd (refresh_common_issues w))
    = purge (old_list w) (channel w) ++ pages
    /\ map page_text pages = map joined groups
    /\ List.concat groups = index_lines (index_line w) 0 (issues w)
    /\ Forall (fun g => g <> []) groups.
Proof.
  intros Hf. rewrite (refresh_ok w Hf).
  destruct (pages_of_groups (index_lines (index_line w) 0 (issues w))
              (index_lines_nonempty w (issues w) 0)) as (groups & H1 & H2 & H3).
  exists (page_messages (u "Table of Contents") 0 (next_msg w)
            (pages_of (index_lines (index_line w) 0 (issues w)))), groups.
  split; [reflexivity|]. rewrite page_messages_text. auto.
Qed.

Lemma page_messages_title (ps : list pystr) : forall (t : pystr) (p n : N),
  map page_title (page_messages t p n ps)
  = match ps with
    | [] => []
    | _ :: r => t :: map (fun _ => []) r
    end.
Proof.
  destruct ps as [|d ps]; intros t p n; [reflexivity|].
  simpl. f_equal. generalize (N.succ p), (N.succ n).
  induction ps as [|d' ps IH]; intros p' n'; [reflexivity|].
  simpl. f_equal. apply IH.
Qed.

Lemma page_messages_ids (ps : list pystr) : forall (t : pystr) (p n : N),
  map msg_id (page_messages t p n ps)
  = map (fun k => (n + N.of_nat k)%N) (seq 0 (length ps)).
Proof.
  induction ps as [|d ps IH]; intros t p n; [reflexivity|].
  simpl length. rewrite <- cons_seq. simpl map. rewrite IH. f_equal.
  - change (N.of_nat 0) with 0%N. now rewrite N.add_0_r.
  - rewrite <- (seq_shift (length ps) 0), map_map. apply map_ext. intros k.
    rewrite Nat2N.inj_succ. lia.
Qed.

Lemma page_messages_blank (ps : list pystr) : forall (t : pystr) (p n : N),
  map (fun _ : Message => @nil N) (page_messages t p n ps)
  = map (fun _ => []) ps.
Proof. induction ps; intros; simpl; [reflexivity | now rewrite IHps]. Qed.

(** X4.  In a rebuild in which every send goes through, the first page
    is titled "Table of Contents" and every later page has an empty
    title; the pages carry the next ids in order. *)
Theorem refresh_page_titles (w : World) :
  send_faults w = [] ->
  exists pages : list Message,
    channel (snd (refresh_common_issues w))
    = purge (old_list w) (channel w) ++ pages
    /\ map page_title pages
       = match pages with
         | [] => []
         | _ :: r => u "Table of Contents" :: map (fun _ => []) r
         end
    /\ map msg_id pages
       = map (fun k => (next_msg w + N.of_nat k)%N) (seq 0 (length pages)).
Proof.
  intros Hf. rewrite (refresh_ok w Hf).
  set (ps := pages_of (index_lines (index_line w) 0 (issues w))).
  exists (page_messages (u "Table of Contents") 0 (next_msg w) ps).
  split; [reflexivity|].
  rewrite page_messages_title, page_messages_ids, page_messages_length.
  split; [|reflexivity]. destruct ps as [|d ps]; [reflexivity|].
  simpl. now rewrite page_messages_blank.
Qed.


(** ** More on the presenter *)

Lemma plain_no_token (lbl : pystr) :
  plain lbl -> re_search emoji_re lbl = None.
Proof.
  intros Hp. destruct (re_search emoji_re lbl) as [tok|] eqn:Hs; [|reflexivity].
  exfalso. apply re_search_some in Hs as (pre & post & -> & Htok & _).
  unfold plain in Hp. apply Forall_app in Hp as [_ Hp].
  apply Forall_app in Hp as [Hp _].
  apply emoji_token_shape in Htok as [(c & -> & Hc)|(mid & ->)];
    inversion Hp as [|? ? [H1 H2] ?]; subst; [lia | congruence].
Qed.

Lemma render_button_url (p : pystr * pystr) : url (render_button p) = snd p.
Proof. unfold render_button. now destruct (re_search _ _). Qed.

(** X5.  [prepare_issue_view] raises [ValueError] exactly for an issue
    with more than 25 button links, and the view is missing exactly when
    the issue has no button link.  Otherwise, with 1 to 25 links, it
    holds one button per link, in order, each with the url of its link;
    and a button whose label has neither "<" nor a supplementary character
    shows that label as it is, surrounding blanks included, with no
    icon. *)
Theorem prepare_issue_view_buttons (issue : Issue) :
  (prepare_issue_view issue = Raise ValueError
   <-> (25 < length (button_links issue))%nat)
  /\ (prepare_issue_view issue = Ok None <-> button_links issue = [])
  /\ forall bs, prepare_issue_view issue = Ok (Some bs) ->
       (1 <= length (button_links issue) <= 25)%nat
       /\ map url bs = map snd (button_links issue)
       /\ forall (k : nat) (lbl link : pystr),
            button_links issue !! k = Some (lbl, link) -> plain lbl ->
            bs !! k = Some {| label := lbl; url := link; emoji := None |}.
Proof.
  rewrite prepare_issue_view_spec.
  destruct (length (button_links issue) <=? 25)%nat eqn:E.
  - apply Nat.leb_le in E. split; [|split].
    + split; [discriminate | lia].
    + destruct (button_links issue); split; congruence.
    + intros bs H.
      assert (Hbs : bs = map render_button (button_links issue)
                    /\ button_links issue <> [])
        by (destruct (button_links issue); split; congruence).
      destruct Hbs as [-> Hne]. clear H. split; [|split].
      * destruct (button_links issue); [contradiction | simpl in *; lia].
      * rewrite map_map. apply map_ext. apply render_button_url.
      * intros k lbl link Hk Hp.
        change (map render_button (button_links issue))
          with (render_button <$> button_links issue).
        rewrite list_lookup_fmap, Hk. simpl. f_equal.
        unfold render_button. simpl. now rewrite (plain_no_token lbl Hp).
  - apply Nat.leb_gt in E. split; [|split].
    + split; [intros _; exact E | reflexivity].
    + split; [discriminate|]. intros H. rewrite H in E. simpl in E. lia.
    + discriminate.
Qed.

(** X6.  The embed of an issue refers to the attachment sent with it:
    when the image of the issue reads, the file is named image.gif for
    the content type image/gif and image.png for any other, and the image
    of the embed is the attachment of that name; when it does not read,
    there is neither file nor image. *)
Theorem embed_image_is_the_attachment (w : World) (issue : Issue) (c : Z) :
  color issue = Some c ->
  exists e,
    prepare_issue_embed w issue = Ok e
    /\ match discord_file w issue with
       | Some f =>
         image_read w issue = Some (file_data f)
         /\ image_url e = Some (u "attachment://" ++ filename f)
         /\ filename f
            = (if is_gif (image_content_type w issue)
               then u "image.gif" else u "image.png")
       | None => image_read w issue = None /\ image_url e = None
       end.
Proof.
  intros Hc. unfold prepare_issue_embed, discord_file. rewrite Hc. simpl.
  eexists. split; [reflexivity|]. simpl.
  destruct (image_read w issue) as [data|]; [|auto]. simpl.
  destruct (is_gif _); auto.
Qed.


(** ** More on the import *)

Lemma split_on_cons (sep : N) (s : pystr) : forall cur : pystr,
  exists p ps, split_on sep cur s = p :: ps.
Proof.
  induction s as [|c s IH]; intros cur; simpl; [eauto|].
  destruct (N.eqb c sep); [eauto | apply IH].
Qed.

(** [sep.join(s.split(sep))] is [s]. *)
Lemma join_split (sep : N) (s : pystr) : forall cur : pystr,
  join [sep] (split_on sep cur s) = cur ++ s.
Proof.
  induction s as [|c s IH]; intros cur; simpl.
  - now rewrite app_nil_r.
  - destruct (N.eqb_spec c sep) as [->|Hc].
    + specialize (IH []). simpl in IH.
      destruct (split_on_cons sep s []) as (q & ps & E). rewrite E in *.
      change (join [sep] (cur :: q :: ps))
        with (cur ++ [sep] ++ join [sep] (q :: ps)).
      now rewrite IH.
    + rewrite IH, <- app_assoc. reflexivity.
Qed.

(** The tag the import reads in a footer made by the presenter is the tag
    the presenter wrote. *)
Lemma tag_round_trip (tag : pystr) :
  join (u " ") (drop 2 (split_on 32 [] (u "Submitted by " ++ tag))) = tag.
Proof.
  change (split_on 32 [] (u "Submitted by " ++ tag))
    with (u "Submitted" :: u "by" :: split_on 32 [] tag).
  simpl drop. apply (join_split 32 tag []).
Qed.

Lemma startswith_app (p s : pystr) : startswith (p ++ s) p = true.
Proof.
  induction p as [|c p IH]; simpl; [now destruct s|].
  now rewrite N.eqb_refl.
Qed.

Lemma find_replace_by_name (i : Issue) (l : list Issue) (old : Issue) :
  List.find (fun x => str_eqb (name x) (name i)) l = Some old ->
  List.find (fun x => str_eqb (name x) (name i)) (replace_by_name i l) = Some i
  /\ length (replace_by_name i l) = length l.
Proof.
  induction l as [|x l IH]; simpl; [discriminate|].
  destruct (str_eqb (name x) (name i)) eqn:E.
  - intros _. simpl. now rewrite str_eqb_refl.
  - intros H. simpl. rewrite E. destruct (IH H) as [H1 H2]. now rewrite H2.
Qed.

Lemma find_app_new (i : Issue) (l : list Issue) :
  List.find (fun x => str_eqb (name x) (name i)) l = None ->
  List.find (fun x => str_eqb (name x) (name i)) (l ++ [i]) = Some i.
Proof.
  induction l as [|x l IH]; simpl.
  - now rewrite str_eqb_refl.
  - destruct (str_eqb (name x) (name i)); [discriminate | exact IH].
Qed.

(** What [import_one] does with a message it converts, when the image,
    if any, is not served, the message has at most 25 link buttons and
    the send goes through. *)
Lemma import_one_ok (m : Message) (e : Embed) (rest : list Embed)
    (ft : pystr) (c : Z) (w : World) :
  author_bot m = true ->
  embeds m = e :: rest ->
  footer_text e = Some ft ->
  startswith ft (u "Submitted by") = true ->
  embed_color e = Some c ->
  image_not_served w e ->
  (length (buttons_of (components m)) <= 25)%nat ->
  hd false (send_faults w) = false ->
  In m (channel w) ->
  exists (w' : World) (post : Message) (e' : Embed),
    import_one m w = (Ok tt, w')
    /\ issues w'
       = match List.find (fun x => str_eqb (name x) (title e)) (issues w) with
         | Some _ => replace_by_name (imported m e c (next_msg w)) (issues w)
         | None => issues w ++ [imported m e c (next_msg w)]
         end
    /\ channel w' = without (msg_id m) (channel w ++ [post])
    /\ msg_id post = next_msg w
    /\ embeds post = [e']
    /\ prepare_issue_embed w (imported m e c (next_msg w)) = Ok e'
    /\ gridfs w' = gridfs w
    /\ next_msg w' = N.succ (next_msg w).
Proof.
  intros Hbot He Hft Hs Hc Hhttp Hlinks Hsend Hin.
  unfold import_one. rewrite Hbot, He, Hft, Hs. cbn [negb].
  destruct ft as [|f0 ft]; [discriminate Hs|].
  assert (Himg : (match image_url e with
                  | Some (x :: link) =>
                    get_discord_file_from_url (x :: link) ;; ret tt
                  | _ => ret tt
                  end) w = (Ok tt, w)).
  { destruct (image_url e) as [[|x link]|] eqn:Hurl; try reflexivity.
    unfold bind, get_discord_file_from_url.
    destruct (Hhttp (x :: link) Hurl ltac:(discriminate))
      as (status & body & -> & Hst).
    apply Z.eqb_neq in Hst. now rewrite Hst. }
  unfold bind at 1. rewrite Himg.
  unfold bind at 1, get_issue. unfold bind at 1, lift. rewrite Hc.
  unfold bind at 1, get_world. unfold bind at 1.
  unfold prepare_issue_embed at 1. simpl Color_value. cbv iota.
  unfold bind at 1. rewrite prepare_issue_view_spec. cbn [button_links].
  apply Nat.leb_le in Hlinks. rewrite Hlinks.
  unfold bind at 1, channel_send.
  assert (Hf : match send_faults w with true :: _ => False | _ => True end).
  { destruct (send_faults w) as [|[] f]; simpl in Hsend; [exact I | discriminate | exact I]. }
  set (iss0 := {| name := title e; content := description e;
                  added_date := timestamp e; added_by_id := 0;
                  added_by_tag := join (u " ") (drop 2 (split_on 32 [] (f0 :: ft)));
                  image := None; button_links := buttons_of (components m);
                  color := Some c; panic_string := []; message_id := 0 |}).
  assert (Hiss : set_message_id iss0 (next_msg w) = imported m e c (next_msg w)).
  { unfold imported, set_message_id, iss0. simpl. now rewrite Hft. }
  set (e' := {| title := name iss0; description := content iss0;
                timestamp := added_date iss0;
                embed_color := Some (if c =? 0 then hash_color (name iss0) else c);
                footer_text := Some (u "Submitted by " ++ added_by_tag iss0);
                image_url := match image_read w iss0 with
                             | Some _ => Some (if is_gif (image_content_type w iss0)
                                               then u "attachment://image.gif"
                                               else u "attachment://image.png")
                             | None => None
                             end |}).
  set (post := {| msg_id := next_msg w; author_bot := true; embeds := [e'];
                  components :=
                    rows_of_view
                      match buttons_of (components m) with
                      | [] => None
                      | _ :: _ =>
                        Some (map render_button (buttons_of (components m)))
                      end;
                  attachments := [] |}).
  assert (Hdel : forall w0, channel w0 = channel w ++ [post] ->
            delete_message m w0
            = (Ok tt, with_channel w0 (without (msg_id m) (channel w0)))).
  { intros w0 Hw0. unfold delete_message.
    assert (existsb (fun x => N.eqb (msg_id x) (msg_id m)) (channel w0) = true)
      as ->; [|reflexivity].
    apply existsb_exists. exists m. rewrite Hw0. split.
    - apply in_or_app. now left.
    - apply N.eqb_refl. }
  exists (match List.find (fun x => str_eqb (name x) (title e)) (issues w) with
          | Some _ =>
            with_channel
              (with_issues
                 (with_sent w (channel w ++ [post]) (N.succ (next_msg w))
                    (tail (send_faults w)))
                 (replace_by_name (imported m e c (next_msg w)) (issues w)))
              (without (msg_id m) (channel w ++ [post]))
          | None =>
            with_channel
              (with_issues
                 (with_sent w (channel w ++ [post]) (N.succ (next_msg w))
                    (tail (send_faults w)))
                 (issues w ++ [imported m e c (next_msg w)]))
              (without (msg_id m) (channel w ++ [post]))
          end), post, e'.
  split.
  - destruct (send_faults w) as [|[] f] eqn:Hsf; try contradiction;
      simpl; rewrite Hiss;
      destruct (List.find _ (issues w)); unfold bind;
      simpl; rewrite Hdel by reflexivity; reflexivity.
  - assert (He' : prepare_issue_embed w (imported m e c (next_msg w)) = Ok e').
    { rewrite <- Hiss. reflexivity. }
    destruct (List.find _ (issues w)); repeat split; try reflexivity; exact He'.
Qed.

(** X7.  What [import_one] stores for a message it converts, when the
    embed has no image or the request for it is answered with a status
    other than 200, the message has at most 25 link buttons, each with a
    label, and the send goes through: looking up the title of the embed
    then yields the issue made of the message, under the id of its new
    post.  An issue of that name that was in the store is replaced where
    it stood, the store keeping its length; otherwise the new issue is
    appended.  The message converted is gone from the channel. *)
Theorem import_one_stores (m : Message) (e : Embed) (rest : list Embed)
    (ft : pystr) (c : Z) (w : World) :
  author_bot m = true ->
  embeds m = e :: rest ->
  footer_text e = Some ft ->
  startswith ft (u "Submitted by") = true ->
  embed_color e = Some c ->
  image_not_served w e ->
  (length (buttons_of (components m)) <= 25)%nat ->
  labelled m ->
  hd false (send_faults w) = false ->
  In m (channel w) ->
  fst (import_one m w) = Ok tt
  /\ List.find (fun x => str_eqb (name x) (title e))
       (issues (snd (import_one m w)))
     = Some (imported m e c (next_msg w))
  /\ (forall old,
        List.find (fun x => str_eqb (name x) (title e)) (issues w) = Some old ->
        length (issues (snd (import_one m w))) = length (issues w))
  /\ (List.find (fun x => str_eqb (name x) (title e)) (issues w) = None ->
      issues (snd (import_one m w))
      = issues w ++ [imported m e c (next_msg w)])
  /\ ~ In m (channel (snd (import_one m w))).
Proof.
  intros Hbot He Hft Hs Hc Hhttp Hlinks _ Hsend Hin.
  destruct (import_one_ok m e rest ft c w Hbot He Hft Hs Hc Hhttp Hlinks
              Hsend Hin)
    as (w' & post & e' & Hrun & Hiss & Hch & _).
  rewrite Hrun. simpl fst. simpl snd. rewrite Hiss, Hch.
  split; [reflexivity|].
  change (title e) with (name (imported m e c (next_msg w))).
  destruct (List.find _ (issues w)) as [old|] eqn:Hfind.
  - destruct (find_replace_by_name (imported m e c (next_msg w)) (issues w)
                old Hfind) as [H1 H2].
    repeat split; auto; try discriminate.
    intros H. apply in_without in H as [_ H]. congruence.
  - repeat split; auto; try discriminate.
    + exact (find_app_new (imported m e c (next_msg w)) (issues w) Hfind).
    + intros H. apply in_without in H as [_ H]. congruence.
Qed.

Lemma prepare_issue_embed_fields (w : World) (i : Issue) (e : Embed) :
  prepare_issue_embed w i = Ok e ->
  title e = name i /\ description e = content i
  /\ timestamp e = added_date i
  /\ footer_text e = Some (u "Submitted by " ++ added_by_tag i)
  /\ exists c, embed_color e = Some c.
Proof.
  unfold prepare_issue_embed. destruct (Color_value (color i)) as [v|x].
  - intros [= <-]. cbn [title description timestamp footer_text embed_color].
    repeat split. eexists. reflexivity.
  - discriminate.
Qed.

(** X8.  Importing the post of an issue gives the issue back, its image
    apart: for a message with at most 25 link buttons, each with a label,
    whose first embed is the embed the presenter makes of an issue, the
    embed having no image or the request for it being answered with a
    status other than 200, the issue the import stores under that name
    has the same name, content, date and author tag, the colour of the
    embed, the author id 0 and no image. *)
Theorem import_of_rendered_issue (i : Issue) (w0 : World) (e : Embed)
    (m : Message) (rest : list Embed) (w : World) :
  prepare_issue_embed w0 i = Ok e ->
  author_bot m = true ->
  embeds m = e :: rest ->
  image_not_served w e ->
  (length (buttons_of (components m)) <= 25)%nat ->
  labelled m ->
  hd false (send_faults w) = false ->
  In m (channel w) ->
  exists i',
    List.find (fun x => str_eqb (name x) (name i))
      (issues (snd (import_one m w))) = Some i'
    /\ name i' = name i
    /\ content i' = content i
    /\ added_date i' = added_date i
    /\ added_by_tag i' = added_by_tag i
    /\ color i' = embed_color e
    /\ added_by_id i' = 0%N
    /\ image i' = None.
Proof.
  intros He Hbot Hm Hhttp Hlinks _ Hsend Hin.
  destruct (prepare_issue_embed_fields w0 i e He)
    as (Ht & Hd & Hts & Hft & c & Hc).
  destruct (import_one_ok m e rest (u "Submitted by " ++ added_by_tag i)
              c w Hbot Hm Hft
              (startswith_app (u "Submitted by") (u " " ++ added_by_tag i))
              Hc Hhttp Hlinks Hsend Hin)
    as (w' & post & e' & Hrun & Hiss & _).
  rewrite Hrun. simpl snd. rewrite Hiss.
  exists (imported m e c (next_msg w)).
  split.
  - rewrite <- Ht.
    destruct (List.find _ (issues w)) as [old|] eqn:Hfind.
    + exact (proj1 (find_replace_by_name (imported m e c (next_msg w))
                      (issues w) old Hfind)).
    + exact (find_app_new (imported m e c (next_msg w)) (issues w) Hfind).
  - unfold imported. cbn [name content added_date added_by_tag color
                          added_by_id image].
    rewrite Hft, Hc. repeat split; auto. apply tag_round_trip.
Qed.

Lemma import_one_unqualified (m : Message) (w : World) :
  qualifies m = false -> import_one m w = (Ok tt, w).
Proof.
  unfold qualifies, import_one. destruct (author_bot m); [|reflexivity].
  simpl. destruct (embeds m) as [|e rest]; [reflexivity|].
  destruct (footer_text e) as [[|f0 ft]|]; try reflexivity.
  intros ->. reflexivity.
Qed.

Lemma for_each_idle {A} (l : list A) (body : A -> M unit) (w : World) :
  Forall (fun x => body x w = (Ok tt, w)) l -> for_each l body w = (Ok tt, w).
Proof.
  induction l as [|x l IH]; intros H; simpl; [reflexivity|].
  inversion H; subst. unfold bind.
  match goal with Hx : body x w = _ |- _ => rewrite Hx end. now apply IH.
Qed.

(** X9.  A scan of a channel that holds no message sent by a bot with a
    first embed whose footer starts with "Submitted by" converts nothing:
    it leaves the world a mere rebuild of the index leaves, the store is
    as it was, and every message that is not an old index page is still
    in the channel. *)
Theorem do_import_without_candidates (w : World) :
  Forall (fun m => qualifies m = false) (channel w) ->
  snd (do_import w) = snd (refresh_common_issues w)
  /\ issues (snd (do_import w)) = issues w
  /\ forall m, In m (channel w) -> ~ In (msg_id m) (old_list w) ->
               In m (channel (snd (do_import w))).
Proof.
  intros H.
  assert (E : snd (do_import w) = snd (refresh_common_issues w)).
  { unfold do_import, bind at 1, get_world. unfold bind at 1.
    rewrite for_each_idle.
    - unfold bind. now destruct (refresh_common_issues w) as [[[]|e] w'].
    - eapply Forall_impl; [exact H|]. simpl. intros m Hm.
      now apply import_one_unqualified. }
  rewrite E. split; [reflexivity|]. split; [apply refresh_issues|].
  intros m Hin Hid. destruct (refresh_channel_fresh w) as (extra & Hc & _).
  rewrite Hc. apply in_or_app. left. now apply in_purge.
Qed.


(** ** More on the reindex *)

Lemma fold_guild (l : list Issue) : forall w : World,
  guild_id (fold_left reindex_step l w) = guild_id w
  /\ channel_common_issues (fold_left reindex_step l w)
     = channel_common_issues w.
Proof.
  induction l as [|x l IH]; intros w; simpl; [now split|].
  destruct (IH (reindex_step w x)) as [-> ->]. now split.
Qed.

Lemma index_lines_imap (line : nat -> Issue -> pystr)
    (f : nat -> Issue -> Issue) (l : list Issue) : forall i,
  index_lines line i (imap (fun k => f (i + k)%nat) l)
  = imap (fun k x => line (i + k)%nat (f (i + k)%nat x)) l.
Proof.
  induction l as [|x l IH]; intros i; [reflexivity|].
  rewrite !imap_cons. simpl index_lines. rewrite Nat.add_0_r. f_equal.
  transitivity (index_lines line (S i) (imap (fun k => f (S i + k)%nat) l)).
  - f_equal. apply imap_ext. intros k y _. simpl.
    now replace (i + S k)%nat with (S (i + k)) by lia.
  - rewrite IH. apply imap_ext. intros k y _. simpl.
    now replace (i + S k)%nat with (S (i + k)) by lia.
Qed.

(** The channel a reindex leaves when every send goes through. *)
Lemma do_reindex_channel (w : World) :
  send_faults w = [] ->
  Forall renders (issues w) ->
  Forall (fun i => (message_id i < next_msg w)%N) (issues w) ->
  exists extra,
    do_reindex w = (Ok (u "Reindexed!"), refreshed (reindexed w))
    /\ channel (refreshed (reindexed w))
       = purge (old_list w)
           (purge (map message_id (issues w)) (channel w)
            ++ reposts w (next_msg w) (issues w))
         ++ extra
    /\ Forall (fun m => (next_msg w <= msg_id m)%N) extra.
Proof.
  intros Hf Hc Hp. eexists. split; [now apply do_reindex_ok|].
  unfold refreshed, reindexed. simpl channel.
  rewrite fold_old_list, (fold_channel _ _ Hp). split; [reflexivity|].
  rewrite fold_next_msg.
  generalize (pages_of (index_lines
    (index_line (fold_left reindex_step (issues w) w)) 0
    (issues (fold_left reindex_step (issues w) w)))).
  intros ps.
  assert (G : forall (ps : list pystr) (t : pystr) (p n : N),
             (next_msg w <= n)%N ->
             Forall (fun m => (next_msg w <= msg_id m)%N)
               (page_messages t p n ps)).
  { clear. induction ps as [|d ps IH]; intros t p n Hn; simpl; constructor.
    - exact Hn.
    - apply IH. lia. }
  apply G. lia.
Qed.

(** X10.  A reindex in which every send goes through, on a store whose
    issues render (each has a colour and at most 25 button links) and
    have recorded ids older than the ids still to be given out, returns
    and leaves no message under the recorded id of an issue; a message
    that was neither the post of an issue nor an index page is still in
    the channel; the stored images are untouched. *)
Theorem do_reindex_removes_old_posts (w : World) :
  send_faults w = [] ->
  Forall renders (issues w) ->
  Forall (fun i => (message_id i < next_msg w)%N) (issues w) ->
  fst (do_reindex w) = Ok (u "Reindexed!")
  /\ (forall m, In m (channel (snd (do_reindex w))) ->
        ~ In (msg_id m) (map message_id (issues w)))
  /\ (forall m, In m (channel w) ->
        ~ In (msg_id m) (map message_id (issues w)) ->
        ~ In (msg_id m) (old_list w) ->
        In m (channel (snd (do_reindex w))))
  /\ gridfs (snd (do_reindex w)) = gridfs w.
Proof.
  intros Hf Hc Hp.
  destruct (do_reindex_channel w Hf Hc Hp) as (extra & Hrun & Hch & Hex).
  rewrite Hrun. simpl fst. simpl snd. split; [reflexivity|].
  assert (Hold : forall id, In id (map message_id (issues w)) ->
                            (id < next_msg w)%N).
  { intros id Hin. apply in_map_iff in Hin as (i & <- & Hin).
    rewrite List.Forall_forall in Hp. now apply Hp. }
  split; [|split].
  - intros m Hin Hid. rewrite Hch in Hin. apply in_app_or in Hin as [Hin|Hin].
    + apply in_purge in Hin as [Hin _].
      apply in_app_or in Hin as [Hin|Hin].
      * apply in_purge in Hin as [_ Hin]. contradiction.
      * pose proof (reposts_ids w (issues w) (next_msg w)) as Hr.
        rewrite List.Forall_forall in Hr. apply Hr in Hin.
        apply Hold in Hid. lia.
    + rewrite List.Forall_forall in Hex. apply Hex in Hin.
      apply Hold in Hid. lia.
  - intros m Hin H1 H2. rewrite Hch. apply in_or_app. left.
    apply in_purge. split; [|exact H2]. apply in_or_app. left.
    apply in_purge. now split.
  - unfold refreshed, reindexed. simpl. apply fold_gridfs.
Qed.

(** X11.  The index a reindex rebuilds at its end is made of the records
    as the loop has left them: when every send goes through, on a store
    with unique names whose issues render (each has a colour and at most
    25 button links) and have recorded ids older than the ids still to be
    given out, the pages posted after the new posts of the issues hold,
    cut into whole lines, the line of each issue in store order with the
    link to the message posted for it in this run. *)
Theorem do_reindex_index_links_new_posts (w : World) :
  send_faults w = [] ->
  Forall renders (issues w) ->
  Forall (fun i => (message_id i < next_msg w)%N) (issues w) ->
  List.NoDup (map name (issues w)) ->
  exists (pages : list Message) (groups : list (list pystr)),
    channel (snd (do_reindex w))
    = purge (old_list w)
        (purge (map message_id (issues w)) (channel w)
         ++ reposts w (next_msg w) (issues w))
      ++ pages
    /\ issues_list_msg (snd (do_reindex w)) = Some (map msg_id pages)
    /\ map page_text pages = map joined groups
    /\ List.concat groups
       = imap (fun k i =>
                 index_line w k
                   (set_message_id i (next_msg w + N.of_nat k)))
           (issues w).
Proof.
  intros Hf Hc Hp Hnd. rewrite (do_reindex_ok w Hf Hc). simpl snd.
  set (w1 := reindexed w).
  destruct (pages_of_groups (index_lines (index_line w1) 0 (issues w1))
              (index_lines_nonempty w1 (issues w1) 0)) as (groups & H1 & H2 & _).
  exists (page_messages (u "Table of Contents") 0 (next_msg w1)
            (pages_of (index_lines (index_line w1) 0 (issues w1)))), groups.
  split; [|split; [reflexivity|split]].
  - unfold refreshed. simpl channel. fold w1. unfold w1, reindexed.
    now rewrite fold_old_list, (fold_channel _ _ Hp).
  - rewrite page_messages_text. exact H1.
  - rewrite H2. unfold w1, reindexed.
    rewrite (fold_issues (issues w) [] w eq_refl Hnd). simpl app.
    assert (E : index_line (fold_left reindex_step (issues w) w)
                = index_line w).
    { unfold index_line. destruct (fold_guild (issues w) w) as [-> ->].
      reflexivity. }
    rewrite E.
    exact (index_lines_imap (index_line w)
             (fun k i => set_message_id i (next_msg w + N.of_nat k))
             (issues w) 0).
Qed.


(** ** More on [add] and [edit] *)

(** *** Where [BadArgument] comes from *)

Lemma never_bad_ret {A} (a : A) : never_bad (ret a).
Proof. intros w msg. discriminate. Qed.

Lemma never_bad_get_world : never_bad get_world.
Proof. intros w msg. discriminate. Qed.

Lemma never_bad_lift {A} (r : Res A) : not_bad r -> never_bad (lift r).
Proof. intros H w. exact H. Qed.

Lemma never_bad_bind {A B} (c : M A) (k : A -> M B) :
  never_bad c -> (forall a, never_bad (k a)) -> never_bad (bind c k).
Proof.
  intros Hc Hk w msg. unfold bind. specialize (Hc w msg).
  destruct (c w) as [[a|e] w1]; simpl in *.
  - apply Hk.
  - intros [= ->]. now apply Hc.
Qed.

Lemma never_bad_try_pass (c : M unit) : never_bad (try_pass c).
Proof. intros w msg. unfold try_pass. destruct (c w) as [[[]|e] w1]; discriminate. Qed.

Lemma never_bad_for_each {A} (l : list A) (body : A -> M unit) :
  (forall x, never_bad (body x)) -> never_bad (for_each l body).
Proof.
  intros H. induction l as [|x l IH]; simpl.
  - apply never_bad_ret.
  - apply never_bad_bind; [apply H | intros _; exact IH].
Qed.

Lemma never_bad_channel_send file e v : never_bad (channel_send file e v).
Proof.
  intros w msg. unfold channel_send.
  destruct (send_faults w) as [|[] f]; discriminate.
Qed.

Lemma never_bad_fetch_message id : never_bad (fetch_message id).
Proof. intros w msg. unfold fetch_message. destruct (List.find _ _); discriminate. Qed.

Lemma never_bad_delete_message m : never_bad (delete_message m).
Proof. intros w msg. unfold delete_message. destruct (existsb _ _); discriminate. Qed.

Lemma never_bad_edit_message m a e v : never_bad (edit_message m a e v).
Proof. intros w msg. unfold edit_message. destruct (existsb _ _); discriminate. Qed.

Lemma never_bad_image_delete i : never_bad (image_delete i).
Proof. intros w msg. unfold image_delete. destruct (image i); discriminate. Qed.

Lemma never_bad_image_put i data ct : never_bad (image_put i data ct).
Proof. intros w msg. unfold image_put. destruct (image i); discriminate. Qed.

Lemma never_bad_toc_loop line l : forall i st, never_bad (toc_loop line i l st).
Proof.
  induction l as [|x l IH]; intros i st; simpl.
  - apply never_bad_ret.
  - destruct (3072 <? _).
    + apply never_bad_bind; [apply never_bad_channel_send|]. intros m. apply IH.
    + apply IH.
Qed.

Lemma never_bad_refresh : never_bad refresh_common_issues.
Proof.
  unfold refresh_common_issues.
  apply never_bad_bind.
  { unfold delete_old_list. apply never_bad_bind; [apply never_bad_get_world|].
    intros w. destruct (issues_list_msg w).
    - apply never_bad_for_each. intros id. apply never_bad_try_pass.
    - apply never_bad_ret. }
  intros _. apply never_bad_bind; [apply never_bad_get_world|]. intros w.
  apply never_bad_bind; [apply never_bad_toc_loop|]. intros st.
  destruct (0 <? _).
  - apply never_bad_bind; [apply never_bad_channel_send|]. intros m w1 msg.
    discriminate.
  - intros w1 msg. discriminate.
Qed.

Lemma not_bad_prepare_issue_embed (w : World) (i : Issue) :
  not_bad (prepare_issue_embed w i).
Proof.
  intros msg. unfold prepare_issue_embed, Color_value.
  destruct (color i); discriminate.
Qed.

Lemma not_bad_pick_color (n : pystr) (c : option pystr) :
  not_bad (pick_color n c).
Proof.
  intros msg. unfold pick_color. destruct c as [[|x s]|]; try discriminate.
  destruct (Color_from_str _); discriminate.
Qed.

Lemma not_bad_prepare_assigned_embed (c : Assigned) (w : World) (i : Issue) :
  not_bad (prepare_assigned_embed c w i).
Proof.
  destruct c; simpl; [apply not_bad_prepare_issue_embed|].
  intros msg. discriminate.
Qed.

Lemma not_bad_prepare_issue_view (i : Issue) : not_bad (prepare_issue_view i).
Proof.
  intros msg. rewrite prepare_issue_view_spec.
  destruct (length (button_links i) <=? 25)%nat; discriminate.
Qed.

Lemma never_bad_post_issue (i : Issue) : never_bad (post_issue i).
Proof.
  unfold post_issue. apply never_bad_bind; [apply never_bad_get_world|].
  intros w. apply never_bad_bind.
  - apply never_bad_lift, not_bad_prepare_issue_embed.
  - intros e. apply never_bad_bind.
    + apply never_bad_lift, not_bad_prepare_issue_view.
    + intros v. apply never_bad_channel_send.
Qed.

(** X12.  [add] raises [BadArgument] exactly when an issue of that name
    is in the store, or the attachment has a content type outside the
    four image types, or a size over 8,000,000 bytes (a size of exactly
    8,000,000 passes); it then leaves the world as it was.  Whatever else
    fails in [add] is no [BadArgument]. *)
Theorem add_bad_argument (n : pystr) (img : option Attachment)
    (pk col : option pystr) (modal : option Issue) (w : World) :
  let rejected :=
    List.find (fun i => str_eqb (name i) n) (issues w) <> None
    \/ exists a, img = Some a
         /\ (is_image_type (att_content_type a) = false
             \/ 8000000 < att_size a) in
  (rejected ->
   exists msg, add n img pk col modal w = (Raise (BadArgument msg), w))
  /\ (~ rejected -> not_bad (fst (add n img pk col modal w))).
Proof.
  intros rejected. unfold rejected. clear rejected. split.
  - intros H. unfold add. unfold bind at 1, get_issue. cbv beta iota.
    destruct (List.find _ (issues w)) as [old|] eqn:Hfind; [now eexists|].
    destruct H as [H|(a & -> & H)]; [congruence|]. unfold bind at 1.
    destruct (is_image_type (att_content_type a)) eqn:Hty; cbn [negb];
      [|now eexists].
    destruct H as [H|H]; [discriminate|]. apply Z.ltb_lt in H. rewrite H.
    now eexists.
  - intros H. unfold add. unfold bind at 1, get_issue. cbv beta iota.
    destruct (List.find _ (issues w)) as [old|] eqn:Hfind;
      [exfalso; apply H; left; discriminate|].
    apply never_bad_bind.
    + destruct img as [a|]; [|apply never_bad_ret].
      destruct (is_image_type (att_content_type a)) eqn:Hty; cbn [negb].
      * destruct (8000000 <? att_size a) eqn:Hsz; [|apply never_bad_ret].
        exfalso. apply H. right. exists a. split; [reflexivity|]. right.
        now apply Z.ltb_lt.
      * exfalso. apply H. right. exists a. split; [reflexivity|]. now left.
    + intros _. destruct modal as [sub|]; [|apply never_bad_ret].
      apply never_bad_bind.
      { destruct img; [apply never_bad_image_put | apply never_bad_ret]. }
      intros i1. apply never_bad_bind; [apply never_bad_post_issue|].
      intros m. apply never_bad_bind;
        [apply never_bad_lift, not_bad_pick_color|].
      intros c. apply never_bad_bind; [intros w0 msg; discriminate|].
      intros _. apply never_bad_bind; [apply never_bad_refresh|].
      intros _. apply never_bad_bind; [apply never_bad_get_world|].
      intros w0. apply never_bad_bind;
        [apply never_bad_lift, not_bad_prepare_assigned_embed|].
      intros e. apply never_bad_bind;
        [apply never_bad_lift, not_bad_prepare_issue_view|].
      intros v. apply never_bad_ret.
Qed.

(** X13.  [edit] raises [BadArgument] exactly when no issue of that name
    is in the store, or the attachment has a size over 8,000,000 bytes;
    it then leaves the world as it was.  The content type of the
    attachment plays no part, and whatever else fails in [edit] is no
    [BadArgument]. *)
Theorem edit_bad_argument (n : pystr) (img : option Attachment)
    (pk col : option pystr) (modal : Issue -> option Issue) (w : World) :
  let rejected :=
    List.find (fun i => str_eqb (name i) n) (issues w) = None
    \/ exists a, img = Some a /\ 8000000 < att_size a in
  (rejected ->
   exists msg, edit n img pk col modal w = (Raise (BadArgument msg), w))
  /\ (~ rejected -> not_bad (fst (edit n img pk col modal w))).
Proof.
  intros rejected. unfold rejected. clear rejected. split.
  - intros H. unfold edit. unfold bind at 1, get_issue. cbv beta iota.
    destruct (List.find _ (issues w)) as [old|] eqn:Hfind; [|now eexists].
    destruct H as [H|(a & -> & H)]; [discriminate|]. unfold bind at 1.
    apply Z.ltb_lt in H. rewrite H. now eexists.
  - intros H. unfold edit. unfold bind at 1, get_issue. cbv beta iota.
    destruct (List.find _ (issues w)) as [old|] eqn:Hfind;
      [|exfalso; apply H; now left].
    apply never_bad_bind.
    + destruct img as [a|]; [|apply never_bad_image_delete].
      destruct (8000000 <? att_size a) eqn:Hsz.
      * exfalso. apply H. right. exists a. split; [reflexivity|].
        now apply Z.ltb_lt.
      * unfold image_replace. apply never_bad_bind;
          [apply never_bad_image_delete|].
        intros i1. apply never_bad_image_put.
    + intros i1. destruct (modal i1) as [sub|];
        [|intros w0 msg; discriminate].
      apply never_bad_bind; [apply never_bad_get_world|]. intros w0.
      apply never_bad_bind; [apply never_bad_lift, not_bad_pick_color|].
      intros c. apply never_bad_bind; [intros w1 msg; discriminate|].
      intros _. apply never_bad_bind; [apply never_bad_fetch_message|].
      intros m. apply never_bad_bind; [apply never_bad_get_world|].
      intros w1. apply never_bad_bind;
        [apply never_bad_lift, not_bad_prepare_assigned_embed|].
      intros e. apply never_bad_bind;
        [apply never_bad_lift, not_bad_prepare_issue_view|].
      intros v. apply never_bad_bind; [apply never_bad_edit_message|].
      intros _. apply never_bad_ret.
Qed.


(** *** What a successful [add] leaves *)

Lemma post_issue_ok (w : World) (i : Issue) :
  send_faults w = [] -> renders i ->
  post_issue i w
  = (Ok (repost w (next_msg w) i),
     with_sent w (channel w ++ [repost w (next_msg w) i])
       (N.succ (next_msg w)) []).
Proof.
  intros Hf Hr. unfold post_issue.
  unfold bind at 1, get_world. unfold bind at 1, lift. unfold repost.
  destruct (renders_ok w i Hr) as (e & v & -> & ->).
  unfold bind at 1.
  unfold channel_send. rewrite Hf. reflexivity.
Qed.

(** Without a colour argument the colour is the one of the name, as an
    [int]. *)
Lemma pick_color_absent (n : pystr) (col : option pystr) :
  or_empty col = [] -> pick_color n col = Ok (IntValue (hash_color n)).
Proof. destruct col as [[|x s]|]; simpl; (reflexivity || discriminate). Qed.

Lemma add_checks_pass (img : option Attachment) (w : World) :
  (forall a, img = Some a ->
     is_image_type (att_content_type a) = true /\ att_size a <= 8000000) ->
  (match img with
   | Some a =>
     if negb (is_image_type (att_content_type a))
     then raise (BadArgument (u "Attached file was not an image!"))
     else if 8000000 <? att_size a
     then raise (BadArgument (u "That image is too big!"))
     else ret tt
   | None => ret tt
   end) w = (Ok tt, w).
Proof.
  intros Himg. destruct img as [a|]; [|reflexivity].
  destruct (Himg a eq_refl) as [-> Hsz]. cbn [negb].
  assert ((8000000 <? att_size a) = false) as -> by (apply Z.ltb_ge; lia).
  reflexivity.
Qed.

(** A call of [add] whose colour is computed: everything is done; the
    follow-up fails when the colour assigned is a [Colour] object. *)
Lemma add_run (n : pystr) (img : option Attachment) (pk col : option pystr)
    (sub : Issue) (w : World) (c : Assigned) :
  List.find (fun i => str_eqb (name i) n) (issues w) = None ->
  (forall a, img = Some a ->
     is_image_type (att_content_type a) = true /\ att_size a <= 8000000) ->
  image sub = None ->
  renders sub ->
  pick_color n col = Ok c ->
  send_faults w = [] ->
  add n img pk col (Some sub) w
  = (match c with
     | IntValue _ => Ok (Followup (u "Added new issue!"))
     | ColourObject _ => Raise TypeError
     end,
     refreshed
       (with_issues
          (with_sent (add_put_world img w)
             (channel w
              ++ [repost (add_put_world img w) (next_msg w)
                    (add_put_issue img w sub)])
             (N.succ (next_msg w)) [])
          (issues w
           ++ [set_panic_color
                 (set_message_id (add_put_issue img w sub) (next_msg w))
                 (or_empty pk) (Some (assigned_value c))]))).
Proof.
  intros Hfind Himg Hnone Hcol Hpick Hf.
  unfold add. unfold bind at 1, get_issue. cbv beta iota. rewrite Hfind.
  unfold bind at 1.
  rewrite (add_checks_pass img w Himg). unfold bind at 1.
  assert (Hput : (match img with
                  | Some a => image_put sub (att_data a) (att_content_type a)
                  | None => ret sub
                  end) w = (Ok (add_put_issue img w sub), add_put_world img w)).
  { destruct img as [a|]; [|reflexivity].
    unfold image_put. rewrite Hnone. reflexivity. }
  rewrite Hput. unfold bind at 1.
  assert (Hf2 : send_faults (add_put_world img w) = [])
    by (destruct img; exact Hf).
  assert (Hc2 : renders (add_put_issue img w sub))
    by (destruct img; exact Hcol).
  rewrite (post_issue_ok _ _ Hf2 Hc2).
  assert (Hn : next_msg (add_put_world img w) = next_msg w)
    by (now destruct img).
  assert (Hch : channel (add_put_world img w) = channel w)
    by (now destruct img).
  assert (Hi : issues (add_put_world img w) = issues w)
    by (now destruct img).
  rewrite Hn, Hch.
  unfold bind at 1, lift. rewrite Hpick.
  unfold bind at 1, add_issue. unfold bind at 1.
  rewrite refresh_ok by reflexivity.
  unfold bind at 1, get_world. unfold bind at 1, lift.
  destruct c as [v|v].
  - unfold prepare_assigned_embed, prepare_issue_embed at 1.
    simpl Color_value. cbv iota.
    unfold bind at 1. rewrite prepare_issue_view_spec.
    cbn [button_links set_panic_color set_message_id].
    assert (Hl : (length (button_links (add_put_issue img w sub)) <=? 25)%nat
                 = true).
    { apply Nat.leb_le. destruct Hcol as [_ Hl]. now destruct img. }
    rewrite Hl.
    unfold ret. cbn [issues with_sent assigned_value]. rewrite Hi.
    reflexivity.
  - unfold prepare_assigned_embed.
    cbn [issues with_sent assigned_value]. rewrite Hi. reflexivity.
Qed.

(** X14.  A call of [add] for a new name without a colour argument, with
    a submitted issue that has a colour, at most 25 button links and no
    image yet, and an attachment that passes the checks, goes through
    when every send does.  The store then ends with the new record, which
    carries the id of the post, the panic keyword and the colour of the
    name; the attachment is in the bucket under the record's image; the
    post had been sent before the colour was set, so its embed shows the
    colour the submitted issue came with. *)
Theorem add_posts_then_stores (n : pystr) (img : option Attachment)
    (pk col : option pystr) (sub : Issue) (w : World) (c0 : Z) :
  List.find (fun i => str_eqb (name i) n) (issues w) = None ->
  (forall a, img = Some a ->
     is_image_type (att_content_type a) = true /\ att_size a <= 8000000) ->
  image sub = None ->
  color sub = Some c0 ->
  (length (button_links sub) <= 25)%nat ->
  or_empty col = [] ->
  send_faults w = [] ->
  exists (record : Issue) (post : Message) (e : Embed),
    fst (add n img pk col (Some sub) w) = Ok (Followup (u "Added new issue!"))
    /\ issues (snd (add n img pk col (Some sub) w)) = issues w ++ [record]
    /\ name record = name sub /\ content record = content sub
    /\ message_id record = next_msg w
    /\ panic_string record = or_empty pk
    /\ color record = Some (hash_color n)
    /\ (forall a, img = Some a ->
          image record = Some (next_grid w)
          /\ image_read (snd (add n img pk col (Some sub) w)) record
             = Some (att_data a)
          /\ image_content_type (snd (add n img pk col (Some sub) w)) record
             = att_content_type a)
    /\ (img = None -> image record = None)
    /\ msg_id post = next_msg w
    /\ embeds post = [e]
    /\ embed_color e = Some (if c0 =? 0 then hash_color (name sub) else c0)
    /\ (~ In (next_msg w) (old_list w) ->
        In post (channel (snd (add n img pk col (Some sub) w)))).
Proof.
  intros Hfind Himg Hnone Hcol Hlinks Hpick Hf.
  assert (Hcol' : renders sub) by (split; [congruence | exact Hlinks]).
  rewrite (add_run n img pk col sub w (IntValue (hash_color n)) Hfind Himg
             Hnone Hcol' (pick_color_absent n col Hpick) Hf).
  simpl fst. simpl snd.
  exists (set_panic_color
            (set_message_id (add_put_issue img w sub) (next_msg w))
            (or_empty pk) (Some (hash_color n))),
         (repost (add_put_world img w) (next_msg w) (add_put_issue img w sub)),
         {| title := name sub; description := content sub;
            timestamp := added_date sub;
            embed_color := Some (if c0 =? 0 then hash_color (name sub) else c0);
            footer_text := Some (u "Submitted by " ++ added_by_tag sub);
            image_url :=
              match image_read (add_put_world img w) (add_put_issue img w sub) with
              | Some _ =>
                Some (if is_gif (image_content_type (add_put_world img w)
                                   (add_put_issue img w sub))
                      then u "attachment://image.gif"
                      else u "attachment://image.png")
              | None => None
              end |}.
  split; [reflexivity|]. split; [reflexivity|].
  split; [now destruct img|]. split; [now destruct img|].
  split; [reflexivity|]. split; [reflexivity|]. split; [reflexivity|].
  split.
  { intros a ->. split; [reflexivity|].
    unfold image_read, image_content_type, refreshed. simpl.
    rewrite lookup_insert_eq. now split. }
  split; [now intros ->|]. split; [reflexivity|].
  split.
  { unfold repost. simpl embeds. unfold prepare_issue_embed.
    assert (color (add_put_issue img w sub) = Some c0) as ->
      by (destruct img; exact Hcol).
    simpl Color_value. cbv iota. now destruct img. }
  split; [reflexivity|].
  intros Hid. unfold refreshed. simpl channel.
  apply in_or_app. left. apply in_purge. split.
  - apply in_or_app. right. now left.
  - destruct img; exact Hid.
Qed.


(** *** What [edit] leaves as it is *)

Lemma keeps_image_delete {B} (f : World -> B) (i : Issue) :
  (forall w g k, f (with_gridfs w g k) = f w) -> keeps f (image_delete i).
Proof.
  intros Hf w. unfold image_delete. destruct (image i); simpl; [apply Hf | reflexivity].
Qed.

Lemma keeps_image_put {B} (f : World -> B) (i : Issue) data ct :
  (forall w g k, f (with_gridfs w g k) = f w) -> keeps f (image_put i data ct).
Proof.
  intros Hf w. unfold image_put. destruct (image i); simpl; [reflexivity | apply Hf].
Qed.

Lemma keeps_edit {B} (f : World -> B) (n : pystr) (img : option Attachment)
    (pk col : option pystr) (modal : Issue -> option Issue) :
  (forall w g k, f (with_gridfs w g k) = f w) ->
  (forall w i, f (with_issues w (replace_by_name i (issues w))) = f w) ->
  (forall m a e v, keeps f (edit_message m a e v)) ->
  keeps f (edit n img pk col modal).
Proof.
  intros H1 H2 H3. unfold edit.
  apply keeps_bind; [intros w; reflexivity|]. intros [old|]; [|apply keeps_raise].
  apply keeps_bind.
  { destruct img as [a|]; [|now apply keeps_image_delete].
    destruct (8000000 <? att_size a); [apply keeps_raise|].
    unfold image_replace. apply keeps_bind; [now apply keeps_image_delete|].
    intros i1. now apply keeps_image_put. }
  intros i1. destruct (modal i1) as [sub|]; [|apply keeps_raise].
  apply keeps_bind; [apply keeps_get_world|]. intros w0. simpl.
  apply keeps_bind; [apply keeps_lift|]. intros c.
  apply keeps_bind; [intros w; apply H2|]. intros _.
  apply keeps_bind; [apply keeps_fetch_message|]. intros m.
  apply keeps_bind; [apply keeps_get_world|]. intros w1.
  apply keeps_bind; [apply keeps_lift|]. intros e.
  apply keeps_bind; [apply keeps_lift|]. intros v.
  apply keeps_bind; [apply H3|]. intros _. apply keeps_ret.
Qed.

Lemma replace_by_name_names (i : Issue) (l : list Issue) :
  map name (replace_by_name i l) = map name l.
Proof.
  induction l as [|x l IH]; simpl; [reflexivity|].
  destruct (str_eqb (name x) (name i)) eqn:E; simpl.
  - apply str_eqb_eq in E. now rewrite E.
  - now rewrite IH.
Qed.

(** X15.  Whatever its arguments, whatever the modal gives and whether it
    returns or raises, [edit] sends no message and deletes none, and
    leaves the names in the store, their order and the recorded index
    pages as they were: the ids of the messages in the channel, the next
    id to be given out, the sends still to fail, the list of page ids and
    the list of names are the same before and after. *)
Theorem edit_posts_nothing (n : pystr) (img : option Attachment)
    (pk col : option pystr) (modal : Issue -> option Issue) (w : World) :
  map msg_id (channel (snd (edit n img pk col modal w)))
  = map msg_id (channel w)
  /\ next_msg (snd (edit n img pk col modal w)) = next_msg w
  /\ send_faults (snd (edit n img pk col modal w)) = send_faults w
  /\ issues_list_msg (snd (edit n img pk col modal w)) = issues_list_msg w
  /\ map name (issues (snd (edit n img pk col modal w)))
     = map name (issues w).
Proof.
  split; [|split; [|split; [|split]]].
  - apply (keeps_edit (fun w => map msg_id (channel w))); try reflexivity.
    intros m a e v w0. unfold edit_message.
    destruct (existsb _ _); [|reflexivity]. simpl. rewrite map_map.
    apply map_ext. intros x. now destruct (N.eqb _ _).
  - apply (keeps_edit next_msg); try reflexivity.
    intros m a e v. now apply keeps_edit_message.
  - apply (keeps_edit send_faults); try reflexivity.
    intros m a e v. now apply keeps_edit_message.
  - apply (keeps_edit issues_list_msg); try reflexivity.
    intros m a e v. now apply keeps_edit_message.
  - apply (keeps_edit (fun w => map name (issues w))); try reflexivity.
    + intros w0 i. simpl. apply replace_by_name_names.
    + intros m a e v. now apply keeps_edit_message.
Qed.

(** *** What a successful [edit] leaves *)

Lemma set_image_same (i : Issue) : set_image i (image i) = i.
Proof. now destruct i. Qed.

Lemma edit_image_ok (img : option Attachment) (old : Issue) (w : World) :
  exists w1,
    edit_image img old w
    = (Ok (set_image old (match img with
                          | Some _ => Some (next_grid w)
                          | None => None
                          end)), w1)
    /\ issues w1 = issues w /\ channel w1 = channel w
    /\ next_msg w1 = next_msg w /\ send_faults w1 = send_faults w
    /\ gridfs w1
       = match img with
         | Some a =>
           <[next_grid w := {| blob_data := att_data a;
                               blob_content_type := att_content_type a |}]>
             (match image old with
              | Some g => delete g (gridfs w)
              | None => gridfs w
              end)
         | None => match image old with
                   | Some g => delete g (gridfs w)
                   | None => gridfs w
                   end
         end.
Proof.
  unfold edit_image. destruct img as [a|].
  - unfold image_replace, bind, image_delete.
    destruct (image old) as [g|] eqn:Hg; unfold image_put; simpl.
    + eexists. split; [reflexivity|]. simpl. repeat split.
    + rewrite Hg. eexists. split; [reflexivity|]. simpl. repeat split.
  - unfold image_delete. destruct (image old) as [g|] eqn:Hg.
    + eexists. split; [reflexivity|]. simpl. repeat split.
    + exists w. split; [|repeat split].
      rewrite <- Hg. now rewrite set_image_same.
Qed.

(** X16.  An [edit] without a colour argument of an existing issue whose
    attachment, if any, is within the size limit, whose modal is
    submitted with an issue of that name with at most 25 button links and
    whose message is in the channel goes through.  The record of that
    name is then the submitted issue with the panic keyword and the
    colour of the name, the store keeps its length, and the message under
    the issue's id shows that record: its embed has the record's name,
    content and colour, its attachments are the stored image, and its
    buttons stay as they were when the issue has no link. *)
Theorem edit_updates_in_place (n : pystr) (img : option Attachment)
    (pk col : option pystr) (modal : Issue -> option Issue) (w : World)
    (old sub : Issue) (m : Message) :
  List.find (fun i => str_eqb (name i) n) (issues w) = Some old ->
  (forall a, img = Some a -> att_size a <= 8000000) ->
  modal (set_image old (match img with
                        | Some _ => Some (next_grid w)
                        | None => None
                        end)) = Some sub ->
  name sub = n ->
  (length (button_links sub) <= 25)%nat ->
  or_empty col = [] ->
  In m (channel w) ->
  msg_id m = message_id sub ->
  fst (edit n img pk col modal w) = Ok (Followup (u "Edited issue!"))
  /\ List.find (fun i => str_eqb (name i) n)
       (issues (snd (edit n img pk col modal w)))
     = Some (set_panic_color sub (or_empty pk) (Some (hash_color n)))
  /\ length (issues (snd (edit n img pk col modal w))) = length (issues w)
  /\ exists (m' : Message) (e : Embed),
       In m' (channel (snd (edit n img pk col modal w)))
       /\ msg_id m' = message_id sub
       /\ embeds m' = [e]
       /\ title e = name sub /\ description e = content sub
       /\ embed_color e = Some (hash_color n)
       /\ attachments m'
          = match discord_file (snd (edit n img pk col modal w)) sub with
            | Some f => [f]
            | None => []
            end
       /\ (button_links sub = [] -> components m' = components m).
Proof.
  intros Hfind Hsz Hmodal Hname Hlinks Hcol Hin Hid.
  pose proof (pick_color_absent n col Hcol) as Hpick.
  destruct (edit_image_ok img old w) as (w1 & Himg & Hi1 & Hc1 & _ & _ & Hg1).
  set (c := hash_color n) in *.
  set (record := set_panic_color sub (or_empty pk) (Some c)).
  set (view := match button_links sub with
               | [] => None
               | _ :: _ => Some (map render_button (button_links sub))
               end).
  set (e := {| title := name sub; description := content sub;
               timestamp := added_date sub;
               embed_color := Some (if c =? 0 then hash_color (name sub) else c);
               footer_text := Some (u "Submitted by " ++ added_by_tag sub);
               image_url :=
                 match image_read w1 record with
                 | Some _ =>
                   Some (if is_gif (image_content_type w1 record)
                         then u "attachment://image.gif"
                         else u "attachment://image.png")
                 | None => None
                 end |}).
  set (upd := fun x : Message =>
                if N.eqb (msg_id x) (message_id sub)
                then {| msg_id := msg_id x; author_bot := author_bot x;
                        embeds := [e];
                        components := match view with
                                      | Some _ => rows_of_view view
                                      | None => components x
                                      end;
                        attachments := match discord_file w1 sub with
                                       | Some f => [f]
                                       | None => []
                                       end |}
                else x).
  assert (Hrun : edit n img pk col modal w
                 = (Ok (Followup (u "Edited issue!")),
                    with_channel
                      (with_issues w1 (replace_by_name record (issues w)))
                      (map upd (channel w)))).
  { unfold edit. unfold bind at 1, get_issue. cbv beta iota. rewrite Hfind.
    unfold bind at 1.
    assert (Hfirst : (match img with
                      | Some a =>
                        if 8000000 <? att_size a
                        then raise (BadArgument (u "That image is too big!"))
                        else image_replace old (att_data a) (att_content_type a)
                      | None => image_delete old
                      end) w = edit_image img old w).
    { unfold edit_image. destruct img as [a|]; [|reflexivity].
      assert ((8000000 <? att_size a) = false) as ->; [|reflexivity].
      apply Z.ltb_ge. now apply Hsz. }
    rewrite Hfirst, Himg, Hmodal.
    unfold bind at 1, get_world. unfold bind at 1, lift. rewrite Hpick.
    unfold bind at 1, edit_issue. unfold bind at 1, fetch_message.
    cbn [channel with_issues message_id set_panic_color assigned_value].
    assert (Hex : exists m0,
              List.find (fun x => N.eqb (msg_id x) (message_id sub)) (channel w1)
              = Some m0 /\ msg_id m0 = message_id sub).
    { destruct (List.find (fun x => N.eqb (msg_id x) (message_id sub))
                  (channel w1)) as [m0|] eqn:F.
      - exists m0. split; [reflexivity|].
        apply List.find_some in F as [_ F]. now apply N.eqb_eq.
      - exfalso. rewrite Hc1 in F.
        apply (List.find_none _ _ F) in Hin. rewrite Hid, N.eqb_refl in Hin.
        discriminate. }
    destruct Hex as (m0 & -> & Hm0).
    unfold bind at 1, get_world. unfold bind at 1, lift.
    unfold prepare_assigned_embed, prepare_issue_embed at 1.
    simpl Color_value. cbv iota.
    unfold bind at 1. rewrite prepare_issue_view_spec.
    cbn [button_links set_panic_color].
    apply Nat.leb_le in Hlinks. rewrite Hlinks.
    unfold bind at 1, edit_message. cbn [channel with_issues].
    rewrite Hc1, Hm0, Hi1.
    assert (existsb (fun x => N.eqb (msg_id x) (message_id sub)) (channel w)
            = true) as ->.
    { apply existsb_exists. exists m. split; [exact Hin|].
      rewrite Hid. apply N.eqb_refl. }
    reflexivity. }
  rewrite Hrun. cbn [fst snd issues channel with_channel with_issues].
  assert (Hnr : name record = n) by exact Hname.
  split; [reflexivity|]. split; [|split].
  - rewrite <- Hnr. rewrite <- Hnr in Hfind.
    exact (proj1 (find_replace_by_name record (issues w) old Hfind)).
  - rewrite <- Hnr in Hfind.
    exact (proj2 (find_replace_by_name record (issues w) old Hfind)).
  - exists (upd m), e.
    assert (Hup : upd m
                  = {| msg_id := msg_id m; author_bot := author_bot m;
                       embeds := [e];
                       components := match view with
                                     | Some _ => rows_of_view view
                                     | None => components m
                                     end;
                       attachments := match discord_file w1 sub with
                                      | Some f => [f]
                                      | None => []
                                      end |}).
    { unfold upd. now rewrite Hid, N.eqb_refl. }
    split; [now apply in_map|]. rewrite Hup.
    cbn [msg_id embeds attachments components].
    split; [exact Hid|]. split; [reflexivity|].
    split; [reflexivity|]. split; [reflexivity|].
    split.
    { unfold e. cbn [embed_color]. rewrite Hname. fold c.
      now destruct (c =? 0). }
    split; [reflexivity|].
    intros Hb. unfold view. now rewrite Hb.
Qed.

(** X17.  An [edit] with an attachment within the size limit whose modal
    is cancelled has already replaced the image in the bucket: the store
    is as it was, so the record still names the old file, which is gone,
    and reads as having no image, while the new file is in the bucket
    with no record naming it. *)
Theorem edit_cancelled_loses_image (n : pystr) (a : Attachment)
    (pk col : option pystr) (modal : Issue -> option Issue) (w : World)
    (old : Issue) (g : N) :
  List.find (fun i => str_eqb (name i) n) (issues w) = Some old ->
  att_size a <= 8000000 ->
  image old = Some g ->
  Forall (fun i => forall k, image i = Some k -> (k < next_grid w)%N)
    (issues w) ->
  modal (set_image old (Some (next_grid w))) = None ->
  issues (snd (edit n (Some a) pk col modal w)) = issues w
  /\ channel (snd (edit n (Some a) pk col modal w)) = channel w
  /\ image_read (snd (edit n (Some a) pk col modal w)) old = None
  /\ gridfs (snd (edit n (Some a) pk col modal w)) !! next_grid w
     = Some {| blob_data := att_data a;
               blob_content_type := att_content_type a |}
  /\ Forall (fun i => image i <> Some (next_grid w))
       (issues (snd (edit n (Some a) pk col modal w))).
Proof.
  intros Hfind Hsz Hg Hold Hmodal.
  destruct (edit_image_ok (Some a) old w) as (w1 & Himg & Hi1 & Hc1 & _ & _ & Hg1).
  assert (Hrun : snd (edit n (Some a) pk col modal w) = w1).
  { unfold edit. unfold bind at 1, get_issue. cbv beta iota. rewrite Hfind.
    unfold bind at 1.
    assert ((8000000 <? att_size a) = false) as -> by (apply Z.ltb_ge; lia).
    unfold edit_image in Himg. rewrite Himg, Hmodal. reflexivity. }
  rewrite Hrun. rewrite Hg in Hg1.
  assert (Hlt : (g < next_grid w)%N).
  { rewrite List.Forall_forall in Hold. apply (Hold old); [|exact Hg].
    apply List.find_some in Hfind. exact (proj1 Hfind). }
  split; [exact Hi1|]. split; [exact Hc1|]. split; [|split].
  - unfold image_read. rewrite Hg, Hg1.
    rewrite lookup_insert_ne by lia. now rewrite lookup_delete_eq.
  - rewrite Hg1. apply lookup_insert_eq.
  - rewrite Hi1. eapply Forall_impl; [exact Hold|]. simpl.
    intros i Hi E. apply Hi in E. lia.
Qed.


(** ** The [delete] command *)

Lemma fetch_message_found (id : N) (m : Message) (w : World) :
  In m (channel w) -> msg_id m = id ->
  exists m0, fetch_message id w = (Ok m0, w) /\ msg_id m0 = id.
Proof.
  intros Hin Hid. unfold fetch_message.
  destruct (List.find (fun x => N.eqb (msg_id x) id) (channel w))
    as [m0|] eqn:F.
  - exists m0. split; [reflexivity|].
    apply List.find_some in F as [_ F]. now apply N.eqb_eq.
  - exfalso. apply (List.find_none _ _ F) in Hin.
    rewrite Hid, N.eqb_refl in Hin. discriminate.
Qed.

Lemma fetch_message_missing (id : N) (w : World) :
  (forall m, In m (channel w) -> msg_id m <> id) ->
  fetch_message id w = (Raise NotFound, w).
Proof.
  intros H. unfold fetch_message.
  destruct (List.find (fun x => N.eqb (msg_id x) id) (channel w))
    as [m0|] eqn:F; [|reflexivity].
  apply List.find_some in F as [Hin F]. apply N.eqb_eq in F.
  now apply H in Hin.
Qed.

Lemma delete_message_found (m m0 : Message) (w : World) :
  In m (channel w) -> msg_id m = msg_id m0 ->
  delete_message m0 w
  = (Ok tt, with_channel w (without (msg_id m0) (channel w))).
Proof.
  intros Hin Hid. unfold delete_message.
  assert (existsb (fun x => N.eqb (msg_id x) (msg_id m0)) (channel w) = true)
    as ->; [|reflexivity].
  apply existsb_exists. exists m. split; [exact Hin|].
  rewrite Hid. apply N.eqb_refl.
Qed.

Lemma image_delete_ok (issue : Issue) (w : World) :
  image_delete issue w = (Ok (set_image issue None), image_deleted w issue).
Proof.
  unfold image_delete, image_deleted.
  destruct (image issue) eqn:Hg; [reflexivity|].
  rewrite <- Hg. now rewrite set_image_same.
Qed.

Lemma image_deleted_frame (w : World) (issue : Issue) :
  issues (image_deleted w issue) = issues w
  /\ channel (image_deleted w issue) = channel w
  /\ send_faults (image_deleted w issue) = send_faults w
  /\ next_msg (image_deleted w issue) = next_msg w
  /\ old_list (image_deleted w issue) = old_list w.
Proof. unfold image_deleted. now destruct (image issue). Qed.

Lemma issues_delete_run (n : pystr) (w : World) (old : Issue) (m : Message) :
  List.find (fun i => str_eqb (name i) n) (issues w) = Some old ->
  In m (channel w) -> msg_id m = message_id old ->
  send_faults w = [] ->
  issues_delete n w
  = (Ok (u "Deleted issue `" ++ name old ++ u "`."),
     refreshed
       (with_issues
          (with_channel (image_deleted w old)
             (without (message_id old) (channel w)))
          (List.filter (fun i => negb (str_eqb (name i) n)) (issues w)))).
Proof.
  intros Hfind Hin Hid Hf.
  destruct (image_deleted_frame w old) as (Hi & Hc & Hs & _ & _).
  unfold issues_delete. unfold bind at 1, get_issue. cbv beta iota.
  rewrite Hfind. unfold bind at 1. rewrite image_delete_ok.
  unfold bind at 1. cbn [message_id set_image].
  destruct (fetch_message_found (message_id old) m (image_deleted w old))
    as (m0 & -> & Hm0); [now rewrite Hc | exact Hid|].
  unfold bind at 1.
  rewrite (delete_message_found m m0) by (rewrite ?Hc; congruence).
  unfold bind at 1, remove_issue. unfold bind at 1.
  rewrite refresh_ok by (simpl; now rewrite Hs).
  unfold ret. cbn [issues with_channel name set_image]. now rewrite Hm0, Hc, Hi.
Qed.

(** X18.  [delete] of an existing issue whose message is in the channel
    goes through when every send does: it answers with the name of the
    issue, the store is left without the records of that name, the others
    staying in order; the image of the issue is gone from the bucket, and
    no message is left under the id of the issue provided that id is
    older than the ids still to be given out. *)
Theorem issues_delete_removes (n : pystr) (w : World) (old : Issue)
    (m : Message) :
  List.find (fun i => str_eqb (name i) n) (issues w) = Some old ->
  In m (channel w) -> msg_id m = message_id old ->
  send_faults w = [] ->
  fst (issues_delete n w) = Ok (u "Deleted issue `" ++ n ++ u "`.")
  /\ issues (snd (issues_delete n w))
     = List.filter (fun i => negb (str_eqb (name i) n)) (issues w)
  /\ List.find (fun i => str_eqb (name i) n) (issues (snd (issues_delete n w)))
     = None
  /\ (forall g, image old = Some g ->
        gridfs (snd (issues_delete n w)) !! g = None)
  /\ ((message_id old < next_msg w)%N ->
      forall x, In x (channel (snd (issues_delete n w))) ->
                msg_id x <> message_id old).
Proof.
  intros Hfind Hin Hid Hf.
  rewrite (issues_delete_run n w old m Hfind Hin Hid Hf).
  simpl fst. simpl snd.
  assert (Hn : name old = n).
  { apply List.find_some in Hfind as [_ E]. now apply str_eqb_eq. }
  split; [now rewrite Hn|]. split; [reflexivity|]. split; [|split].
  - unfold refreshed. cbn [issues with_issues_list_msg with_sent with_issues].
    destruct (List.find _ (List.filter _ (issues w))) as [x|] eqn:F;
      [|reflexivity].
    apply List.find_some in F as [F1 F2]. apply List.filter_In in F1 as [_ F1].
    rewrite F2 in F1. discriminate.
  - intros g Hg. unfold refreshed, image_deleted. rewrite Hg. simpl.
    apply lookup_delete_eq.
  - intros Hlt x Hx. unfold refreshed in Hx. simpl channel in Hx.
    apply in_app_or in Hx as [Hx|Hx].
    + apply in_purge in Hx as [Hx _]. apply in_without in Hx as [_ Hx].
      exact Hx.
    + assert (G : forall (ps : list pystr) (t : pystr) (p k : N),
                 Forall (fun y => (k <= msg_id y)%N) (page_messages t p k ps)).
      { clear. induction ps as [|d ps IH]; intros t p k; simpl; constructor.
        - simpl. lia.
        - eapply Forall_impl; [apply IH|]. simpl. intros y. lia. }
      match type of Hx with In _ (page_messages ?t ?p ?k ?ps) =>
        pose proof (G ps t p k) as Hge end.
      rewrite List.Forall_forall in Hge. apply Hge in Hx.
      destruct (image_deleted_frame w old) as (_ & _ & _ & Hnm & _).
      simpl in Hx. rewrite Hnm in Hx. lia.
Qed.

(** X19.  [delete] of an existing issue whose message is not in the
    channel raises [NotFound] after the image has been deleted: the
    record stays in the store, the channel is as it was and no index is
    rebuilt, but the image of the record is gone from the bucket and
    reads as absent. *)
Theorem issues_delete_without_message (n : pystr) (w : World) (old : Issue) :
  List.find (fun i => str_eqb (name i) n) (issues w) = Some old ->
  (forall m, In m (channel w) -> msg_id m <> message_id old) ->
  fst (issues_delete n w) = Raise NotFound
  /\ issues (snd (issues_delete n w)) = issues w
  /\ channel (snd (issues_delete n w)) = channel w
  /\ issues_list_msg (snd (issues_delete n w)) = issues_list_msg w
  /\ image_read (snd (issues_delete n w)) old = None.
Proof.
  intros Hfind Hno.
  assert (Hrun : issues_delete n w = (Raise NotFound, image_deleted w old)).
  { unfold issues_delete. unfold bind at 1, get_issue. cbv beta iota.
    rewrite Hfind. unfold bind at 1. rewrite image_delete_ok.
    unfold bind at 1. cbn [message_id set_image].
    rewrite fetch_message_missing; [reflexivity|].
    destruct (image_deleted_frame w old) as (_ & -> & _). exact Hno. }
  rewrite Hrun. simpl fst. simpl snd.
  destruct (image_deleted_frame w old) as (Hi & Hc & _ & _ & _).
  split; [reflexivity|]. split; [exact Hi|]. split; [exact Hc|].
  unfold image_deleted, image_read.
  destruct (image old) as [g|]; [|now split].
  simpl. now rewrite lookup_delete_eq.
Qed.


(** *** [add], then [delete] *)

Lemma page_messages_fresh (ps : list pystr) : forall (t : pystr) (p k : N),
  Forall (fun y => (k <= msg_id y)%N) (page_messages t p k ps).
Proof.
  induction ps as [|d ps IH]; intros t p k; simpl; constructor.
  - simpl. lia.
  - eapply Forall_impl; [apply IH|]. simpl. intros y. lia.
Qed.

Lemma without_comm (id x : N) (c : list Message) :
  without id (without x c) = without x (without id c).
Proof.
  induction c as [|m c IH]; [reflexivity|]. simpl.
  destruct (N.eqb (msg_id m) x) eqn:Ex, (N.eqb (msg_id m) id) eqn:Ei; simpl;
    rewrite ?Ex, ?Ei; simpl; now rewrite ?IH.
Qed.

Lemma without_purge (id : N) (l : list N) : forall c : list Message,
  without id (purge l c) = purge l (without id c).
Proof.
  induction l as [|x l IH]; intros c; [reflexivity|].
  change (purge (x :: l) c) with (purge l (without x c)).
  change (purge (x :: l) (without id c)) with (purge l (without x (without id c))).
  rewrite IH. f_equal. apply without_comm.
Qed.

Lemma without_all_keeps (id : N) (c : list Message) :
  Forall (fun m => msg_id m <> id) c -> without id c = c.
Proof.
  induction c as [|m c IH]; intros H; [reflexivity|].
  inversion H; subst. simpl.
  destruct (N.eqb_spec (msg_id m) id); [contradiction|]. simpl. now rewrite IH.
Qed.

Lemma purge_own (ms : list Message) : purge (map msg_id ms) ms = [].
Proof.
  assert (G : forall (l : list N) (c : list Message),
             Forall (fun m => In (msg_id m) l) c -> purge l c = []).
  { induction l as [|x l IH]; intros c H.
    - destruct c as [|m c]; [reflexivity|]. inversion H; subst. contradiction.
    - change (purge (x :: l) c) with (purge l (without x c)).
      destruct (purge l (without x c)) as [|m r] eqn:E; [reflexivity|].
      exfalso.
      assert (Hm : In m (purge l (without x c))) by (rewrite E; now left).
      apply in_purge in Hm as [Hm Hl]. apply in_without in Hm as [Hm Hx].
      rewrite List.Forall_forall in H. apply H in Hm as [Hm|Hm]; auto. }
  apply G. apply List.Forall_forall. intros m Hm. now apply in_map.
Qed.

Lemma find_none_keeps (n : pystr) (l : list Issue) :
  List.find (fun i => str_eqb (name i) n) l = None ->
  List.filter (fun i => negb (str_eqb (name i) n)) l = l.
Proof.
  induction l as [|x l IH]; simpl; [reflexivity|].
  destruct (str_eqb (name x) n); [discriminate|]. simpl.
  intros H. now rewrite IH.
Qed.

(** X20.  [delete] undoes [add]: after a call of [add] for a new name
    without a colour argument, with an issue of that name submitted that
    renders (it has a colour and at most 25 button links) and has no
    image yet, every send going through, a call of [delete] for the name
    goes through, and leaves the store and the bucket as they were before
    the [add]; the channel is left with the messages it had, the old
    index pages apart, followed by new index pages with the embeds a
    rebuild of the first world posts. *)
Theorem add_then_delete (n : pystr) (img : option Attachment)
    (pk col : option pystr) (sub : Issue) (w : World) :
  List.find (fun i => str_eqb (name i) n) (issues w) = None ->
  (forall a, img = Some a ->
     is_image_type (att_content_type a) = true /\ att_size a <= 8000000) ->
  image sub = None ->
  renders sub ->
  name sub = n ->
  or_empty col = [] ->
  send_faults w = [] ->
  ids_in_the_past w ->
  gridfs w !! next_grid w = None ->
  fst (issues_delete n (snd (add n img pk col (Some sub) w)))
  = Ok (u "Deleted issue `" ++ n ++ u "`.")
  /\ issues (snd (issues_delete n (snd (add n img pk col (Some sub) w))))
     = issues w
  /\ gridfs (snd (issues_delete n (snd (add n img pk col (Some sub) w))))
     = gridfs w
  /\ exists pages,
       channel (snd (issues_delete n (snd (add n img pk col (Some sub) w))))
       = purge (old_list w) (channel w) ++ pages
       /\ channel (snd (refresh_common_issues w))
          = purge (old_list w) (channel w)
            ++ page_messages (u "Table of Contents") 0 (next_msg w)
                 (map page_text pages)
       /\ map embeds pages
          = map embeds (page_messages (u "Table of Contents") 0 (next_msg w)
                          (map page_text pages)).
Proof.
  intros Hfind Himg Hnone Hcol Hname Hpick Hf (_ & Hold & Hch) Hfresh.
  rewrite (add_run n img pk col sub w (IntValue (hash_color n)) Hfind Himg
             Hnone Hcol (pick_color_absent n col Hpick) Hf).
  simpl snd.
  set (post := repost (add_put_world img w) (next_msg w)
                 (add_put_issue img w sub)).
  set (record := set_panic_color
                   (set_message_id (add_put_issue img w sub) (next_msg w))
                   (or_empty pk) (Some (hash_color n))).
  set (W := with_issues
              (with_sent (add_put_world img w) (channel w ++ [post])
                 (N.succ (next_msg w)) [])
              (issues w ++ [record])).
  assert (Hnr : name record = n) by (unfold record; now destruct img).
  assert (Hfind1 : List.find (fun i => str_eqb (name i) n) (issues (refreshed W))
                   = Some record).
  { change (issues (refreshed W)) with (issues w ++ [record]).
    rewrite <- Hnr. apply find_app_new. now rewrite Hnr. }
  assert (HoldW : old_list W = old_list w) by (unfold W; now destruct img).
  assert (Hnew : ~ In (next_msg w) (old_list w)).
  { intros Hin. rewrite List.Forall_forall in Hold. apply Hold in Hin. lia. }
  assert (Hpost : In post (channel (refreshed W))).
  { unfold refreshed. simpl channel. apply in_or_app. left.
    apply in_purge. split; [apply in_or_app; right; now left|].
    rewrite HoldW. exact Hnew. }
  rewrite (issues_delete_run n (refreshed W) record post Hfind1 Hpost
             eq_refl eq_refl).
  cbn [fst snd]. rewrite Hnr.
  split; [reflexivity|].
  assert (Hiss : List.filter (fun i => negb (str_eqb (name i) n))
                   (issues (refreshed W)) = issues w).
  { change (issues (refreshed W)) with (issues w ++ [record]).
    rewrite List.filter_app, (find_none_keeps _ _ Hfind). cbn [List.filter].
    rewrite Hnr, str_eqb_refl. simpl. apply app_nil_r. }
  split; [exact Hiss|]. split.
  { unfold refreshed, image_deleted, record, W. destruct img as [a|]; simpl.
    - rewrite delete_insert_eq. now apply delete_id.
    - now rewrite Hnone. }
  set (lines := index_lines (index_line w) 0 (issues w)).
  set (msgs1 := page_messages (u "Table of Contents") 0 (next_msg W)
                  (pages_of (index_lines (index_line W) 0 (issues W)))).
  exists (page_messages (u "Table of Contents") 0
            (next_msg W + N.of_nat (length msgs1)) (pages_of lines)).
  rewrite page_messages_text.
  split; [|split].
  - unfold refreshed at 1. cbn [channel with_issues_list_msg with_sent].
    rewrite Hiss.
    assert (Hline : index_line
              (with_issues
                 (with_channel (image_deleted (refreshed W) record)
                    (without (message_id record) (channel (refreshed W))))
                 (issues w)) = index_line w).
    { unfold index_line, image_deleted, refreshed, W.
      destruct (image record); now destruct img. }
    rewrite Hline. fold lines.
    assert (Hnm : next_msg
              (with_issues
                 (with_channel (image_deleted (refreshed W) record)
                    (without (message_id record) (channel (refreshed W))))
                 (issues w)) = (next_msg W + N.of_nat (length msgs1))%N).
    { unfold image_deleted. now destruct (image record). }
    rewrite Hnm. f_equal.
    assert (Hol : old_list
              (with_issues
                 (with_channel (image_deleted (refreshed W) record)
                    (without (message_id record) (channel (refreshed W))))
                 (issues w)) = map msg_id msgs1).
    { unfold image_deleted. now destruct (image record). }
    rewrite Hol.
    change (channel (refreshed W))
      with (purge (old_list W) (channel w ++ [post]) ++ msgs1).
    change (message_id record) with (next_msg w).
    rewrite HoldW, purge_app, !without_app, !without_purge.
    assert (H1 : without (next_msg w) (channel w) = channel w).
    { apply without_all_keeps. eapply Forall_impl; [exact Hch|].
      simpl. intros m. lia. }
    assert (H2 : without (next_msg w) [post] = []).
    { unfold without. simpl. now rewrite N.eqb_refl. }
    assert (H3 : without (next_msg w) msgs1 = msgs1).
    { apply without_all_keeps.
      eapply Forall_impl; [apply page_messages_fresh|]. cbv beta.
      intros m. assert (next_msg W = N.succ (next_msg w)) as ->
        by (unfold W; now destruct img). lia. }
    rewrite H1, H2, H3.
    assert (H4 : purge (old_list w) [] = []).
    { generalize (old_list w). intros l.
      induction l as [|x l IH]; [reflexivity | exact IH]. }
    cbn [channel with_issues with_channel].
    rewrite H4, app_nil_r, purge_app, purge_own, app_nil_r.
    apply purge_all_keeps. apply List.Forall_forall. intros m Hm Hin.
    apply in_purge in Hm as [Hm _].
    rewrite List.Forall_forall in Hch. apply Hch in Hm.
    apply in_map_iff in Hin as (y & Hy & Hin).
    pose proof (page_messages_fresh
                  (pages_of (index_lines (index_line W) 0 (issues W)))
                  (u "Table of Contents") 0 (next_msg W)) as Hge.
    rewrite List.Forall_forall in Hge. apply Hge in Hin.
    assert (next_msg W = N.succ (next_msg w))
      by (unfold W; now destruct img).
    lia.
  - rewrite (refresh_ok w Hf). reflexivity.
  - generalize (pages_of lines) (u "Table of Contents") 0%N
      (next_msg W + N.of_nat (length msgs1))%N (next_msg w).
    clear. induction l as [|d ps IH]; intros t p k k'; [reflexivity|].
    simpl. f_equal. apply IH.
Qed.


(** ** The traceback shown by the error handler *)

Lemma occurrences_app (c : N) (a b : pystr) :
  occurrences c (a ++ b) = (occurrences c a + occurrences c b)%nat.
Proof. unfold occurrences. now rewrite List.filter_app, length_app. Qed.

Lemma occurrences_drop (c : N) (k : nat) (s : pystr) :
  (occurrences c (drop k s) <= occurrences c s)%nat.
Proof.
  rewrite <- (take_drop k s) at 2. rewrite occurrences_app. lia.
Qed.

Lemma split_on_length (sep : N) (s : pystr) : forall cur : pystr,
  length (split_on sep cur s) = S (occurrences sep s).
Proof.
  unfold occurrences.
  induction s as [|c s IH]; intros cur; simpl; [reflexivity|].
  rewrite (N.eqb_sym sep c). destruct (N.eqb c sep); simpl; now rewrite IH.
Qed.

Lemma split_on_parts (sep : N) (s : pystr) : forall cur : pystr,
  occurrences sep cur = 0%nat ->
  Forall (fun p => occurrences sep p = 0%nat) (split_on sep cur s).
Proof.
  induction s as [|c s IH]; intros cur Hcur; simpl.
  - now constructor.
  - destruct (N.eqb c sep) eqn:E.
    + constructor; [exact Hcur | now apply IH].
    + apply IH. rewrite occurrences_app, Hcur. unfold occurrences. simpl.
      now rewrite N.eqb_sym, E.
Qed.

Lemma join_occurrences (sep : N) (parts : list pystr) :
  Forall (fun p => occurrences sep p = 0%nat) parts ->
  occurrences sep (join [sep] parts) = (length parts - 1)%nat.
Proof.
  induction parts as [|p ps IH]; intros H; [reflexivity|].
  inversion H as [|? ? Hp Hps]; subst.
  destruct ps as [|q ps]; [simpl; exact Hp|].
  change (join [sep] (p :: q :: ps)) with (p ++ [sep] ++ join [sep] (q :: ps)).
  rewrite !occurrences_app, Hp, (IH Hps). unfold occurrences at 1. simpl.
  rewrite N.eqb_refl. simpl. lia.
Qed.

Lemma join_drop (sep : pystr) (parts : list pystr) : forall k : nat,
  exists pre, join sep parts = pre ++ join sep (drop k parts).
Proof.
  induction parts as [|p ps IH]; intros k.
  - exists []. now destruct k.
  - destruct k as [|k]; [now exists []|].
    change (drop (S k) (p :: ps)) with (drop k ps).
    destruct (IH k) as (pre & E).
    destruct ps as [|q ps].
    + exists p. rewrite drop_nil. simpl. now rewrite app_nil_r.
    + exists (p ++ sep ++ pre).
      change (join sep (p :: q :: ps)) with (p ++ sep ++ join sep (q :: ps)).
      rewrite E, <- !app_assoc. reflexivity.
Qed.

Lemma lastn_length {A} (k : nat) (l : list A) :
  (k <= length l)%nat -> length (lastn k l) = k.
Proof. intros H. unfold lastn. rewrite length_drop. lia. Qed.

(** X21.  The traceback as the error handler shows it is never longer
    than 1004 characters and never has more than 9 lines, and it is an
    ending of the traceback it was given, behind an ellipsis line when
    the ending is 1000 characters long. *)
Theorem format_traceback_shape (tb : pystr) :
  len (format_traceback tb) <= 1004
  /\ (length (split_on 10 [] (format_traceback tb)) <= 9)%nat
  /\ exists pre r,
       tb = pre ++ r
       /\ (format_traceback tb = r
           \/ (format_traceback tb = u "..." ++ [10%N] ++ r /\ len r = 1000)).
Proof.
  unfold format_traceback.
  set (tb1 := if (8 <? length (split_on 10 [] tb))%nat
              then join [10%N] (lastn 8 (split_on 10 [] tb))
              else tb).
  assert (H1 : (occurrences 10 tb1 <= 7)%nat
               /\ exists pre, tb = pre ++ tb1).
  { unfold tb1. destruct (8 <? length (split_on 10 [] tb))%nat eqn:E.
    - apply Nat.ltb_lt in E. split.
      + rewrite join_occurrences.
        * rewrite lastn_length; lia.
        * unfold lastn. apply Forall_drop. now apply split_on_parts.
      + destruct (join_drop [10%N] (split_on 10 [] tb)
                    (length (split_on 10 [] tb) - 8)) as (pre & Hpre).
        exists pre. rewrite join_split in Hpre. exact Hpre.
    - apply Nat.ltb_ge in E. rewrite split_on_length in E.
      split; [lia | now exists []]. }
  destruct H1 as (Hocc & pre & Hpre).
  destruct (1000 <? len tb1) eqn:E.
  - apply Z.ltb_lt in E. unfold len in E.
    assert (Hl : length (lastn 1000 tb1) = 1000%nat)
      by (apply lastn_length; lia).
    split; [|split].
    + unfold len. rewrite !length_app, Hl. simpl. lia.
    + rewrite split_on_length, !occurrences_app.
      pose proof (occurrences_drop 10 (length tb1 - 1000) tb1).
      unfold lastn. change (occurrences 10 (u "...")) with 0%nat.
      change (occurrences 10 [10%N]) with 1%nat. lia.
    + exists (pre ++ take (length tb1 - 1000) tb1), (lastn 1000 tb1).
      split.
      * unfold lastn. now rewrite <- app_assoc, take_drop.
      * right. split; [reflexivity|]. unfold len. rewrite Hl. reflexivity.
  - apply Z.ltb_ge in E. split; [lia|]. split.
    + rewrite split_on_length. lia.
    + exists pre, tb1. split; [exact Hpre | now left].
Qed.


(** ** [format_number] and [audit_logs_multi] *)

Lemma uint_codes_digits (d : Decimal.uint) :
  Forall (fun c => (48 <= c <= 57)%N) (uint_codes d).
Proof. induction d; simpl; constructor; (lia || assumption). Qed.

Lemma filter_keeps_all {A} (f : A -> bool) (l : list A) :
  Forall (fun x => f x = true) l -> List.filter f l = l.
Proof.
  induction l as [|x l IH]; intros H; [reflexivity|].
  inversion H as [|? ? Hx Hl]; subst. simpl. rewrite Hx. now rewrite IH.
Qed.

Lemma sep3_digits (s : pystr) : forall k : nat,
  List.filter (fun c => negb (N.eqb c 44)) (sep3 k s)
  = List.filter (fun c => negb (N.eqb c 44)) s.
Proof.
  induction s as [|c s IH]; intros k; [reflexivity|].
  destruct k as [|[|[|[|k]]]]; simpl; rewrite IH; reflexivity.
Qed.

(** X22.  Taking the commas out of [format_number number] leaves the
    decimal digits of the number, behind a minus sign when it is
    negative: the commas are all that is added. *)
Theorem format_number_digits (number : Z) :
  List.filter (fun c => negb (N.eqb c 44)) (format_number number)
  = (if number <? 0 then [45%N] else []) ++ dec (Z.abs_N number).
Proof.
  unfold format_number. rewrite List.filter_app. f_equal.
  - now destruct (number <? 0).
  - rewrite List.filter_rev, sep3_digits, <- List.filter_rev, rev_involutive.
    apply filter_keeps_all. unfold dec.
    eapply Forall_impl; [apply uint_codes_digits|]. simpl. intros c Hc.
    apply negb_true_iff, N.eqb_neq. lia.
Qed.

Lemma sep3_commas (s : pystr) : forall (k p : nat) (c : N),
  (k <= 3)%nat ->
  Forall (fun c => c <> 44%N) s ->
  sep3 k s !! p = Some c ->
  (c = 44%N <-> ((p + k) mod 4 = 3)%nat).
Proof.
  induction s as [|x s IH]; intros k p c Hk Hs Hp; [discriminate|].
  inversion Hs as [|? ? Hx Hs']; subst.
  destruct k as [|[|[|[|k]]]]; try lia.
  - simpl in Hp. destruct p as [|p].
    + injection Hp as <-. simpl. split; [contradiction | discriminate].
    + simpl in Hp. rewrite (IH 1%nat p c) by (auto; lia).
      replace (S p + 0)%nat with (p + 1)%nat by lia. reflexivity.
  - simpl in Hp. destruct p as [|p].
    + injection Hp as <-. simpl. split; [contradiction | discriminate].
    + simpl in Hp. rewrite (IH 2%nat p c) by (auto; lia).
      replace (S p + 1)%nat with (p + 2)%nat by lia. reflexivity.
  - simpl in Hp. destruct p as [|p].
    + injection Hp as <-. simpl. split; [contradiction | discriminate].
    + simpl in Hp. rewrite (IH 3%nat p c) by (auto; lia).
      replace (S p + 2)%nat with (p + 3)%nat by lia. reflexivity.
  - simpl in Hp. destruct p as [|[|p]].
    + injection Hp as <-. simpl. split; reflexivity.
    + injection Hp as <-. simpl. split; [contradiction | discriminate].
    + simpl in Hp. rewrite (IH 1%nat p c) by (auto; lia).
      replace (S (S p) + 3)%nat with (p + 1 + 1 * 4)%nat by lia.
      now rewrite Nat.Div0.mod_add.
Qed.

Lemma sep3_last (s : pystr) : forall (k : nat),
  Forall (fun c => c <> 44%N) s ->
  last (sep3 k s) <> Some 44%N.
Proof.
  induction s as [|x s IH]; intros k Hs; [discriminate|].
  inversion Hs as [|? ? Hx Hs']; subst.
  assert (G : forall k', last (x :: sep3 k' s) <> Some 44%N).
  { intros k'. specialize (IH k' Hs').
    destruct (sep3 k' s) as [|y r] eqn:E.
    - simpl. congruence.
    - rewrite last_cons_cons. exact IH. }
  destruct k as [|[|[|[|k]]]]; simpl sep3; apply G.
Qed.

(** X23.  In [format_number number] for a number that is not negative,
    counting from the right and from 0, the characters at the positions 3,
    7, 11, ... are commas and no other is; the text does not begin with a
    comma. *)
Theorem format_number_commas (number : Z) (p : nat) (c : N) :
  0 <= number ->
  rev (format_number number) !! p = Some c ->
  (c = 44%N <-> (p mod 4 = 3)%nat)
  /\ head (format_number number) <> Some 44%N.
Proof.
  intros Hn. unfold format_number.
  assert ((number <? 0) = false) as -> by (apply Z.ltb_ge; lia).
  simpl app. rewrite rev_involutive.
  assert (Hd : Forall (fun c => c <> 44%N) (rev (dec (Z.abs_N number)))).
  { apply List.Forall_rev. unfold dec.
    eapply Forall_impl; [apply uint_codes_digits|]. simpl. intros x. lia. }
  intros Hp. split.
  - rewrite (sep3_commas _ 0 p c (Nat.le_0_l 3) Hd Hp).
    now rewrite Nat.add_0_r.
  - rewrite rev_alt.
    change (rev_append (sep3 0 (rev (dec (Z.abs_N number)))) [])
      with (reverse (sep3 0 (rev (dec (Z.abs_N number))))).
    rewrite head_reverse. now apply sep3_last.
Qed.

(** *** Sorting the audit log *)

Lemma insert_newest_perm (x : AuditLogEntry) (l : list AuditLogEntry) :
  Permutation (insert_newest x l) (x :: l).
Proof.
  induction l as [|y l IH]; simpl; [reflexivity|].
  destruct (created_at x <? created_at y); [|reflexivity].
  rewrite IH. apply perm_swap.
Qed.

Lemma insert_newest_sorted (x : AuditLogEntry) (l : list AuditLogEntry) :
  Sorted (fun a b => created_at b <= created_at a) l ->
  Sorted (fun a b => created_at b <= created_at a) (insert_newest x l).
Proof.
  induction l as [|y l IH]; intros H; simpl.
  - repeat constructor.
  - destruct (created_at x <? created_at y) eqn:E.
    + apply Z.ltb_lt in E. inversion H as [|? ? Hl Hy]; subst.
      constructor; [now apply IH|].
      destruct l as [|z l]; simpl.
      * constructor. lia.
      * destruct (created_at x <? created_at z); constructor;
          [now inversion Hy | lia].
    + apply Z.ltb_ge in E. constructor; [exact H|]. now constructor.
Qed.

Lemma insert_newest_filter (t : Z) (x : AuditLogEntry) (l : list AuditLogEntry) :
  List.filter (fun e => created_at e =? t) (insert_newest x l)
  = List.filter (fun e => created_at e =? t) (x :: l).
Proof.
  induction l as [|y l IH]; simpl; [reflexivity|].
  destruct (created_at x <? created_at y) eqn:E; [|reflexivity].
  apply Z.ltb_lt in E. simpl. rewrite IH. simpl.
  destruct (created_at x =? t) eqn:Ex, (created_at y =? t) eqn:Ey;
    try reflexivity.
  apply Z.eqb_eq in Ex, Ey. lia.
Qed.

(** X24.  [audit_logs_multi] returns the entries the audit log yields
    for the actions, all of them and no other, the newest first; entries
    of the same date come in the order in which they were yielded, those
    of an earlier action first. *)
Theorem audit_logs_multi_sorted
    (audit_logs : Z -> N -> Z -> list AuditLogEntry)
    (actions : list N) (limit after : Z) :
  Permutation (audit_logs_multi audit_logs actions limit after)
    (flat_map (fun action => audit_logs limit action after) actions)
  /\ Sorted (fun a b => created_at b <= created_at a)
       (audit_logs_multi audit_logs actions limit after)
  /\ forall t,
       List.filter (fun e => created_at e =? t)
         (audit_logs_multi audit_logs actions limit after)
       = List.filter (fun e => created_at e =? t)
           (flat_map (fun action => audit_logs limit action after) actions).
Proof.
  unfold audit_logs_multi.
  generalize (flat_map (fun action => audit_logs limit action after) actions).
  intros l. unfold sort_newest. split; [|split].
  - induction l as [|x l IH]; simpl; [reflexivity|].
    now rewrite insert_newest_perm, IH.
  - induction l as [|x l IH]; simpl; [constructor|].
    now apply insert_newest_sorted.
  - intros t. induction l as [|x l IH]; simpl; [reflexivity|].
    rewrite insert_newest_filter. simpl. now rewrite IH.
Qed.


(** ** Failures *)

(** X25.  A message of the old bot whose image cannot be requested stops
    the import: when the messages before it are passed over and the
    request for the image of its embed fails, the import raises
    [ClientError] at that message and leaves the world as it was; the
    messages after it are not looked at and the index is not rebuilt. *)
Theorem do_import_download_fails (w : World) (done rest : list Message)
    (m : Message) (l : pystr) :
  channel w = done ++ m :: rest ->
  Forall (fun x => qualifies x = false) done ->
  qualifies m = true ->
  (exists e es, embeds m = e :: es /\ image_url e = Some l /\ l <> []) ->
  http w l = HttpFailure ->
  do_import w = (Raise ClientError, w).
Proof.
  intros Hch Hdone Hq (e & es & He & Hurl & Hl) Hhttp.
  unfold do_import. unfold bind at 1, get_world. unfold bind at 1.
  rewrite Hch.
  rewrite (for_each_aborts done rest m import_one ClientError w w w);
    [reflexivity | |].
  - apply for_each_idle. eapply Forall_impl; [exact Hdone|]. simpl.
    intros x Hx. now apply import_one_unqualified.
  - unfold qualifies in Hq. rewrite He in Hq.
    apply andb_true_iff in Hq as [Hbot Hq].
    destruct (footer_text e) as [ft|] eqn:Hft; [|discriminate].
    unfold import_one. rewrite Hbot, He, Hft, Hq. cbn [negb].
    destruct ft as [|f0 ft]; [discriminate Hq|].
    rewrite Hurl. destruct l as [|c l]; [contradiction|].
    unfold bind at 1. unfold bind at 1, get_discord_file_from_url.
    now rewrite Hhttp.
Qed.

(** X27.  A message of the old bot whose image is served stops the import
    as well: when the messages before it are passed over and the request
    for the image of its embed is answered with status 200, the import
    raises [TypeError] at that message, where the file object is made of
    the temporary file, and leaves the world as it was. *)
Theorem do_import_served_image_fails (w : World) (done rest : list Message)
    (m : Message) (l : pystr) (body : list N) :
  channel w = done ++ m :: rest ->
  Forall (fun x => qualifies x = false) done ->
  qualifies m = true ->
  (exists e es, embeds m = e :: es /\ image_url e = Some l /\ l <> []) ->
  http w l = HttpBody 200 body ->
  do_import w = (Raise TypeError, w).
Proof.
  intros Hch Hdone Hq (e & es & He & Hurl & Hl) Hhttp.
  unfold do_import. unfold bind at 1, get_world. unfold bind at 1.
  rewrite Hch.
  rewrite (for_each_aborts done rest m import_one TypeError w w w);
    [reflexivity | |].
  - apply for_each_idle. eapply Forall_impl; [exact Hdone|]. simpl.
    intros x Hx. now apply import_one_unqualified.
  - unfold qualifies in Hq. rewrite He in Hq.
    apply andb_true_iff in Hq as [Hbot Hq].
    destruct (footer_text e) as [ft|] eqn:Hft; [|discriminate].
    unfold import_one. rewrite Hbot, He, Hft, Hq. cbn [negb].
    destruct ft as [|f0 ft]; [discriminate Hq|].
    rewrite Hurl. destruct l as [|c l]; [contradiction|].
    unfold bind at 1. unfold bind at 1, get_discord_file_from_url.
    now rewrite Hhttp.
Qed.

(** X26.  A rebuild that does not return has not recorded anything: the
    list of page ids in the guild document is the one from before, though
    the pages it names are gone from the channel, their ids being in the
    past. *)
Theorem refresh_failure_keeps_stale_list (w : World) :
  fst (refresh_common_issues w) <> Ok tt ->
  Forall (fun id => (id < next_msg w)%N) (old_list w) ->
  issues_list_msg (snd (refresh_common_issues w)) = issues_list_msg w
  /\ forall m, In m (channel (snd (refresh_common_issues w))) ->
               ~ In (msg_id m) (old_list w).
Proof.
  intros Hfail Hold. split.
  - remember (refresh_common_issues w) as r eqn:E.
    unfold refresh_common_issues in E. rewrite refresh_after_delete in E.
    set (w1 := with_channel w (purge (old_list w) (channel w))) in E.
    unfold bind at 1, get_world in E. unfold bind at 1 in E.
    pose proof (keeps_toc_loop issues_list_msg (index_line w1) 0 (issues w1)
                  {| toc_title := u "Table of Contents"; desc := [];
                     page := 0; ids := [] |}
                  (fun _ _ _ _ => eq_refl) w1) as Hloop.
    destruct (toc_loop _ _ _ _ w1) as [[st|e] w2]; simpl in Hloop;
      [|now subst r].
    destruct (0 <? len (desc st)).
    + unfold bind in E.
      pose proof (keeps_channel_send issues_list_msg None
                    (toc_embed (toc_title st) (desc st) (N.succ (page st)))
                    None (fun _ _ _ _ => eq_refl) w2) as Hsend.
      destruct (channel_send _ _ _ w2) as [[msg|e] w3]; simpl in Hsend;
        subst r.
      * now contradiction Hfail.
      * simpl. now rewrite Hsend.
    + subst r. now contradiction Hfail.
  - destruct (refresh_channel_fresh w) as (extra & H & F & _).
    rewrite H. intros m Hin. apply in_app_or in Hin as [Hin|Hin].
    + now apply in_purge in Hin.
    + rewrite List.Forall_forall in F, Hold. intros Hid.
      apply F in Hin. apply Hold in Hid. lia.
Qed.



End Platform.

(** ** The properties on concrete inputs *)

Lemma prepare_issue_embed_color_witness :
  exists e,
    prepare_issue_embed name_length_hash wifi_world
      (sample_issue (u "wifi") (Some 5) None 100) = Ok e
    /\ (5 <> 0 -> embed_color e = Some 5)
    /\ (5 = 0 -> embed_color e = Some (name_length_hash (u "wifi"))).
Proof.
  apply (prepare_issue_embed_color name_length_hash wifi_world
           (sample_issue (u "wifi") (Some 5) None 100) 5).
  reflexivity.
Defined.

(** An issue whose colour is set to black (0) is rendered in the colour
    derived from its name. *)
Lemma prepare_issue_embed_black_is_hashed :
  ~ (forall (hash_color : pystr -> Z) (w : World) (issue : Issue) (c : Z),
       color issue = Some c ->
       exists e, prepare_issue_embed hash_color w issue = Ok e
                 /\ embed_color e = Some c).
Proof.
  intros H.
  destruct (H name_length_hash wifi_world
              (sample_issue (u "wifi") (Some 0) None 100) 0 eq_refl)
    as (e & He & Hc).
  vm_compute in He. injection He as <-. discriminate Hc.
Qed.

Lemma add_twice_rejects_second_witness :
  let w1 := snd (add name_length_hash ascii_digit no_color (u "wifi") None
                     None None (Some (sample_issue (u "wifi") (Some 5) None 0))
                     empty_world) in
  add name_length_hash ascii_digit no_color (u "wifi")
      (Some text_attachment) None None None w1
    = (Raise (BadArgument (u "Issue with that name already exists.")), w1)
  /\ app_command_error (BadArgument (u "Issue with that name already exists."))
     = UserError (BadArgument (u "Issue with that name already exists."))
  /\ exists record,
       List.filter (fun i => str_eqb (name i) (u "wifi")) (issues w1)
       = [record]
       /\ name record = u "wifi"
       /\ content record = u "Restart the device."
       /\ added_by_tag record = u "helper#0001"
       /\ button_links record = [].
Proof.
  apply (add_twice_rejects_second name_length_hash ascii_digit no_color
           (u "wifi") None None None
           (sample_issue (u "wifi") (Some 5) None 0)
           (Some text_attachment) None None None empty_world _
           (Followup (u "Added new issue!"))).
  - reflexivity.
  - vm_compute. reflexivity.
Defined.

Lemma edit_without_image_deletes_blob_witness :
  image_read image_world (sample_issue (u "wifi") (Some 5) (Some 3%N) 100)
  = Some [137%N; 80%N; 78%N; 71%N]
  /\ gridfs (snd (edit name_length_hash ascii_digit no_color (u "wifi") None
                       (Some (u "panic")) None Some image_world)) !! 3%N
     = None
  /\ image_read (snd (edit name_length_hash ascii_digit no_color (u "wifi")
                           None (Some (u "panic")) None Some image_world))
       (sample_issue (u "wifi") (Some 5) (Some 3%N) 100)
     = None.
Proof.
  apply (edit_without_image_deletes_blob name_length_hash ascii_digit no_color
           (u "wifi") (Some (u "panic")) None Some image_world
           (sample_issue (u "wifi") (Some 5) (Some 3%N) 100) 3%N
           {| blob_data := [137%N; 80%N; 78%N; 71%N];
              blob_content_type := Some (u "image/png") |}).
  - vm_compute. reflexivity.
  - reflexivity.
  - vm_compute. reflexivity.
Defined.

Lemma refresh_500_issues_witness :
  exists pages : list Message,
    fst (refresh_common_issues big_world) = Ok tt
    /\ channel (snd (refresh_common_issues big_world))
       = purge (old_list big_world) (channel big_world) ++ pages
    /\ issues_list_msg (snd (refresh_common_issues big_world))
       = Some (map msg_id pages)
    /\ map page_footer pages
       = map (fun j => Some (u "Page " ++ dec (N.of_nat j)))
             (seq 1 (length pages))
    /\ (9 <= length pages <= 500)%nat.
Proof.
  apply (refresh_500_issues big_world).
  - reflexivity.
  - vm_compute. reflexivity.
  - apply (bool_decide_unpack _). vm_compute. exact I.
Defined.

(** 500 issues with names of 10 characters make 10 pages, not 3. *)
Lemma refresh_500_issues_ten_pages :
  send_faults big_world = []
  /\ length (issues big_world) = 500%nat
  /\ forallb (fun i => len (name i) =? 10) (issues big_world) = true
  /\ fst (refresh_common_issues big_world) = Ok tt
  /\ issues_list_msg (snd (refresh_common_issues big_world))
     = Some [5000; 5001; 5002; 5003; 5004; 5005; 5006; 5007; 5008; 5009]%N
  /\ length (channel (snd (refresh_common_issues big_world))) <> 3%nat.
Proof. vm_compute. repeat split; try reflexivity. discriminate. Qed.

Lemma refresh_page_bound_witness :
  exists pages : list Message,
    fst (refresh_common_issues big_world) = Ok tt
    /\ channel (snd (refresh_common_issues big_world))
       = purge (old_list big_world) (channel big_world) ++ pages
    /\ Forall (fun m => len (page_text m)
                        <= 3072 + longest (index_lines (index_line big_world) 0
                                             (issues big_world))) pages
    /\ forall body last, pages = body ++ [last] ->
         Forall (fun m => 3072 < len (page_text m)) body.
Proof. apply (refresh_page_bound big_world). reflexivity. Defined.

(** The pages of the 500 issues: all but the last hold more than 3072
    characters. *)
Lemma refresh_posts_pages_over_3072 :
  map (fun m => len (page_text m))
      (channel (snd (refresh_common_issues big_world)))
  = [3127; 3092; 3078; 3078; 3078; 3078; 3078; 3078; 3078; 627]
  /\ 3072 < 3127.
Proof. vm_compute. split; reflexivity. Qed.

(** A label whose emoji is not at its start: the emoji is found all the
    same, taken as icon and removed from the text. *)
Lemma render_button_inner_token :
  rmatch ascii_digit emoji_re (u "Click " ++ 0x1F525%N :: u " here") Some
  = None
  /\ render_button ascii_digit
       (u "Click " ++ 0x1F525%N :: u " here", u "https://example.org")
     = {| label := u "Click  here"; url := u "https://example.org";
          emoji := Some [0x1F525%N] |}.
Proof. vm_compute. split; reflexivity. Qed.



Lemma do_reindex_changes_message_id_only_witness :
  let w' := snd (do_reindex name_length_hash ascii_digit reindex_world) in
  length (issues w') = length (issues reindex_world)
  /\ forall (k : nat) (i : Issue), issues reindex_world !! k = Some i ->
       exists i', issues w' !! k = Some i'
         /\ name i' = name i /\ content i' = content i
         /\ color i' = color i /\ button_links i' = button_links i
         /\ message_id i' <> message_id i
         /\ exists m e,
              In m (channel w') /\ ~ In m (channel reindex_world)
              /\ msg_id m = message_id i'
              /\ prepare_issue_embed name_length_hash reindex_world i = Ok e
              /\ embeds m = [e].
Proof.
  apply (do_reindex_changes_message_id_only name_length_hash ascii_digit
           reindex_world _ (u "Reindexed!")).
  - vm_compute. reflexivity.
  - apply List.NoDup_cons;
      [simpl; intros [E|[]]; vm_compute in E; discriminate E|].
    apply List.NoDup_cons; [simpl; tauto | apply List.NoDup_nil].
  - repeat split; repeat constructor.
Defined.

(** ** The further properties on concrete inputs *)

Lemma refresh_no_issues_witness :
  fst (refresh_common_issues toc_world) = Ok tt
  /\ channel (snd (refresh_common_issues toc_world))
     = purge (old_list toc_world) (channel toc_world)
  /\ issues_list_msg (snd (refresh_common_issues toc_world)) = Some []
  /\ next_msg (snd (refresh_common_issues toc_world)) = next_msg toc_world
  /\ send_faults (snd (refresh_common_issues toc_world))
     = send_faults toc_world.
Proof. apply (refresh_no_issues toc_world). reflexivity. Defined.

Lemma refresh_removes_old_pages_witness :
  (forall m, In m (channel (snd (refresh_common_issues listed_world))) ->
             ~ In (msg_id m) (old_list listed_world))
  /\ (forall m, In m (channel listed_world) ->
                ~ In (msg_id m) (old_list listed_world) ->
                In m (channel (snd (refresh_common_issues listed_world)))).
Proof.
  apply (refresh_removes_old_pages listed_world).
  repeat constructor.
Defined.

Lemma refresh_pages_are_whole_lines_witness :
  exists (pages : list Message) (groups : list (list pystr)),
    channel (snd (refresh_common_issues listed_world))
    = purge (old_list listed_world) (channel listed_world) ++ pages
    /\ map page_text pages = map joined groups
    /\ List.concat groups
       = index_lines (index_line listed_world) 0 (issues listed_world)
    /\ Forall (fun g => g <> []) groups.
Proof. apply (refresh_pages_are_whole_lines listed_world). reflexivity. Defined.

Lemma refresh_page_titles_witness :
  exists pages : list Message,
    channel (snd (refresh_common_issues big_world))
    = purge (old_list big_world) (channel big_world) ++ pages
    /\ map page_title pages
       = match pages with
         | [] => []
         | _ :: r => u "Table of Contents" :: map (fun _ => []) r
         end
    /\ map msg_id pages
       = map (fun k => (next_msg big_world + N.of_nat k)%N)
           (seq 0 (length pages)).
Proof. apply (refresh_page_titles big_world). reflexivity. Defined.

Lemma embed_image_is_the_attachment_witness :
  exists e,
    prepare_issue_embed name_length_hash image_world
      (sample_issue (u "wifi") (Some 5) (Some 3%N) 100) = Ok e
    /\ match discord_file image_world
               (sample_issue (u "wifi") (Some 5) (Some 3%N) 100) with
       | Some f =>
         image_read image_world
           (sample_issue (u "wifi") (Some 5) (Some 3%N) 100)
         = Some (file_data f)
         /\ image_url e = Some (u "attachment://" ++ filename f)
         /\ filename f
            = (if is_gif (image_content_type image_world
                            (sample_issue (u "wifi") (Some 5) (Some 3%N) 100))
               then u "image.gif" else u "image.png")
       | None =>
         image_read image_world
           (sample_issue (u "wifi") (Some 5) (Some 3%N) 100) = None
         /\ image_url e = None
       end.
Proof.
  apply (embed_image_is_the_attachment name_length_hash image_world
           (sample_issue (u "wifi") (Some 5) (Some 3%N) 100) 5).
  reflexivity.
Defined.

Lemma import_one_stores_witness :
  let import := import_one name_length_hash ascii_digit image_post in
  let e := posted_image_embed (u "wifi") in
  fst (import import_world) = Ok tt
  /\ List.find (fun x => str_eqb (name x) (title e))
       (issues (snd (import import_world)))
     = Some (imported image_post e 5 (next_msg import_world))
  /\ (forall old,
        List.find (fun x => str_eqb (name x) (title e)) (issues import_world)
        = Some old ->
        length (issues (snd (import import_world)))
        = length (issues import_world))
  /\ (List.find (fun x => str_eqb (name x) (title e)) (issues import_world)
      = None ->
      issues (snd (import import_world))
      = issues import_world
        ++ [imported image_post e 5 (next_msg import_world)])
  /\ ~ In image_post (channel (snd (import import_world))).
Proof.
  apply (import_one_stores name_length_hash ascii_digit image_post
           (posted_image_embed (u "wifi")) [] (u "Submitted by helper#0001") 5
           import_world).
  - reflexivity.
  - reflexivity.
  - reflexivity.
  - vm_compute. reflexivity.
  - reflexivity.
  - intros l _ _. exists 404, []. split; [reflexivity | discriminate].
  - simpl. lia.
  - constructor.
  - reflexivity.
  - left. reflexivity.
Defined.

Lemma import_of_rendered_issue_witness :
  let i := sample_issue (u "wifi") (Some 5) (Some 3%N) 100 in
  exists i',
    List.find (fun x => str_eqb (name x) (name i))
      (issues (snd (import_one name_length_hash ascii_digit image_post
                      import_world))) = Some i'
    /\ name i' = name i
    /\ content i' = content i
    /\ added_date i' = added_date i
    /\ added_by_tag i' = added_by_tag i
    /\ color i' = embed_color (posted_image_embed (u "wifi"))
    /\ added_by_id i' = 0%N
    /\ image i' = None.
Proof.
  apply (import_of_rendered_issue name_length_hash ascii_digit
           (sample_issue (u "wifi") (Some 5) (Some 3%N) 100) image_world
           (posted_image_embed (u "wifi")) image_post [] import_world).
  - vm_compute. reflexivity.
  - reflexivity.
  - reflexivity.
  - intros l _ _. exists 404, []. split; [reflexivity | discriminate].
  - simpl. lia.
  - constructor.
  - reflexivity.
  - left. reflexivity.
Defined.

Lemma do_import_without_candidates_witness :
  snd (do_import name_length_hash ascii_digit toc_world)
  = snd (refresh_common_issues toc_world)
  /\ issues (snd (do_import name_length_hash ascii_digit toc_world))
     = issues toc_world
  /\ forall m, In m (channel toc_world) ->
               ~ In (msg_id m) (old_list toc_world) ->
               In m (channel (snd (do_import name_length_hash ascii_digit
                                     toc_world))).
Proof.
  apply (do_import_without_candidates name_length_hash ascii_digit toc_world).
  constructor; [vm_compute; reflexivity | constructor].
Defined.

Lemma do_reindex_removes_old_posts_witness :
  let w' := snd (do_reindex name_length_hash ascii_digit listed_world) in
  fst (do_reindex name_length_hash ascii_digit listed_world)
  = Ok (u "Reindexed!")
  /\ (forall m, In m (channel w') ->
        ~ In (msg_id m) (map message_id (issues listed_world)))
  /\ (forall m, In m (channel listed_world) ->
        ~ In (msg_id m) (map message_id (issues listed_world)) ->
        ~ In (msg_id m) (old_list listed_world) ->
        In m (channel w'))
  /\ gridfs w' = gridfs listed_world.
Proof.
  apply (do_reindex_removes_old_posts name_length_hash ascii_digit
           listed_world).
  - reflexivity.
  - repeat constructor. discriminate.
  - repeat constructor.
Defined.

Lemma do_reindex_index_links_new_posts_witness :
  let w' := snd (do_reindex name_length_hash ascii_digit listed_world) in
  exists (pages : list Message) (groups : list (list pystr)),
    channel w'
    = purge (old_list listed_world)
        (purge (map message_id (issues listed_world)) (channel listed_world)
         ++ reposts name_length_hash ascii_digit listed_world
              (next_msg listed_world) (issues listed_world))
      ++ pages
    /\ issues_list_msg w' = Some (map msg_id pages)
    /\ map page_text pages = map joined groups
    /\ List.concat groups
       = imap (fun k i =>
                 index_line listed_world k
                   (set_message_id i (next_msg listed_world + N.of_nat k)))
           (issues listed_world).
Proof.
  apply (do_reindex_index_links_new_posts name_length_hash ascii_digit
           listed_world).
  - reflexivity.
  - repeat constructor. discriminate.
  - repeat constructor.
  - apply List.NoDup_cons; [intros [] | apply List.NoDup_nil].
Defined.

Lemma add_posts_then_stores_witness :
  let sub := sample_issue (u "wifi") (Some 7) None 0 in
  let run := add name_length_hash ascii_digit no_color (u "wifi")
               (Some png_attachment) (Some (u "panic")) None (Some sub)
               empty_world in
  exists (record : Issue) (post : Message) (e : Embed),
    fst run = Ok (Followup (u "Added new issue!"))
    /\ issues (snd run) = issues empty_world ++ [record]
    /\ name record = name sub /\ content record = content sub
    /\ message_id record = next_msg empty_world
    /\ panic_string record = or_empty (Some (u "panic"))
    /\ color record = Some (name_length_hash (u "wifi"))
    /\ (forall a, Some png_attachment = Some a ->
          image record = Some (next_grid empty_world)
          /\ image_read (snd run) record = Some (att_data a)
          /\ image_content_type (snd run) record = att_content_type a)
    /\ (Some png_attachment = None -> image record = None)
    /\ msg_id post = next_msg empty_world
    /\ embeds post = [e]
    /\ embed_color e
       = Some (if 7 =? 0 then name_length_hash (name sub) else 7)
    /\ (~ In (next_msg empty_world) (old_list empty_world) ->
        In post (channel (snd run))).
Proof.
  apply (add_posts_then_stores name_length_hash ascii_digit no_color
           (u "wifi") (Some png_attachment) (Some (u "panic")) None
           (sample_issue (u "wifi") (Some 7) None 0) empty_world 7).
  - reflexivity.
  - intros a [= <-]. split; [vm_compute; reflexivity | vm_compute; discriminate].
  - reflexivity.
  - reflexivity.
  - simpl. lia.
  - reflexivity.
  - reflexivity.
Defined.

Lemma edit_updates_in_place_witness :
  let old := sample_issue (u "wifi") (Some 5) (Some 3%N) 100 in
  let sub := set_image old (Some 10%N) in
  let run := edit name_length_hash ascii_digit no_color (u "wifi")
               (Some png_attachment) None None Some image_world in
  fst run = Ok (Followup (u "Edited issue!"))
  /\ List.find (fun i => str_eqb (name i) (u "wifi")) (issues (snd run))
     = Some (set_panic_color sub (or_empty None)
               (Some (name_length_hash (u "wifi"))))
  /\ length (issues (snd run)) = length (issues image_world)
  /\ exists (m' : Message) (e : Embed),
       In m' (channel (snd run))
       /\ msg_id m' = message_id sub
       /\ embeds m' = [e]
       /\ title e = name sub /\ description e = content sub
       /\ embed_color e = Some (name_length_hash (u "wifi"))
       /\ attachments m'
          = match discord_file (snd run) sub with
            | Some f => [f]
            | None => []
            end
       /\ (button_links sub = [] ->
           components m'
           = components (bot_message 100 (posted_embed (u "wifi")))).
Proof.
  apply (edit_updates_in_place name_length_hash ascii_digit no_color
           (u "wifi") (Some png_attachment) None None Some image_world
           (sample_issue (u "wifi") (Some 5) (Some 3%N) 100)
           (set_image (sample_issue (u "wifi") (Some 5) (Some 3%N) 100)
              (Some 10%N))
           (bot_message 100 (posted_embed (u "wifi")))).
  - vm_compute. reflexivity.
  - intros a [= <-]. vm_compute. discriminate.
  - reflexivity.
  - reflexivity.
  - simpl. lia.
  - reflexivity.
  - left. reflexivity.
  - reflexivity.
Defined.

Lemma edit_cancelled_loses_image_witness :
  let old := sample_issue (u "wifi") (Some 5) (Some 3%N) 100 in
  let run := edit name_length_hash ascii_digit no_color (u "wifi")
               (Some png_attachment) None None (fun _ => None) image_world in
  issues (snd run) = issues image_world
  /\ channel (snd run) = channel image_world
  /\ image_read (snd run) old = None
  /\ gridfs (snd run) !! next_grid image_world
     = Some {| blob_data := att_data png_attachment;
               blob_content_type := att_content_type png_attachment |}
  /\ Forall (fun i => image i <> Some (next_grid image_world))
       (issues (snd run)).
Proof.
  apply (edit_cancelled_loses_image name_length_hash ascii_digit no_color
           (u "wifi") png_attachment None None (fun _ => None) image_world
           (sample_issue (u "wifi") (Some 5) (Some 3%N) 100) 3%N).
  - vm_compute. reflexivity.
  - vm_compute. discriminate.
  - reflexivity.
  - constructor; [|constructor]. intros k [= <-]. reflexivity.
  - reflexivity.
Defined.

Lemma issues_delete_removes_witness :
  let old := sample_issue (u "wifi") (Some 5) (Some 3%N) 100 in
  let run := issues_delete (u "wifi") image_world in
  fst run = Ok (u "Deleted issue `" ++ u "wifi" ++ u "`.")
  /\ issues (snd run)
     = List.filter (fun i => negb (str_eqb (name i) (u "wifi")))
         (issues image_world)
  /\ List.find (fun i => str_eqb (name i) (u "wifi")) (issues (snd run))
     = None
  /\ (forall g, image old = Some g -> gridfs (snd run) !! g = None)
  /\ ((message_id old < next_msg image_world)%N ->
      forall x, In x (channel (snd run)) -> msg_id x <> message_id old).
Proof.
  apply (issues_delete_removes (u "wifi") image_world
           (sample_issue (u "wifi") (Some 5) (Some 3%N) 100)
           (bot_message 100 (posted_embed (u "wifi")))).
  - vm_compute. reflexivity.
  - left. reflexivity.
  - reflexivity.
  - reflexivity.
Defined.

Lemma issues_delete_without_message_witness :
  let old := sample_issue (u "vpn") (Some 7) None 101 in
  let run := issues_delete (u "vpn") reindex_world in
  fst run = Raise NotFound
  /\ issues (snd run) = issues reindex_world
  /\ channel (snd run) = channel reindex_world
  /\ issues_list_msg (snd run) = issues_list_msg reindex_world
  /\ image_read (snd run) old = None.
Proof.
  apply (issues_delete_without_message (u "vpn") reindex_world
           (sample_issue (u "vpn") (Some 7) None 101)).
  - vm_compute. reflexivity.
  - intros m [<-|[]]. vm_compute. discriminate.
Defined.

Lemma add_then_delete_witness :
  let sub := sample_issue (u "dns") (Some 7) None 0 in
  let added := snd (add name_length_hash ascii_digit no_color (u "dns")
                      (Some png_attachment) None None (Some sub)
                      reindex_world) in
  fst (issues_delete (u "dns") added)
  = Ok (u "Deleted issue `" ++ u "dns" ++ u "`.")
  /\ issues (snd (issues_delete (u "dns") added)) = issues reindex_world
  /\ gridfs (snd (issues_delete (u "dns") added)) = gridfs reindex_world
  /\ exists pages,
       channel (snd (issues_delete (u "dns") added))
       = purge (old_list reindex_world) (channel reindex_world) ++ pages
       /\ channel (snd (refresh_common_issues reindex_world))
          = purge (old_list reindex_world) (channel reindex_world)
            ++ page_messages (u "Table of Contents") 0
                 (next_msg reindex_world) (map page_text pages)
       /\ map embeds pages
          = map embeds (page_messages (u "Table of Contents") 0
                          (next_msg reindex_world) (map page_text pages)).
Proof.
  apply (add_then_delete name_length_hash ascii_digit no_color (u "dns")
           (Some png_attachment) None None
           (sample_issue (u "dns") (Some 7) None 0) reindex_world).
  - vm_compute. reflexivity.
  - intros a [= <-]. split; [vm_compute; reflexivity | vm_compute; discriminate].
  - reflexivity.
  - split; [discriminate | simpl; lia].
  - reflexivity.
  - reflexivity.
  - reflexivity.
  - repeat split; repeat constructor.
  - reflexivity.
Defined.

Lemma format_number_commas_witness :
  (44%N = 44%N <-> (3 mod 4 = 3)%nat)
  /\ head (format_number 1234567) <> Some 44%N.
Proof.
  apply (format_number_commas 1234567 3 44%N).
  - vm_compute. discriminate.
  - vm_compute. reflexivity.
Defined.

Lemma do_import_download_fails_witness :
  do_import name_length_hash ascii_digit legacy_image_world
  = (Raise ClientError, legacy_image_world).
Proof.
  apply (do_import_download_fails name_length_hash ascii_digit
           legacy_image_world [toc_page]
           [bot_message 102 (posted_embed (u "wifi"))]
           legacy_image_message (u "https://cdn.example.org/vpn.png")).
  - reflexivity.
  - constructor; [vm_compute; reflexivity | constructor].
  - vm_compute. reflexivity.
  - eexists. eexists. split; [reflexivity|]. split; [reflexivity|].
    vm_compute. discriminate.
  - reflexivity.
Defined.

Lemma do_import_served_image_fails_witness :
  do_import name_length_hash ascii_digit served_image_world
  = (Raise TypeError, served_image_world).
Proof.
  apply (do_import_served_image_fails name_length_hash ascii_digit
           served_image_world [toc_page]
           [bot_message 102 (posted_embed (u "wifi"))]
           legacy_image_message (u "https://cdn.example.org/vpn.png")
           [137%N; 80%N; 78%N; 71%N]).
  - reflexivity.
  - constructor; [vm_compute; reflexivity | constructor].
  - vm_compute. reflexivity.
  - eexists. eexists. split; [reflexivity|]. split; [reflexivity|].
    vm_compute. discriminate.
  - reflexivity.
Defined.

Lemma refresh_failure_keeps_stale_list_witness :
  issues_list_msg (snd (refresh_common_issues faulty_listed_world))
  = issues_list_msg faulty_listed_world
  /\ forall m,
       In m (channel (snd (refresh_common_issues faulty_listed_world))) ->
       ~ In (msg_id m) (old_list faulty_listed_world).
Proof.
  apply (refresh_failure_keeps_stale_list faulty_listed_world).
  - vm_compute. discriminate.
  - repeat constructor.
Defined.
